(** * xv6 lock lab: per-CPU page allocator and bucketed buffer cache

    A shallow embedding of [kernel/kalloc.c] and [kernel/bio.c].  Kernel
    code is written in a small state-and-failure monad: a run either
    finishes with a value and a new state, panics, waits for ever on a
    lock that is held, or exhausts the fuel given to a list walk. *)

From Stdlib Require Import String ZArith List Lia Bool Permutation.
Import ListNotations.
Local Open Scope Z_scope.

(** ** Runs of kernel code *)

Inductive outcome (St A : Type) : Type :=
| Done (a : A) (s : St)     (* returned [a], machine left in state [s] *)
| Panic (msg : string)      (* panic(msg) *)
| Blocked                   (* waits on a lock nobody will release *)
| Timeout.                  (* a list walk ran out of fuel *)

Arguments Done {St A} a s.
Arguments Panic {St A} msg.
Arguments Blocked {St A}.
Arguments Timeout {St A}.

Definition M (St A : Type) : Type := St -> outcome St A.

Definition ret {St A} (a : A) : M St A := fun s => Done a s.

Definition bind {St A B} (m : M St A) (k : A -> M St B) : M St B :=
  fun s =>
    match m s with
    | Done a s' => k a s'
    | Panic msg => Panic msg
    | Blocked => Blocked
    | Timeout => Timeout
    end.

Definition panic {St A} (msg : string) : M St A := fun _ => Panic msg.

Definition gets {St A} (f : St -> A) : M St A := fun s => Done (f s) s.

Definition modify {St} (f : St -> St) : M St unit := fun s => Done tt (f s).

Declare Scope kernel_scope.
Delimit Scope kernel_scope with kernel.
Notation "x <- m ;; k" := (bind m (fun x => k))
  (at level 61, m at next level, right associativity) : kernel_scope.
Notation "m ;; k" := (bind m (fun _ => k))
  (at level 61, right associativity) : kernel_scope.

Local Open Scope kernel_scope.

(** for (int i = 0; i < n; i++) body(i), over [seq 0 n]. *)
Fixpoint for_each {St} (l : list nat) (body : nat -> M St unit) : M St unit :=
  match l with
  | [] => ret tt
  | i :: l' => body i ;; for_each l' body
  end.

(** Updating one cell of a function used as an array or a memory. *)

Definition upd_nat {A} (f : nat -> A) (i : nat) (v : A) : nat -> A :=
  fun j => if Nat.eqb j i then v else f j.

(** ** kernel/kalloc.c *)

Module Kalloc.

(** Allocates whole 4096-byte pages. *)
Definition PGSIZE : Z := 4096.

(** Modelled from the spec: PGROUNDUP of riscv.h, which is not part of the
    sources at hand; the spec walks the range "in page increments" from the
    first page boundary at or after the start address.  The arithmetic is
    that of uint64. *)
Definition PGROUNDUP (sz : Z) : Z :=
  (((sz + PGSIZE - 1) mod 2 ^ 64) / PGSIZE) * PGSIZE.

(** Physical memory, byte by byte. *)
Definition memory : Type := Z -> Z.

Definition memset (m : memory) (dst c n : Z) : memory :=
  fun a => if (dst <=? a) && (a <? dst + n) then c mod 256 else m a.

(** Little-endian loads and stores of [n] bytes (RISC-V). *)
Fixpoint load_le (m : memory) (a : Z) (n : nat) : Z :=
  match n with
  | O => 0
  | S k => m a + 256 * load_le m (a + 1) k
  end.

Fixpoint store_le (m : memory) (a : Z) (n : nat) (v : Z) : memory :=
  match n with
  | O => m
  | S k => store_le (fun x => if x =? a then v mod 256 else m x) (a + 1) k (v / 256)
  end.

(** struct { struct spinlock lock; struct run *freelist; } *)
Record pool : Type := { lock : bool; freelist : Z }.

Record kstate : Type := {
  ram : memory;
  kmem : nat -> pool      (* kmem[NCPU] *)
}.

Definition K := M kstate.

Section WithLayout.

(** NCPU comes from param.h, [end] from the linker script and PHYSTOP from
    memlayout.h. *)
Variable NCPU : nat.
Variable END : Z.
Variable PHYSTOP : Z.

Local Open Scope kernel_scope.

Definition initlock (i : nat) : K unit :=
  modify (fun s => {| ram := ram s;
                      kmem := upd_nat (kmem s) i
                                {| lock := false; freelist := freelist (kmem s i) |} |}).

(** Modelled from the spec: the spin-lock of spinlock.c, which is not part
    of the sources at hand ("busy-wait").  A lock that is held makes a
    sequential caller spin for ever. *)
Definition acquire (i : nat) : K unit :=
  fun s =>
    if lock (kmem s i) then Blocked
    else Done tt {| ram := ram s;
                    kmem := upd_nat (kmem s) i
                              {| lock := true; freelist := freelist (kmem s i) |} |}.

Definition release (i : nat) : K unit :=
  modify (fun s => {| ram := ram s;
                      kmem := upd_nat (kmem s) i
                                {| lock := false; freelist := freelist (kmem s i) |} |}).

Definition get_freelist (i : nat) : K Z := gets (fun s => freelist (kmem s i)).

Definition set_freelist (i : nat) (r : Z) : K unit :=
  modify (fun s => {| ram := ram s;
                      kmem := upd_nat (kmem s) i
                                {| lock := lock (kmem s i); freelist := r |} |}).

Definition do_memset (dst c n : Z) : K unit :=
  modify (fun s => {| ram := memset (ram s) dst c n; kmem := kmem s |}).

(** r->next, the first machine word of the page at [r].  Memory is a
    total function here, so this load answers at every address; the
    machine faults when [r] is no address of RAM.  The two agree where
    [r] is a frame in [end, PHYSTOP): statements about kalloc are made
    for states in which the heads of the pools are such frames
    ([heads_ok] below). *)
Definition get_next (r : Z) : K Z := gets (fun s => load_le (ram s) r 8).

Definition set_next (r v : Z) : K unit :=
  modify (fun s => {| ram := store_le (ram s) r 8 v; kmem := kmem s |}).

(** [nc] is what cpuid() answers between push_off() and pop_off(). *)
Definition kfree (nc : nat) (pa : Z) : K unit :=
  if negb (pa mod PGSIZE =? 0) || (pa <? END) || (pa >=? PHYSTOP)
  then panic "kfree"
  else
    do_memset pa 1 PGSIZE ;;
    acquire nc ;;
    hd <- get_freelist nc ;;
    set_next pa hd ;;
    set_freelist nc pa ;;
    release nc.

(** for(; p + PGSIZE <= pa_end; p += PGSIZE) kfree(p); one unit of fuel
    per iteration. *)
Fixpoint freerange_loop (fuel : nat) (nc : nat) (p pa_end : Z) : K unit :=
  match fuel with
  | O => fun _ => Timeout
  | S fuel' =>
      if (p + PGSIZE) mod 2 ^ 64 <=? pa_end
      then kfree nc p ;; freerange_loop fuel' nc ((p + PGSIZE) mod 2 ^ 64) pa_end
      else ret tt
  end.

Definition freerange (fuel : nat) (nc : nat) (pa_start pa_end : Z) : K unit :=
  freerange_loop fuel nc (PGROUNDUP pa_start) pa_end.

Definition kinit (fuel : nat) (nc : nat) : K unit :=
  for_each (seq 0 NCPU) initlock ;;
  freerange fuel nc END PHYSTOP.

(** The loop over the other pools: [n] iterations are left, the next one
    has loop index [i]. *)
Fixpoint kalloc_steal (n : nat) (i : nat) (nc : nat) : K Z :=
  match n with
  | O => ret 0
  | S n' =>
      let newnc := ((nc + i) mod NCPU)%nat in
      acquire newnc ;;
      r <- get_freelist newnc ;;
      if negb (r =? 0)
      then nx <- get_next r ;; set_freelist newnc nx ;; release newnc ;; ret r
      else release newnc ;; kalloc_steal n' (S i) nc
  end.

Definition kalloc (nc : nat) : K Z :=
  acquire nc ;;
  r <- get_freelist nc ;;
  r <- (if negb (r =? 0)
        then nx <- get_next r ;; set_freelist nc nx ;; release nc ;; ret r
        else release nc ;; kalloc_steal (NCPU - 1) 1 nc) ;;
  (if negb (r =? 0) then do_memset r 5 PGSIZE else ret tt) ;;
  ret r.

(** *** Notions used in the statements *)

(** The three tests of kfree, passed. *)
Definition frame_ok (pa : Z) : Prop :=
  pa mod PGSIZE = 0 /\ END <= pa /\ pa < PHYSTOP.

(** [reach m hd p]: [p] is a node of the list that starts at [hd] and is
    linked through the first word of each node. *)
Inductive reach (m : memory) : Z -> Z -> Prop :=
| reach_head hd : hd <> 0 -> reach m hd hd
| reach_tail hd p : hd <> 0 -> reach m (load_le m hd 8) p -> reach m hd p.

Definition on_freelist (s : kstate) (p : Z) : Prop :=
  exists i, (i < NCPU)%nat /\ reach (ram s) (freelist (kmem s i)) p.

(** The list at [hd] is exactly [l] and ends in a null pointer. *)
Fixpoint flist (m : memory) (hd : Z) (l : list Z) : Prop :=
  match l with
  | [] => hd = 0
  | x :: l' => hd = x /\ x <> 0 /\ flist m (load_le m x 8) l'
  end.

(** No spinlock of the allocator is held: the state between two calls. *)
Definition quiescent (s : kstate) : Prop :=
  forall i, (i < NCPU)%nat -> lock (kmem s i) = false.

(** The head of every pool that is not empty is a frame that passes the
    tests of kfree: what kalloc reads and fills is RAM. *)
Definition heads_ok (s : kstate) : Prop :=
  forall k, (k < NCPU)%nat -> freelist (kmem s k) <> 0 ->
            frame_ok (freelist (kmem s k)).

(** The pools hold the lists [L i] of frames that pass the tests of kfree,
    and no frame is listed twice. *)
Definition pools_ok (s : kstate) (L : nat -> list Z) : Prop :=
  quiescent s /\
  (forall i, (i < NCPU)%nat -> flist (ram s) (freelist (kmem s i)) (L i)) /\
  (forall i, (i < NCPU)%nat -> NoDup (L i)) /\
  (forall i j x, (i < NCPU)%nat -> (j < NCPU)%nat ->
                 In x (L i) -> In x (L j) -> i = j) /\
  (forall i x, (i < NCPU)%nat -> In x (L i) -> frame_ok x).

(** [s'] is [s] with the head of pool [k] popped. *)
Definition popped (s s' : kstate) (k : nat) : Prop :=
  ram s' = ram s /\
  kmem s' k = {| lock := false;
                 freelist := load_le (ram s) (freelist (kmem s k)) 8 |} /\
  forall j, j <> k -> kmem s' j = kmem s j.

Definition same (s s' : kstate) : Prop :=
  ram s' = ram s /\ forall j, kmem s' j = kmem s j.

(** The order in which kalloc on CPU [nc] looks at the pools. *)
Definition probe_order (nc : nat) : list nat :=
  map (fun i => ((nc + i) mod NCPU)%nat) (seq 0 NCPU).

Definition nonempty (s : kstate) (k : nat) : bool :=
  negb (freelist (kmem s k) =? 0).

(** States of the allocator after kinit, when kfree is only given frames
    that are not free already.  [boot] is the machine at the call of
    kinit and [cpu0] the CPU that runs it. *)
Inductive reachable (boot : kstate) (cpu0 : nat) : kstate -> Prop :=
| after_kinit fuel s :
    kinit fuel cpu0 boot = Done tt s -> reachable boot cpu0 s
| after_kfree s nc pa s' :
    reachable boot cpu0 s -> (nc < NCPU)%nat -> ~ on_freelist s pa ->
    kfree nc pa s = Done tt s' -> reachable boot cpu0 s'
| after_kalloc s nc r s' :
    reachable boot cpu0 s -> (nc < NCPU)%nat ->
    kalloc nc s = Done r s' -> reachable boot cpu0 s'.

End WithLayout.

(** A small machine: eight harts, the kernel image ends at 0x80021d60 and
    RAM at 0x80032000, which leaves sixteen pages to the allocator. *)
Definition small_NCPU : nat := 8.
Definition small_END : Z := 0x80021d60.
Definition small_PHYSTOP : Z := 0x80032000.

(** Memory at boot: all of .bss is zero. *)
Definition boot : kstate :=
  {| ram := fun _ => 0; kmem := fun _ => {| lock := false; freelist := 0 |} |}.

(** Reading the result of a run on concrete input. *)
Definition state_of {A} (o : outcome kstate A) : kstate :=
  match o with Done _ s => s | _ => boot end.

Definition answers (o : outcome kstate Z) (v : Z) : bool :=
  match o with Done r _ => r =? v | _ => false end.

Definition finishes (o : outcome kstate unit) : bool :=
  match o with Done _ _ => true | _ => false end.

(** A run on that machine: kinit on hart 0, then the top page is
    allocated, freed twice, and allocated twice more. *)
Definition small_kinit : K unit :=
  kinit small_NCPU small_END small_PHYSTOP 17 0.
Definition small_kfree : nat -> Z -> K unit := kfree small_END small_PHYSTOP.
Definition small_kalloc : nat -> K Z := kalloc small_NCPU.

Definition top_page : Z := 0x80031000.
Definition junk_word : Z := 0x0505050505050505.

Definition after_init : kstate := state_of (small_kinit boot).
Definition after_alloc : kstate := state_of (small_kalloc 0%nat after_init).
Definition after_free : kstate := state_of (small_kfree 0%nat top_page after_alloc).
Definition after_free2 : kstate := state_of (small_kfree 0%nat top_page after_free).
Definition after_alloc2 : kstate := state_of (small_kalloc 0%nat after_free2).
Definition after_alloc3 : kstate := state_of (small_kalloc 0%nat after_alloc2).

End Kalloc.

(** ** kernel/bio.c *)

Module Bio.

Definition NBUCKET : nat := 13.

(** #define HASH(key) ((uint64)(key) % NBUCKET) *)
Definition HASH (key : Z) : nat := Z.to_nat ((key mod 2 ^ 64) mod Z.of_nat NBUCKET).

(** dev + blockno is a sum of two uint. *)
Definition dhash (dev blockno : Z) : nat := HASH ((dev + blockno) mod 2 ^ 32).

(** A [struct buf *]: null, [&bcache.buf[i]] or [&bcache.bucket[j]]. *)
Inductive ptr : Type :=
| NULL
| Buf (i : nat)
| Bucket (j : nat).

Definition ptr_eqb (p q : ptr) : bool :=
  match p, q with
  | NULL, NULL => true
  | Buf i, Buf j => Nat.eqb i j
  | Bucket i, Bucket j => Nat.eqb i j
  | _, _ => false
  end.

(** Modelled from the spec: the sleep-lock of sleeplock.h, which is not
    part of the sources at hand ("a mutex that may block the caller",
    with acquire, release and holding?).  [pid] is the process that
    holds it. *)
Record sleeplock : Type := { locked : bool; pid : Z }.

Definition BSIZE : nat := 1024.

(** Modelled from the spec: struct buf of buf.h, which is not part of the
    sources at hand; its fields are those the spec lists for a buffer and
    those bio.c reads and writes. *)
Record buf : Type := {
  valid : Z;
  disk : Z;
  dev : Z;
  blockno : Z;
  lock : sleeplock;
  refcnt : Z;
  prev : ptr;
  next : ptr;
  data : list Z
}.

Definition set_valid (v : Z) (b : buf) : buf :=
  {| valid := v; disk := disk b; dev := dev b; blockno := blockno b;
     lock := lock b; refcnt := refcnt b; prev := prev b; next := next b;
     data := data b |}.

Definition set_dev (v : Z) (b : buf) : buf :=
  {| valid := valid b; disk := disk b; dev := v; blockno := blockno b;
     lock := lock b; refcnt := refcnt b; prev := prev b; next := next b;
     data := data b |}.

Definition set_blockno (v : Z) (b : buf) : buf :=
  {| valid := valid b; disk := disk b; dev := dev b; blockno := v;
     lock := lock b; refcnt := refcnt b; prev := prev b; next := next b;
     data := data b |}.

Definition set_lock (v : sleeplock) (b : buf) : buf :=
  {| valid := valid b; disk := disk b; dev := dev b; blockno := blockno b;
     lock := v; refcnt := refcnt b; prev := prev b; next := next b;
     data := data b |}.

Definition set_refcnt (v : Z) (b : buf) : buf :=
  {| valid := valid b; disk := disk b; dev := dev b; blockno := blockno b;
     lock := lock b; refcnt := v; prev := prev b; next := next b;
     data := data b |}.

Definition set_prev (v : ptr) (b : buf) : buf :=
  {| valid := valid b; disk := disk b; dev := dev b; blockno := blockno b;
     lock := lock b; refcnt := refcnt b; prev := v; next := next b;
     data := data b |}.

Definition set_next (v : ptr) (b : buf) : buf :=
  {| valid := valid b; disk := disk b; dev := dev b; blockno := blockno b;
     lock := lock b; refcnt := refcnt b; prev := prev b; next := v;
     data := data b |}.

Definition set_data (v : list Z) (b : buf) : buf :=
  {| valid := valid b; disk := disk b; dev := dev b; blockno := blockno b;
     lock := lock b; refcnt := refcnt b; prev := prev b; next := next b;
     data := v |}.

(** A call of virtio_disk_rw(b, write), with the block it was for. *)
Record disk_op : Type := { op_write : bool; op_dev : Z; op_blockno : Z }.

(** The buffer cache, the disk behind it and the disk operations so far
    (latest first).  Memory is a function of the pointer: the cells at
    [NULL] and at [Buf i] for [i] beyond NBUF are there, and the code
    never comes by them once binit has run. *)
Record state : Type := {
  mem : ptr -> buf;            (* bcache.buf[] and bcache.bucket[] *)
  bucket_lock : nat -> bool;   (* bcache.bucket_lock[], held or not *)
  blocks : Z -> Z -> list Z;   (* the disk *)
  io : list disk_op
}.

Definition upd (m : ptr -> buf) (p : ptr) (v : buf) : ptr -> buf :=
  fun q => if ptr_eqb q p then v else m q.

Definition B := M state.

(** [*p] *)
Definition load (p : ptr) : B buf := gets (fun s => mem s p).

(** [*p = f( *p )] *)
Definition store (p : ptr) (f : buf -> buf) : B unit :=
  modify (fun s => {| mem := upd (mem s) p (f (mem s p));
                      bucket_lock := bucket_lock s;
                      blocks := blocks s; io := io s |}).

Definition initlock (j : nat) : B unit :=
  modify (fun s => {| mem := mem s;
                      bucket_lock := upd_nat (bucket_lock s) j false;
                      blocks := blocks s; io := io s |}).

(** Modelled from the spec: the spin-lock of spinlock.c, which is not part
    of the sources at hand ("busy-wait").  A lock that is held makes a
    sequential caller spin for ever. *)
Definition acquire (j : nat) : B unit :=
  fun s =>
    if bucket_lock s j then Blocked
    else Done tt {| mem := mem s;
                    bucket_lock := upd_nat (bucket_lock s) j true;
                    blocks := blocks s; io := io s |}.

Definition release (j : nat) : B unit :=
  modify (fun s => {| mem := mem s;
                      bucket_lock := upd_nat (bucket_lock s) j false;
                      blocks := blocks s; io := io s |}).

Definition initsleeplock (p : ptr) : B unit :=
  store p (set_lock {| locked := false; pid := 0 |}).

(** A sleep-lock that is held puts a sequential caller to sleep for
    ever.  [self] is the pid of the calling process. *)
Definition acquiresleep (self : Z) (p : ptr) : B unit :=
  b <- load p ;;
  if locked (lock b) then (fun _ => Blocked)
  else store p (set_lock {| locked := true; pid := self |}).

Definition releasesleep (p : ptr) : B unit :=
  store p (set_lock {| locked := false; pid := 0 |}).

Definition holdingsleep (self : Z) (p : ptr) : B bool :=
  b <- load p ;;
  ret (locked (lock b) && (pid (lock b) =? self)).

(** Modelled from the spec: virtio_disk_rw of the disk driver, which is
    not part of the sources at hand: "synchronous; on write, takes data;
    on read, fills data". *)
Definition virtio_disk_rw (p : ptr) (write : bool) : B unit :=
  b <- load p ;;
  if write
  then modify (fun s =>
         {| mem := mem s; bucket_lock := bucket_lock s;
            blocks := fun d n => if (d =? dev b) && (n =? blockno b)
                                 then data b else blocks s d n;
            io := {| op_write := true; op_dev := dev b;
                     op_blockno := blockno b |} :: io s |})
  else modify (fun s =>
         {| mem := upd (mem s) p (set_data (blocks s (dev b) (blockno b)) b);
            bucket_lock := bucket_lock s;
            blocks := blocks s;
            io := {| op_write := false; op_dev := dev b;
                     op_blockno := blockno b |} :: io s |}).

(** for (b = head->next; b != head; b = b->next) if (test(b)) return b;
    started at [b], with one unit of fuel per node looked at.
    [None]: out of fuel; [Some None]: the loop ran to its end. *)
Fixpoint walk (fuel : nat) (m : ptr -> buf) (head b : ptr)
    (test : buf -> bool) : option (option ptr) :=
  match fuel with
  | O => None
  | S fuel' =>
      if ptr_eqb b head then Some None
      else if test (m b) then Some (Some b)
      else walk fuel' m head (next (m b)) test
  end.

Definition find_in_bucket (fuel : nat) (bucketid : nat)
    (test : buf -> bool) : B (option ptr) :=
  fun s =>
    match walk fuel (mem s) (Bucket bucketid)
            (next (mem s (Bucket bucketid))) test with
    | Some r => Done r s
    | None => Timeout
    end.

Definition is_block (d n : Z) (b : buf) : bool :=
  (dev b =? d) && (blockno b =? n).

Definition is_unused (b : buf) : bool := refcnt b =? 0.

(** b->dev = dev; b->blockno = blockno; b->valid = 0; b->refcnt = 1; *)
Definition take_over (d n : Z) (b : buf) : buf :=
  set_refcnt 1 (set_valid 0 (set_blockno n (set_dev d b))).

(** What bget does with a buffer [b] of refcnt 0 that it has found in
    another bucket, [old_bucketid]. *)
Definition bget_take (self : Z) (d blk : Z) (bucketid old_bucketid : nat)
    (b : ptr) : B ptr :=
  store b (take_over d blk) ;;
  (* Remove buffer from old bucket. *)
  (* b->prev->next = b->next; *)
  bb <- load b ;;
  store (prev bb) (set_next (next bb)) ;;
  (* b->next->prev = b->prev; *)
  bb <- load b ;;
  store (next bb) (set_prev (prev bb)) ;;
  (* Insert new buffer at head of current bucket. *)
  (* b->next = bcache.bucket[bucketid].next; *)
  hd <- load (Bucket bucketid) ;;
  store b (set_next (next hd)) ;;
  (* b->prev = bcache.bucket; *)
  store b (set_prev (Bucket 0)) ;;
  (* bcache.bucket[bucketid].next->prev = b; *)
  hd <- load (Bucket bucketid) ;;
  store (next hd) (set_prev b) ;;
  (* bcache.bucket[bucketid].next = b; *)
  store (Bucket bucketid) (set_next b) ;;
  release old_bucketid ;;
  release bucketid ;;
  acquiresleep self b ;;
  ret b.

(** The loop over the other buckets: [n] iterations are left, the next
    one has loop index [i]. *)
Fixpoint bget_steal (n i : nat) (fuel : nat) (self : Z) (d blk : Z)
    (bucketid : nat) : B ptr :=
  match n with
  | O => panic "bget: no buffers"
  | S n' =>
      let old_bucketid := ((bucketid + i) mod NBUCKET)%nat in
      acquire old_bucketid ;;
      r <- find_in_bucket fuel old_bucketid is_unused ;;
      match r with
      | Some b => bget_take self d blk bucketid old_bucketid b
      | None =>
          release old_bucketid ;;
          bget_steal n' (S i) fuel self d blk bucketid
      end
  end.

Definition bget (fuel : nat) (self : Z) (d blk : Z) : B ptr :=
  let bucketid := dhash d blk in
  acquire bucketid ;;
  r <- find_in_bucket fuel bucketid (is_block d blk) ;;
  match r with
  | Some b =>
      store b (fun bb => set_refcnt ((refcnt bb + 1) mod 2 ^ 32) bb) ;;
      release bucketid ;;
      acquiresleep self b ;;
      ret b
  | None =>
      r <- find_in_bucket fuel bucketid is_unused ;;
      match r with
      | Some b =>
          store b (take_over d blk) ;;
          release bucketid ;;
          acquiresleep self b ;;
          ret b
      | None => bget_steal (NBUCKET - 1) 1 fuel self d blk bucketid
      end
  end.

Definition bread (fuel : nat) (self : Z) (d blk : Z) : B ptr :=
  b <- bget fuel self d blk ;;
  bb <- load b ;;
  (if valid bb =? 0
   then virtio_disk_rw b false ;; store b (set_valid 1)
   else ret tt) ;;
  ret b.

Definition bwrite (self : Z) (b : ptr) : B unit :=
  h <- holdingsleep self b ;;
  if negb h then panic "bwrite"
  else virtio_disk_rw b true.

Definition brelse (self : Z) (b : ptr) : B unit :=
  h <- holdingsleep self b ;;
  if negb h then panic "brelse"
  else
    releasesleep b ;;
    bb <- load b ;;
    let bucketid := dhash (dev bb) (blockno bb) in
    acquire bucketid ;;
    store b (fun bb => set_refcnt ((refcnt bb - 1) mod 2 ^ 32) bb) ;;
    release bucketid.

Definition bpin (b : ptr) : B unit :=
  bb <- load b ;;
  let bucketid := dhash (dev bb) (blockno bb) in
  acquire bucketid ;;
  store b (fun bb => set_refcnt ((refcnt bb + 1) mod 2 ^ 32) bb) ;;
  release bucketid.

Definition bunpin (b : ptr) : B unit :=
  bb <- load b ;;
  let bucketid := dhash (dev bb) (blockno bb) in
  acquire bucketid ;;
  store b (fun bb => set_refcnt ((refcnt bb - 1) mod 2 ^ 32) bb) ;;
  release bucketid.

(** *** Notions used in the statements *)


(** The sleep-lock of [b] is held by process [self]. *)
Definition holds (self : Z) (c : buf) : Prop :=
  locked (lock c) = true /\ pid (lock c) = self.

(** No spinlock of the cache is held: the state between two calls. *)
Definition quiescent (s : state) : Prop :=
  forall j, (j < NBUCKET)%nat -> bucket_lock s j = false.

(** Following [next] from [p], the nodes [l] come by in this order, and
    then [head]. *)
Fixpoint chain (m : ptr -> buf) (head p : ptr) (l : list ptr) : Prop :=
  match l with
  | [] => p = head
  | x :: l' => p = x /\ x <> head /\ chain m head (next (m x)) l'
  end.

(** The list of bucket [j], as the loops of bget walk it, holds the
    buffers [l]. *)
Definition bucket_is (s : state) (j : nat) (l : list nat) : Prop :=
  chain (mem s) (Bucket j) (next (mem s (Bucket j))) (map Buf l).

Section WithLayout.

(** NBUF comes from param.h; where the linker puts bcache.buf, and the
    size of struct buf, decide which bucket binit gives each buffer. *)
Variable NBUF : nat.
Variable bcache_buf : Z.
Variable sizeof_buf : Z.

(** (uint64)&bcache.buf[i] *)
Definition buf_addr (i : nat) : Z :=
  (bcache_buf + Z.of_nat i * sizeof_buf) mod 2 ^ 64.

(** The body of the first loop of binit. *)
Definition binit_bucket (i : nat) : B unit :=
  initlock i ;;
  store (Bucket i) (set_prev (Bucket i)) ;;
  store (Bucket i) (set_next (Bucket i)).

(** The body of its second loop, for b = &bcache.buf[i]. *)
Definition binit_buf (i : nat) : B unit :=
  let b := Buf i in
  let bucketid := HASH (buf_addr i) in
  store b (set_prev (Bucket bucketid)) ;;
  hd <- load (Bucket bucketid) ;;
  store b (set_next (next hd)) ;;
  initsleeplock b ;;
  hd <- load (Bucket bucketid) ;;
  store (next hd) (set_prev b) ;;
  store (Bucket bucketid) (set_next b).

Definition binit : B unit :=
  for_each (seq 0 NBUCKET) binit_bucket ;;
  for_each (seq 0 NBUF) binit_buf.

(** A buffer nobody has used yet: its fields are as .bss has them. *)
Definition pristine (c : buf) : Prop :=
  dev c = 0 /\ blockno c = 0 /\ valid c = 0 /\ refcnt c = 0.

(** Every one of the NBUF buffers is in the list of exactly one bucket,
    once: the lists [Ls j] together are a rearrangement of 0 .. NBUF-1. *)
Definition well_linked (s : state) (Ls : nat -> list nat) : Prop :=
  (forall j, (j < NBUCKET)%nat -> bucket_is s j (Ls j)) /\
  Permutation (flat_map Ls (seq 0 NBUCKET)) (seq 0 NBUF).

Definition conserved (s : state) : Prop := exists Ls, well_linked s Ls.

(** The state of the second loop of binit when buffers 0 .. k-1 are in. *)
Definition linked_upto (k : nat) (s : state) (Ls : nat -> list nat) : Prop :=
  (forall j, (j < NBUCKET)%nat -> bucket_is s j (Ls j)) /\
  Permutation (flat_map Ls (seq 0 NBUCKET)) (seq 0 k) /\
  quiescent s /\
  (forall i, pristine (mem s (Buf i))) /\
  (forall i, (i < k)%nat -> locked (lock (mem s (Buf i))) = false).

End WithLayout.

(** Memory at boot: all of .bss is zero. *)
Definition zero_buf : buf :=
  {| valid := 0; disk := 0; dev := 0; blockno := 0;
     lock := {| locked := false; pid := 0 |}; refcnt := 0;
     prev := NULL; next := NULL; data := repeat 0 BSIZE |}.

Definition boot (dsk : Z -> Z -> list Z) : state :=
  {| mem := fun _ => zero_buf; bucket_lock := fun _ => false;
     blocks := dsk; io := [] |}.


(** The first [n] nodes that following [next] from [p] comes by. *)
Fixpoint nodes (n : nat) (m : ptr -> buf) (p : ptr) : list ptr :=
  match n with
  | O => []
  | S k => p :: nodes k m (next (m p))
  end.

(** Is [x] among the first [n] nodes after the head of some bucket? *)
Definition in_some_bucket (n : nat) (s : state) (x : ptr) : bool :=
  existsb (fun j => existsb (ptr_eqb x)
                      (nodes n (mem s) (next (mem s (Bucket j)))))
          (seq 0 NBUCKET).

(** Reading the result of a run on concrete input. *)
Definition state_of {A} (o : outcome state A) : state :=
  match o with Done _ s => s | _ => boot (fun _ _ => []) end.

Definition answers (o : outcome state ptr) (b : ptr) : bool :=
  match o with Done r _ => ptr_eqb r b | _ => false end.

Definition finishes (o : outcome state unit) : bool :=
  match o with Done _ _ => true | _ => false end.

(** A kernel of the lock lab: thirty buffers of 1120 bytes each, the
    first of them at 0x80018c68; binit then puts buffers 27, 14 and 1 in
    bucket 2, buffers 21 and 8 in bucket 3, buffers 20 and 7 in bucket 1
    and buffers 26, 13 and 0 in bucket 0. *)
Definition lab_NBUF : nat := 30.
Definition lab_bcache_buf : Z := 0x80018c68.
Definition lab_sizeof_buf : Z := 1120.
Definition blank_disk : Z -> Z -> list Z := fun _ _ => repeat 0 BSIZE.

Definition lab_binit : B unit := binit lab_NBUF lab_bcache_buf lab_sizeof_buf.

(** One process, pid 1, reads blocks of device 1 and keeps them. *)
Definition lab_bread (blk : Z) : B ptr := bread 64 1 1 blk.
Definition lab_bget (blk : Z) : B ptr := bget 64 1 1 blk.

Definition fresh : state := state_of (lab_binit (boot blank_disk)).

(** Blocks 1, 14 and 27 of device 1 all hash to bucket 2 and take its
    three buffers. *)
Definition held1 : state := state_of (lab_bread 1 fresh).
Definition held2 : state := state_of (lab_bread 14 held1).
Definition crowded : state := state_of (lab_bread 27 held2).

(** Block 40 hashes to bucket 2 as well: bget takes its buffer from
    bucket 3. *)
Definition stolen : state := state_of (lab_bget 40 crowded).

(** The same request through bread; the buffer is then released, blocks 0
    and 13 take the two buffers of bucket 1, and block 26, which hashes to
    bucket 1 too, takes the released buffer out of bucket 2. *)
Definition stolen_read : state := state_of (lab_bread 40 crowded).
Definition released : state := state_of (brelse 1 (Buf 21) stolen_read).
Definition held3 : state := state_of (lab_bread 0 released).
Definition crowded_again : state := state_of (lab_bread 13 held3).
Definition stolen_twice : state := state_of (lab_bread 26 crowded_again).

End Bio.

(** * Further notions: pages, cells and links *)

Module KallocPages.
Import Kalloc.

(** The [n] page addresses from [p] upwards. *)
Definition pages_from (p : Z) (n : nat) : list Z :=
  map (fun k => p + Z.of_nat k * PGSIZE) (seq 0 n).

(** How many whole pages lie between [p] and [top]. *)
Definition pages_below (p top : Z) : nat := Z.to_nat ((top - p) / PGSIZE).

End KallocPages.

Module BioCells.
Import Bio.

(** [c'] holds what [c] holds; its place in a list may differ. *)
Definition same_contents (c c' : buf) : Prop :=
  dev c' = dev c /\ blockno c' = blockno c /\ valid c' = valid c /\
  refcnt c' = refcnt c /\ lock c' = lock c /\ data c' = data c.

(** No next or prev pointer differs between [s] and [s']. *)
Definition same_links (s s' : state) : Prop :=
  forall q, next (mem s' q) = next (mem s q) /\ prev (mem s' q) = prev (mem s q).

(** The sentinels of the buckets and the first [n] buffers. *)
Definition is_node (n : nat) (p : ptr) : bool :=
  match p with
  | NULL => false
  | Buf i => (i <? n)%nat
  | Bucket j => (j <? NBUCKET)%nat
  end.

(** next and prev lead from nodes to nodes and undo each other. *)
Definition doubly_linked (n : nat) (s : state) : Prop :=
  forall p, is_node n p = true ->
    is_node n (next (mem s p)) = true /\ is_node n (prev (mem s p)) = true /\
    prev (mem s (next (mem s p))) = p /\ next (mem s (prev (mem s p))) = p.

(** The buffers that binit puts in bucket [j] when there are [n] of
    them, the first at address [base] and each [size] bytes long, in the
    order of the list: the latest first. *)
Definition bucket_of (base size : Z) (n : nat) (j : nat) : list nat :=
  rev (filter (fun i => (HASH (buf_addr base size i) =? j)%nat) (seq 0 n)).

(** [chain], decided. *)
Fixpoint chainb (m : ptr -> buf) (head p : ptr) (l : list ptr) : bool :=
  match l with
  | [] => ptr_eqb p head
  | x :: l' =>
      ptr_eqb p x && negb (ptr_eqb x head) && chainb m head (next (m x)) l'
  end.

(** The list of every bucket [j] holds the buffers [Ls j]. *)
Definition listsb (s : state) (Ls : nat -> list nat) : bool :=
  forallb (fun j => chainb (mem s) (Bucket j) (next (mem s (Bucket j)))
                      (map Buf (Ls j)))
          (seq 0 NBUCKET).

(** [doubly_linked], decided. *)
Definition node_okb (n : nat) (s : state) (p : ptr) : bool :=
  is_node n (next (mem s p)) && is_node n (prev (mem s p)) &&
  ptr_eqb (prev (mem s (next (mem s p)))) p &&
  ptr_eqb (next (mem s (prev (mem s p)))) p.

Definition doubly_linkedb (n : nat) (s : state) : bool :=
  forallb (node_okb n s) (map Bucket (seq 0 NBUCKET) ++ map Buf (seq 0 n)).

(** Following [next] from any node of [l] leads to a node of [l], no
    node of [l] is [head] and none passes [test]: a walk that enters [l]
    stays there. *)
Definition loopsb (m : ptr -> buf) (head : ptr) (test : buf -> bool)
    (l : list ptr) : bool :=
  forallb (fun x => negb (ptr_eqb x head) && negb (test (m x)) &&
                    existsb (ptr_eqb (next (m x))) l) l.

(** On the kernel of the lab, fresh from binit: bunpin of a buffer
    nobody uses, and bpin of it afterwards. *)
Definition unpinned : state := state_of (bunpin (Buf 27) fresh).
Definition repinned : state := state_of (bpin (Buf 27) unpinned).

End BioCells.

(** * Facts about the model *)

Lemma upd_nat_same {A} (f : nat -> A) i v : upd_nat f i v i = v.
Proof. unfold upd_nat. now rewrite Nat.eqb_refl. Qed.

Lemma upd_nat_other {A} (f : nat -> A) i j v : j <> i -> upd_nat f i v j = f j.
Proof. unfold upd_nat. intros H. apply Nat.eqb_neq in H. now rewrite H. Qed.

(** ** The page allocator *)

Module KallocProofs.
Import Kalloc.

(** *** Bytes and words *)

Lemma memset_in m dst c n a :
  dst <= a < dst + n -> memset m dst c n a = c mod 256.
Proof.
  intros H. unfold memset.
  destruct (Z.leb_spec dst a); destruct (Z.ltb_spec a (dst + n)); simpl; lia || reflexivity.
Qed.

Lemma memset_out m dst c n a :
  a < dst \/ dst + n <= a -> memset m dst c n a = m a.
Proof.
  intros H. unfold memset.
  destruct (Z.leb_spec dst a); destruct (Z.ltb_spec a (dst + n)); simpl; lia || reflexivity.
Qed.

Lemma store_le_out n : forall m a v x,
  x < a \/ a + Z.of_nat n <= x -> store_le m a n v x = m x.
Proof.
  induction n as [|n IH]; intros m a v x H; cbn [store_le]; [reflexivity|].
  rewrite IH by lia.
  destruct (Z.eqb_spec x a); [lia | reflexivity].
Qed.

Lemma load_le_ext n : forall m m' a,
  (forall x, a <= x < a + Z.of_nat n -> m x = m' x) ->
  load_le m a n = load_le m' a n.
Proof.
  induction n as [|n IH]; intros m m' a H; cbn [load_le]; [reflexivity|].
  rewrite (H a) by lia. rewrite (IH m m' (a + 1)); [reflexivity|].
  intros x Hx. apply H. lia.
Qed.

Lemma load_store_le n : forall m a v,
  load_le (store_le m a n v) a n = v mod 256 ^ Z.of_nat n.
Proof.
  induction n as [|n IH]; intros m a v.
  - simpl. now rewrite Z.mod_1_r.
  - cbn [load_le store_le]. rewrite IH, store_le_out by lia.
    rewrite Z.eqb_refl.
    replace (Z.of_nat (S n)) with (1 + Z.of_nat n) by lia.
    rewrite Z.pow_add_r, Z.pow_1_r by lia.
    rewrite Z.rem_mul_r by lia. reflexivity.
Qed.

Lemma load_store_word m a v :
  0 <= v < 2 ^ 64 -> load_le (store_le m a 8 v) a 8 = v.
Proof.
  intros H. rewrite load_store_le. apply Z.mod_small. exact H.
Qed.

Lemma load_store_word_other m a v x :
  x + 8 <= a \/ a + 8 <= x -> load_le (store_le m a 8 v) x 8 = load_le m x 8.
Proof.
  intros H. apply load_le_ext. intros y Hy. apply store_le_out. lia.
Qed.

Lemma load_memset_other m dst c n x :
  x + 8 <= dst \/ dst + n <= x -> load_le (memset m dst c n) x 8 = load_le m x 8.
Proof.
  intros H. apply load_le_ext. intros y Hy. apply memset_out. lia.
Qed.

(** Two different page-aligned addresses are a page apart. *)
Lemma pages_apart x y :
  x mod PGSIZE = 0 -> y mod PGSIZE = 0 -> x <> y ->
  x + PGSIZE <= y \/ y + PGSIZE <= x.
Proof.
  unfold PGSIZE. intros Hx Hy Hne.
  pose proof (Z_div_mod_eq_full x 4096). pose proof (Z_div_mod_eq_full y 4096). lia.
Qed.

(** *** Lists in memory *)

Lemma flist_frame m m' l : forall hd,
  flist m hd l ->
  (forall x, In x l -> load_le m' x 8 = load_le m x 8) ->
  flist m' hd l.
Proof.
  induction l as [|x l IH]; intros hd H Hm; simpl in *; [exact H|].
  destruct H as (-> & Hx & H). repeat split; try assumption.
  rewrite Hm by now left. apply IH; [exact H|]. intros y Hy. apply Hm. now right.
Qed.

Lemma flist_reach m l : forall hd p,
  flist m hd l -> (reach m hd p <-> In p l).
Proof.
  induction l as [|x l IH]; intros hd p H; simpl in H.
  - subst hd. split; [|intros []]. intros R. inversion R; congruence.
  - destruct H as (-> & Hx & H). split.
    + intros R. inversion R; subst.
      * now left.
      * right. now apply (IH _ _ H).
    + intros [->|Hin].
      * now constructor.
      * apply reach_tail; [exact Hx|]. now apply (IH _ _ H).
Qed.

Lemma flist_head m hd l : flist m hd l -> hd = 0 \/ In hd l.
Proof. destruct l; simpl; [now left|]. intros (-> & _). right. now left. Qed.

(** *** The operations *)

Section WithLayout.

Variable NCPU : nat.
Variable END : Z.
Variable PHYSTOP : Z.

Local Abbreviation kfree := (kfree END PHYSTOP).
Local Abbreviation kalloc := (kalloc NCPU).
Local Abbreviation kalloc_steal := (kalloc_steal NCPU).
Local Abbreviation frame_ok := (frame_ok END PHYSTOP).
Local Abbreviation quiescent := (quiescent NCPU).
Local Abbreviation heads_ok := (heads_ok NCPU END PHYSTOP).
Local Abbreviation pools_ok := (pools_ok NCPU END PHYSTOP).
Local Abbreviation probe_order := (probe_order NCPU).
Local Abbreviation on_freelist := (on_freelist NCPU).

Ltac run :=
  unfold acquire, release, get_freelist, set_freelist, do_memset, get_next,
    set_next, bind, ret, panic, gets, modify; cbn [ram kmem lock freelist].

Lemma pool_eta (p : pool) : {| lock := lock p; freelist := freelist p |} = p.
Proof. now destruct p. Qed.

Lemma kfree_guard pa :
  negb (pa mod PGSIZE =? 0) || (pa <? END) || (pa >=? PHYSTOP) = false <->
  frame_ok pa.
Proof.
  unfold Kalloc.frame_ok.
  rewrite !orb_false_iff, negb_false_iff, Z.eqb_eq, Z.ltb_ge, Z.geb_leb, Z.leb_gt.
  tauto.
Qed.

Lemma kfree_done nc pa s :
  frame_ok pa -> lock (kmem s nc) = false ->
  exists s', kfree nc pa s = Done tt s' /\
    ram s' = store_le (memset (ram s) pa 1 PGSIZE) pa 8 (freelist (kmem s nc)) /\
    kmem s' nc = {| lock := false; freelist := pa |} /\
    forall j, j <> nc -> kmem s' j = kmem s j.
Proof.
  intros Hok Hl. unfold Kalloc.kfree.
  apply kfree_guard in Hok. rewrite Hok. run. rewrite Hl.
  eexists. split; [reflexivity|]. cbn [ram kmem].
  rewrite !upd_nat_same. cbn [freelist].
  split; [reflexivity|]. split; [reflexivity|].
  intros j Hj. now rewrite !upd_nat_other.
Qed.

Lemma find_ext {A} (f g : A -> bool) l :
  (forall x, f x = g x) -> find f l = find g l.
Proof.
  intros H. induction l as [|x l IH]; simpl; [reflexivity|].
  now rewrite H, IH.
Qed.

Lemma kalloc_steal_spec nc : forall n i s,
  NCPU <> 0%nat -> quiescent s ->
  match find (nonempty s) (map (fun j => ((nc + j) mod NCPU)%nat) (seq i n)) with
  | Some k => exists s', kalloc_steal n i nc s = Done (freelist (kmem s k)) s' /\
                         popped s s' k
  | None => exists s', kalloc_steal n i nc s = Done 0 s' /\ same s s'
  end.
Proof.
  induction n as [|n IH]; intros i s Hn Hq.
  - simpl. exists s. split; [reflexivity|]. now split.
  - cbn [seq map find Kalloc.kalloc_steal].
    set (k := ((nc + i) mod NCPU)%nat).
    assert (Hk : (k < NCPU)%nat) by (apply Nat.mod_upper_bound; exact Hn).
    run. rewrite (Hq k Hk). cbn [ram kmem]. rewrite upd_nat_same. cbn [freelist lock].
    unfold nonempty at 1.
    destruct (negb (freelist (kmem s k) =? 0)) eqn:Hr.
    + cbn [ram kmem]. eexists. split; [reflexivity|].
      unfold popped. cbn [ram kmem]. split; [reflexivity|]. split.
      * now rewrite !upd_nat_same.
      * intros j Hj. now rewrite !upd_nat_other.
    + cbn [ram kmem].
      match goal with |- context [kalloc_steal n (S i) nc ?t] => set (s1 := t) end.
      assert (Hs : same s s1).
      { subst s1. split; [reflexivity|]. intros j. cbn [kmem].
        destruct (Nat.eq_dec j k) as [->|Hj].
        - rewrite !upd_nat_same. cbn [freelist]. rewrite <- (Hq k Hk). apply pool_eta.
        - now rewrite !upd_nat_other. }
      destruct Hs as [Hram Hkm].
      assert (Hq1 : quiescent s1).
      { intros j Hj. rewrite Hkm. now apply Hq. }
      specialize (IH (S i) s1 Hn Hq1).
      rewrite (find_ext (nonempty s1) (nonempty s)) in IH
        by (intros x; unfold nonempty; now rewrite Hkm).
      destruct (find (nonempty s) _) as [k'|].
      * destruct IH as (s' & E & P1 & P2 & P3). exists s'. rewrite Hkm in E.
        split; [exact E|]. rewrite Hram, Hkm in P2.
        split; [congruence|]. split; [exact P2|].
        intros j Hj. rewrite P3 by exact Hj. apply Hkm.
      * destruct IH as (s' & E & P1 & P2). exists s'. split; [exact E|].
        split; [congruence|]. intros j. rewrite P2. apply Hkm.
Qed.

Lemma probe_order_cons nc :
  (nc < NCPU)%nat ->
  probe_order nc = nc :: map (fun j => ((nc + j) mod NCPU)%nat) (seq 1 (NCPU - 1)).
Proof.
  intros H. unfold Kalloc.probe_order.
  destruct NCPU as [|n]; [lia|]. cbn [seq map].
  rewrite Nat.add_0_r, Nat.mod_small by lia.
  now replace (S n - 1)%nat with n by lia.
Qed.

(** What kalloc does, in every quiescent state. *)
Lemma kalloc_spec nc s :
  (nc < NCPU)%nat -> quiescent s ->
  match find (nonempty s) (probe_order nc) with
  | Some k =>
      let r := freelist (kmem s k) in
      exists s', kalloc nc s = Done r s' /\ r <> 0 /\
        ram s' = memset (ram s) r 5 PGSIZE /\
        kmem s' k = {| lock := false; freelist := load_le (ram s) r 8 |} /\
        forall j, j <> k -> kmem s' j = kmem s j
  | None => exists s', kalloc nc s = Done 0 s' /\ same s s'
  end.
Proof.
  intros Hnc Hq. rewrite probe_order_cons by exact Hnc. cbn [find].
  unfold Kalloc.kalloc. run. rewrite (Hq nc Hnc). cbn [ram kmem].
  rewrite upd_nat_same. cbn [freelist lock]. unfold nonempty at 1.
  destruct (negb (freelist (kmem s nc) =? 0)) eqn:Hr.
  - cbn [ram kmem]. rewrite Hr. cbn [ram kmem].
    eexists. split; [reflexivity|]. cbn [ram kmem].
    split. { apply negb_true_iff in Hr. now apply Z.eqb_neq in Hr. }
    split; [reflexivity|]. split.
    + now rewrite !upd_nat_same.
    + intros j Hj. now rewrite !upd_nat_other.
  - cbn [ram kmem].
    match goal with |- context [kalloc_steal _ 1%nat nc ?t] => set (s1 := t) end.
    assert (Hs : same s s1).
    { subst s1. split; [reflexivity|]. intros j. cbn [kmem].
      destruct (Nat.eq_dec j nc) as [->|Hj].
      - rewrite !upd_nat_same. cbn [freelist]. rewrite <- (Hq nc Hnc). apply pool_eta.
      - now rewrite !upd_nat_other. }
    destruct Hs as [Hram Hkm].
    assert (Hq1 : quiescent s1) by (intros j Hj; rewrite Hkm; now apply Hq).
    assert (Hn : NCPU <> 0%nat) by lia.
    pose proof (kalloc_steal_spec nc (NCPU - 1) 1 s1 Hn Hq1) as H.
    rewrite (find_ext (nonempty s1) (nonempty s)) in H
      by (intros x; unfold nonempty; now rewrite Hkm).
    destruct (find (nonempty s) _) as [k|] eqn:Hf.
    + destruct H as (s' & E & P1 & P2 & P3). rewrite E.
      apply find_some in Hf. destruct Hf as [_ Hne]. unfold nonempty in Hne.
      rewrite Hkm. rewrite Hne. cbn [ram kmem].
      eexists. split; [reflexivity|]. cbn [ram kmem].
      split. { apply negb_true_iff in Hne. now apply Z.eqb_neq in Hne. }
      split; [congruence|]. split.
      * rewrite P2, Hram, Hkm. reflexivity.
      * intros j Hj. rewrite P3 by exact Hj. apply Hkm.
    + destruct H as (s' & E & P1 & P2). rewrite E. cbn.
      exists s'. split; [reflexivity|]. split; [congruence|].
      intros j. rewrite P2. apply Hkm.
Qed.

Lemma find_map_seq {p : nat -> bool} {f : nat -> nat} : forall n a,
  match find p (map f (seq a n)) with
  | Some k => exists i, (a <= i < a + n)%nat /\ k = f i /\ p (f i) = true /\
                        forall j, (a <= j < i)%nat -> p (f j) = false
  | None => forall i, (a <= i < a + n)%nat -> p (f i) = false
  end.
Proof.
  induction n as [|n IH]; intros a; cbn [seq map find].
  - intros i Hi. lia.
  - destruct (p (f a)) eqn:Hp.
    + exists a. repeat split; try lia; try assumption.
    + specialize (IH (S a)). destruct (find p _) as [k|].
      * destruct IH as (i & Hi & -> & Hpi & Hlt). exists i.
        repeat split; try lia; try assumption.
        intros j Hj. destruct (Nat.eq_dec j a) as [->|]; [exact Hp|]. apply Hlt. lia.
      * intros i Hi. destruct (Nat.eq_dec i a) as [->|]; [exact Hp|]. apply IH. lia.
Qed.

Lemma probe_covers nc k :
  (k < NCPU)%nat -> exists i, (i < NCPU)%nat /\ ((nc + i) mod NCPU)%nat = k.
Proof.
  intros Hk. exists ((k + (NCPU - nc mod NCPU)) mod NCPU)%nat.
  assert (Hn : NCPU <> 0%nat) by lia.
  split; [now apply Nat.mod_upper_bound|].
  rewrite Nat.Div0.add_mod_idemp_r.
  rewrite <- Nat.Div0.add_mod_idemp_l.
  pose proof (Nat.mod_upper_bound nc NCPU Hn) as Hlt.
  replace (nc mod NCPU + (k + (NCPU - nc mod NCPU)))%nat with (k + 1 * NCPU)%nat by lia.
  rewrite Nat.Div0.mod_add. now apply Nat.mod_small.
Qed.

Lemma probe_order_bound nc k :
  NCPU <> 0%nat -> In k (probe_order nc) -> (k < NCPU)%nat.
Proof.
  intros Hn Hin. unfold Kalloc.probe_order in Hin. apply in_map_iff in Hin.
  destruct Hin as (i & <- & _). now apply Nat.mod_upper_bound.
Qed.

(** C4. In a state in which no lock is held and the head of every pool
    that is not empty is a frame in [end, PHYSTOP), kalloc answers null
    exactly when all [NCPU] pools are empty; otherwise it answers the head
    of the first non-empty pool in the order nc, nc+1, ..., nc+NCPU-1
    (mod NCPU), that head is a frame, and every byte of that page is 5
    when it returns. *)
Theorem kalloc_first_nonempty_pool nc s :
  (nc < NCPU)%nat -> quiescent s -> heads_ok s ->
  exists r s', kalloc nc s = Done r s' /\
    (r = 0 <-> forall k, (k < NCPU)%nat -> freelist (kmem s k) = 0) /\
    (r <> 0 ->
       (exists i, (i < NCPU)%nat /\
          r = freelist (kmem s ((nc + i) mod NCPU)%nat) /\
          forall j, (j < i)%nat -> freelist (kmem s ((nc + j) mod NCPU)%nat) = 0) /\
       frame_ok r /\
       forall a, r <= a < r + PGSIZE -> ram s' a = 5).
Proof.
  intros Hnc Hq Hheads. pose proof (kalloc_spec nc s Hnc Hq) as H.
  pose proof (@find_map_seq (nonempty s) (fun i => ((nc + i) mod NCPU)%nat) NCPU 0) as Hf.
  fold (probe_order nc) in Hf.
  destruct (find (nonempty s) (probe_order nc)) as [k|].
  - cbv zeta in H. destruct H as (s' & E & Hr & Hram & _).
    destruct Hf as (i & Hi & -> & Hne & Hlt).
    eexists. exists s'. split; [exact E|]. split.
    + split; [intros H0; contradiction|].
      intros Hall. exfalso. apply Hr. apply Hall. apply Nat.mod_upper_bound. lia.
    + intros _. split; [|split].
      * exists i. split; [lia|]. split; [reflexivity|].
        intros j Hj. specialize (Hlt j ltac:(lia)). unfold nonempty in Hlt.
        apply negb_false_iff in Hlt. now apply Z.eqb_eq in Hlt.
      * apply Hheads; [apply Nat.mod_upper_bound; lia|exact Hr].
      * intros a Ha. rewrite Hram. rewrite memset_in by exact Ha. reflexivity.
  - destruct H as (s' & E & _). exists 0, s'. split; [exact E|]. split.
    + split; [|reflexivity]. intros _ k Hk.
      destruct (probe_covers nc k Hk) as (i & Hi & <-).
      specialize (Hf i ltac:(lia)). unfold nonempty in Hf.
      apply negb_false_iff in Hf. now apply Z.eqb_eq in Hf.
    + intros H0. contradiction.
Qed.

(** C6. kfree panics exactly when the address is not a multiple of the
    page size, or lies below [end], or at or above PHYSTOP; on any other
    address it runs to completion. *)
Theorem kfree_panics_iff nc pa s :
  ((exists msg, kfree nc pa s = Panic msg) <->
   (pa mod PGSIZE <> 0 \/ pa < END \/ PHYSTOP <= pa)) /\
  (pa mod PGSIZE = 0 -> END <= pa -> pa < PHYSTOP ->
   lock (kmem s nc) = false -> exists s', kfree nc pa s = Done tt s').
Proof.
  split.
  - split.
    + intros [msg E].
      destruct (Z.eq_dec (pa mod PGSIZE) 0) as [H1|]; [|now left].
      destruct (Z_lt_dec pa END) as [|H2]; [right; now left|].
      destruct (Z_le_dec PHYSTOP pa) as [|H3]; [right; now right|].
      exfalso.
      assert (Hok : frame_ok pa) by (unfold Kalloc.frame_ok; lia).
      destruct (lock (kmem s nc)) eqn:Hl.
      * apply kfree_guard in Hok. unfold Kalloc.kfree in E. rewrite Hok in E.
        revert E. run. rewrite Hl. discriminate.
      * destruct (kfree_done nc pa s Hok Hl) as (s' & E' & _). congruence.
    + intros H. exists "kfree"%string. unfold Kalloc.kfree.
      destruct (negb (pa mod PGSIZE =? 0) || (pa <? END) || (pa >=? PHYSTOP)) eqn:G;
        [reflexivity|].
      apply kfree_guard in G. unfold Kalloc.frame_ok in G. lia.
  - intros H1 H2 H3 Hl.
    assert (Hok : frame_ok pa) by (unfold Kalloc.frame_ok; lia).
    destruct (kfree_done nc pa s Hok Hl) as (s' & E & _). now exists s'.
Qed.


(** *** The pools as lists of good frames *)

Lemma pools_ok_same s s' L : pools_ok s L -> same s s' -> pools_ok s' L.
Proof.
  intros (Hq & Hl & Hrest) [Hram Hkm]. split; [|split; [|exact Hrest]].
  - intros i Hi. rewrite Hkm. now apply Hq.
  - intros i Hi. rewrite Hram, Hkm. now apply Hl.
Qed.

Lemma pools_ok_on_freelist s L p :
  pools_ok s L -> (on_freelist s p <-> exists i, (i < NCPU)%nat /\ In p (L i)).
Proof.
  intros (_ & Hl & _). split; intros (i & Hi & H); exists i; (split; [exact Hi|]).
  - now apply (flist_reach _ _ _ _ (Hl i Hi)).
  - now apply (flist_reach _ _ _ _ (Hl i Hi)).
Qed.

Lemma pools_ok_heads_ok s L : pools_ok s L -> heads_ok s.
Proof.
  intros (_ & Hl & _ & _ & Hfr) k Hk Hne.
  destruct (flist_head _ _ _ (Hl k Hk)) as [H0|Hin]; [contradiction|].
  now apply (Hfr k).
Qed.

Lemma frame_ok_word pa x :
  frame_ok pa -> frame_ok x -> x <> pa -> x + 8 <= pa \/ pa + PGSIZE <= x.
Proof.
  intros (Ha & _) (Hx & _) Hne.
  destruct (pages_apart x pa Hx Ha Hne); unfold PGSIZE in *; lia.
Qed.

Lemma kfree_preserves nc pa s L :
  0 < END -> PHYSTOP <= 2 ^ 64 ->
  pools_ok s L -> (nc < NCPU)%nat -> frame_ok pa -> ~ on_freelist s pa ->
  exists s', kfree nc pa s = Done tt s' /\
             pools_ok s' (upd_nat L nc (pa :: L nc)).
Proof.
  intros Hend Htop Hok Hnc Hpa Hfree.
  pose proof Hok as (Hq & Hl & Hnd & Hdis & Hfr).
  destruct (kfree_done nc pa s Hpa (Hq nc Hnc)) as (s' & E & Hram & Hk & Hoth).
  exists s'. split; [exact E|].
  assert (Hnot : forall i x, (i < NCPU)%nat -> In x (L i) -> x <> pa).
  { intros i x Hi Hin ->. apply Hfree.
    apply (pools_ok_on_freelist s L pa Hok). now exists i. }
  assert (Hload : forall i x, (i < NCPU)%nat -> In x (L i) ->
            load_le (ram s') x 8 = load_le (ram s) x 8).
  { intros i x Hi Hin. rewrite Hram.
    pose proof (frame_ok_word pa x Hpa (Hfr i x Hi Hin) (Hnot i x Hi Hin)) as Hw.
    rewrite load_store_word_other by (unfold PGSIZE in Hw; lia).
    apply load_memset_other. exact Hw. }
  assert (Hhd : 0 <= freelist (kmem s nc) < 2 ^ 64).
  { destruct (flist_head _ _ _ (Hl nc Hnc)) as [->|Hin]; [lia|].
    destruct (Hfr nc _ Hnc Hin) as (_ & ? & ?). lia. }
  split; [|split; [|split; [|split]]].
  - intros i Hi. destruct (Nat.eq_dec i nc) as [->|Hne].
    + now rewrite Hk.
    + rewrite Hoth by exact Hne. now apply Hq.
  - intros i Hi. destruct (Nat.eq_dec i nc) as [->|Hne].
    + rewrite Hk, upd_nat_same. cbn [freelist flist].
      split; [reflexivity|]. split. { destruct Hpa as (_ & ? & _). lia. }
      replace (load_le (ram s') pa 8) with (freelist (kmem s nc)).
      * apply (flist_frame (ram s)); [now apply Hl|].
        intros x Hx. now apply (Hload nc).
      * rewrite Hram. symmetry. now apply load_store_word.
    + rewrite Hoth, upd_nat_other by exact Hne.
      apply (flist_frame (ram s)); [now apply Hl|].
      intros x Hx. now apply (Hload i).
  - intros i Hi. destruct (Nat.eq_dec i nc) as [->|Hne].
    + rewrite upd_nat_same. constructor; [|now apply Hnd].
      intros Hin. now apply (Hnot nc pa Hnc Hin).
    + rewrite upd_nat_other by exact Hne. now apply Hnd.
  - intros i j x Hi Hj.
    destruct (Nat.eq_dec i nc) as [->|Hni]; destruct (Nat.eq_dec j nc) as [->|Hnj];
      rewrite ?upd_nat_same, ?upd_nat_other by assumption; try reflexivity.
    + intros [<-|Hin] Hin'; [exfalso; now apply (Hnot j pa Hj Hin')|].
      now apply (Hdis nc j x).
    + intros Hin [<-|Hin']; [exfalso; now apply (Hnot i pa Hi Hin)|].
      now apply (Hdis i nc x).
    + now apply Hdis.
  - intros i x Hi. destruct (Nat.eq_dec i nc) as [->|Hne].
    + rewrite upd_nat_same. intros [<-|Hin]; [exact Hpa|]. now apply (Hfr nc).
    + rewrite upd_nat_other by exact Hne. now apply Hfr.
Qed.

Lemma kalloc_preserves nc s L :
  pools_ok s L -> (nc < NCPU)%nat ->
  exists r s', kalloc nc s = Done r s' /\
    ((r = 0 /\ pools_ok s' L) \/
     (frame_ok r /\ exists k l, (k < NCPU)%nat /\ L k = r :: l /\
                                pools_ok s' (upd_nat L k l))).
Proof.
  intros Hok Hnc. pose proof Hok as (Hq & Hl & Hnd & Hdis & Hfr).
  pose proof (kalloc_spec nc s Hnc Hq) as H.
  destruct (find (nonempty s) (probe_order nc)) as [k|] eqn:Hf.
  - cbv zeta in H. destruct H as (s' & E & Hr & Hram & Hk & Hoth).
    apply find_some in Hf. destruct Hf as [Hin _].
    assert (Hkn : (k < NCPU)%nat) by (apply (probe_order_bound nc); [lia|exact Hin]).
    pose proof (Hl k Hkn) as Hlk.
    destruct (L k) as [|x l] eqn:HLk; cbn [flist] in Hlk; [contradiction|].
    destruct Hlk as (Hx & Hx0 & Hlk). rewrite Hx in *. clear Hx.
    assert (Hxok : frame_ok x) by (apply (Hfr k); [exact Hkn|rewrite HLk; now left]).
    pose proof (Hnd k Hkn) as Hndk. rewrite HLk in Hndk. inversion Hndk; subst.
    assert (Hload : forall i y, (i < NCPU)%nat -> In y (upd_nat L k l i) ->
              load_le (ram s') y 8 = load_le (ram s) y 8).
    { intros i y Hi Hy. rewrite Hram. apply load_memset_other.
      assert (Hyx : y <> x).
      { intros ->. destruct (Nat.eq_dec i k) as [->|Hne].
        - rewrite upd_nat_same in Hy. contradiction.
        - rewrite upd_nat_other in Hy by exact Hne.
          apply Hne. apply (Hdis i k x Hi Hkn Hy). rewrite HLk. now left. }
      assert (Hyok : frame_ok y).
      { destruct (Nat.eq_dec i k) as [->|Hne].
        - rewrite upd_nat_same in Hy. apply (Hfr k); [exact Hkn|]. rewrite HLk. now right.
        - rewrite upd_nat_other in Hy by exact Hne. now apply (Hfr i). }
      exact (frame_ok_word x y Hxok Hyok Hyx). }
    exists x, s'. split; [exact E|]. right. split; [exact Hxok|].
    exists k, l. split; [exact Hkn|]. split; [exact HLk|].
    split; [|split; [|split; [|split]]].
    + intros i Hi. destruct (Nat.eq_dec i k) as [->|Hne].
      * now rewrite Hk.
      * rewrite Hoth by exact Hne. now apply Hq.
    + intros i Hi.
      apply (flist_frame (ram s) (ram s') (upd_nat L k l i));
        [|intros y Hy; now apply (Hload i)].
      destruct (Nat.eq_dec i k) as [->|Hne].
      * rewrite Hk, upd_nat_same. exact Hlk.
      * rewrite Hoth, upd_nat_other by exact Hne. now apply Hl.
    + intros i Hi. destruct (Nat.eq_dec i k) as [->|Hne].
      * now rewrite upd_nat_same.
      * rewrite upd_nat_other by exact Hne. now apply Hnd.
    + intros i j y Hi Hj Hyi Hyj.
      apply (Hdis i j y Hi Hj).
      * destruct (Nat.eq_dec i k) as [->|Hne].
        -- rewrite upd_nat_same in Hyi. rewrite HLk. now right.
        -- now rewrite upd_nat_other in Hyi.
      * destruct (Nat.eq_dec j k) as [->|Hne].
        -- rewrite upd_nat_same in Hyj. rewrite HLk. now right.
        -- now rewrite upd_nat_other in Hyj.
    + intros i y Hi Hy. destruct (Nat.eq_dec i k) as [->|Hne].
      * rewrite upd_nat_same in Hy. apply (Hfr k); [exact Hkn|]. rewrite HLk. now right.
      * rewrite upd_nat_other in Hy by exact Hne. now apply (Hfr i).
  - destruct H as (s' & E & Hs). exists 0, s'. split; [exact E|]. left.
    split; [reflexivity|]. now apply (pools_ok_same s).
Qed.

(** *** kinit *)

Lemma initlocks_spec l : forall s,
  exists s', for_each l initlock s = Done tt s' /\
    ram s' = ram s /\
    (forall i, freelist (kmem s' i) = freelist (kmem s i)) /\
    (forall i, In i l -> lock (kmem s' i) = false) /\
    (forall i, lock (kmem s i) = false -> lock (kmem s' i) = false).
Proof.
  induction l as [|j l IH]; intros s.
  - exists s. cbn. repeat split; auto. intros i [].
  - cbn [for_each]. unfold bind at 1. unfold initlock at 1, modify. 
    match goal with |- context [for_each l initlock ?t] => set (s1 := t) end.
    destruct (IH s1) as (s' & E & Hram & Hfl & Hin & Hkeep).
    assert (Hfl1 : forall i, freelist (kmem s1 i) = freelist (kmem s i)).
    { intros i. subst s1. cbn [kmem]. destruct (Nat.eq_dec i j) as [->|Hne].
      - now rewrite upd_nat_same.
      - now rewrite upd_nat_other. }
    exists s'. split; [exact E|]. split; [now rewrite Hram|]. split; [|split].
    + intros i. now rewrite Hfl.
    + intros i [<-|Hi]; [|now apply Hin].
      apply Hkeep. subst s1. cbn [kmem]. now rewrite upd_nat_same.
    + intros i Hi. apply Hkeep. subst s1. cbn [kmem].
      destruct (Nat.eq_dec i j) as [->|Hne].
      * now rewrite upd_nat_same.
      * now rewrite upd_nat_other.
Qed.

Lemma PGROUNDUP_spec a :
  0 <= a -> a + PGSIZE <= 2 ^ 64 ->
  PGROUNDUP a mod PGSIZE = 0 /\ a <= PGROUNDUP a < a + PGSIZE.
Proof.
  unfold PGROUNDUP, PGSIZE. intros H0 H1.
  rewrite (Z.mod_small (a + 4096 - 1)) by lia.
  split; [apply Z.mod_mul; lia|].
  pose proof (Z_div_mod_eq_full (a + 4096 - 1) 4096).
  pose proof (Z.mod_pos_bound (a + 4096 - 1) 4096 ltac:(lia)). lia.
Qed.

Lemma freerange_loop_ok nc :
  (nc < NCPU)%nat -> 0 < END -> PHYSTOP + 2 * PGSIZE <= 2 ^ 64 ->
  forall fuel p s L,
    pools_ok s L -> p mod PGSIZE = 0 -> END <= p -> p < PHYSTOP + PGSIZE ->
    (forall i x, (i < NCPU)%nat -> In x (L i) -> x < p) ->
    (exists s' L', freerange_loop END PHYSTOP fuel nc p PHYSTOP s = Done tt s' /\
                   pools_ok s' L') \/
    (freerange_loop END PHYSTOP fuel nc p PHYSTOP s = Timeout /\
     Z.of_nat fuel * PGSIZE <= Z.max 0 (PHYSTOP - p)).
Proof.
  intros Hnc Hend Htop. induction fuel as [|fuel IH]; intros p s L Hok Hal Hlo Hhi Hlt.
  - right. split; [reflexivity|]. cbn. lia.
  - cbn [Kalloc.freerange_loop].
    assert (Hw : (p + PGSIZE) mod 2 ^ 64 = p + PGSIZE).
    { apply Z.mod_small. unfold PGSIZE in *. lia. }
    rewrite Hw. destruct (Z.leb_spec (p + PGSIZE) PHYSTOP) as [Hc|Hc].
    + assert (Hp : frame_ok p) by (unfold Kalloc.frame_ok, PGSIZE in *; lia).
      assert (Hfree : ~ on_freelist s p).
      { intros Hon. apply (pools_ok_on_freelist s L p Hok) in Hon.
        destruct Hon as (i & Hi & Hin). specialize (Hlt i p Hi Hin). lia. }
      destruct (kfree_preserves nc p s L Hend ltac:(unfold PGSIZE in *; lia)
                  Hok Hnc Hp Hfree) as (s1 & E & Hok1).
      unfold bind. rewrite E.
      assert (Hal' : (p + PGSIZE) mod PGSIZE = 0).
      { rewrite <- Z.add_mod_idemp_l, Hal by (unfold PGSIZE; lia). apply Z.mod_same.
        unfold PGSIZE; lia. }
      specialize (IH (p + PGSIZE) s1 _ Hok1 Hal' ltac:(unfold PGSIZE in *; lia)
                     ltac:(unfold PGSIZE in *; lia)).
      destruct IH as [IH|[IH Hf]].
      * intros i x Hi. destruct (Nat.eq_dec i nc) as [->|Hne].
        -- rewrite upd_nat_same. intros [<-|Hin]; [unfold PGSIZE; lia|].
           specialize (Hlt nc x Hi Hin). unfold PGSIZE; lia.
        -- rewrite upd_nat_other by exact Hne. intros Hin.
           specialize (Hlt i x Hi Hin). unfold PGSIZE; lia.
      * now left.
      * right. split; [exact IH|]. unfold PGSIZE in *. lia.
    + left. exists s, L. split; [reflexivity|exact Hok].
Qed.

Lemma kinit_ok fuel cpu0 boot0 :
  (cpu0 < NCPU)%nat -> 0 < END -> END <= PHYSTOP -> PHYSTOP + 2 * PGSIZE <= 2 ^ 64 ->
  (forall i, (i < NCPU)%nat -> freelist (kmem boot0 i) = 0) ->
  (exists s L, kinit NCPU END PHYSTOP fuel cpu0 boot0 = Done tt s /\ pools_ok s L) \/
  (kinit NCPU END PHYSTOP fuel cpu0 boot0 = Timeout /\
   Z.of_nat fuel * PGSIZE <= PHYSTOP - END).
Proof.
  intros Hnc Hend Hle Htop Hz. unfold Kalloc.kinit, bind.
  destruct (initlocks_spec (seq 0 NCPU) boot0) as (s1 & E & Hram & Hfl & Hin & _).
  rewrite E. unfold Kalloc.freerange.
  destruct (PGROUNDUP_spec END ltac:(lia) ltac:(unfold PGSIZE in *; lia)) as (Ha & Hb).
  assert (Hok1 : pools_ok s1 (fun _ => [])).
  { split; [|split; [|split; [|split]]].
    - intros i Hi. apply Hin. apply in_seq. lia.
    - intros i Hi. cbn. rewrite Hfl. now apply Hz.
    - intros i Hi. constructor.
    - intros i j x _ _ [].
    - intros i x _ []. }
  destruct (freerange_loop_ok cpu0 Hnc Hend Htop fuel (PGROUNDUP END) s1 _ Hok1 Ha
              ltac:(lia) ltac:(lia)) as [H|[H Hf]].
  - intros i x _ [].
  - now left.
  - right. split; [exact H|]. lia.
Qed.

Lemma kfree_done_inv nc pa s s' :
  kfree nc pa s = Done tt s' -> frame_ok pa.
Proof.
  intros E. apply kfree_guard.
  destruct (negb (pa mod PGSIZE =? 0) || (pa <? END) || (pa >=? PHYSTOP)) eqn:G;
    [|reflexivity].
  unfold Kalloc.kfree in E. rewrite G in E. discriminate.
Qed.

Lemma reachable_pools_ok boot0 cpu0 s :
  (cpu0 < NCPU)%nat -> 0 < END -> END <= PHYSTOP -> PHYSTOP + 2 * PGSIZE <= 2 ^ 64 ->
  (forall i, (i < NCPU)%nat -> freelist (kmem boot0 i) = 0) ->
  reachable NCPU END PHYSTOP boot0 cpu0 s -> exists L, pools_ok s L.
Proof.
  intros Hc Hend Hle Htop Hz R. induction R as [fuel s E|s nc pa s' R IH Hnc Hfree E|s nc r s' R IH Hnc E].
  - destruct (kinit_ok fuel cpu0 boot0 Hc Hend Hle Htop Hz) as [(s1 & L & E1 & Hok)|[E1 _]];
      [|congruence].
    exists L. congruence.
  - destruct IH as [L Hok].
    destruct (kfree_preserves nc pa s L Hend ltac:(unfold PGSIZE in *; lia) Hok Hnc
                (kfree_done_inv _ _ _ _ E) Hfree) as (s1 & E1 & Hok1).
    eexists. replace s' with s1 by congruence. exact Hok1.
  - destruct IH as [L Hok].
    destruct (kalloc_preserves nc s L Hok Hnc) as (r1 & s1 & E1 & [[_ H]|(_ & k & l & _ & _ & H)]);
      eexists; (replace s' with s1 by congruence); exact H.
Qed.

(** C7, as the code has it.  After kinit, as long as kfree is only given
    frames that are not on a free list already, every node of every free
    list is page-aligned and lies in [end, PHYSTOP), kalloc returns, and
    what it returns is null or such a frame. *)
Theorem freelist_nodes_aligned_in_range boot0 cpu0 :
  (cpu0 < NCPU)%nat -> 0 < END -> END <= PHYSTOP -> PHYSTOP + 2 * PGSIZE <= 2 ^ 64 ->
  (forall i, (i < NCPU)%nat -> freelist (kmem boot0 i) = 0) ->
  (exists fuel s0, kinit NCPU END PHYSTOP fuel cpu0 boot0 = Done tt s0) /\
  forall s, reachable NCPU END PHYSTOP boot0 cpu0 s ->
    (forall p, on_freelist s p -> frame_ok p) /\
    (forall nc, (nc < NCPU)%nat ->
       exists r s', kalloc nc s = Done r s' /\ (r = 0 \/ frame_ok r)).
Proof.
  intros Hc Hend Hle Htop Hz. split.
  - set (fuel := S (Z.to_nat ((PHYSTOP - END) / PGSIZE))).
    destruct (kinit_ok fuel cpu0 boot0 Hc Hend Hle Htop Hz) as [(s0 & L & E & _)|[_ Hf]].
    + now exists fuel, s0.
    + exfalso. subst fuel. unfold PGSIZE in *.
      pose proof (Z_div_mod_eq_full (PHYSTOP - END) 4096).
      pose proof (Z.mod_pos_bound (PHYSTOP - END) 4096 ltac:(lia)).
      assert (0 <= (PHYSTOP - END) / 4096) by (apply Z.div_pos; lia).
      lia.
  - intros s R.
    destruct (reachable_pools_ok boot0 cpu0 s Hc Hend Hle Htop Hz R) as [L Hok].
    split.
    + intros p Hp. apply (pools_ok_on_freelist s L p Hok) in Hp.
      destruct Hp as (i & Hi & Hin). destruct Hok as (_ & _ & _ & _ & Hfr).
      now apply (Hfr i).
    + intros nc Hnc.
      destruct (kalloc_preserves nc s L Hok Hnc) as (r & s' & E & [[Hr _]|[Hr _]]);
        exists r, s'; (split; [exact E|]); [now left|now right].
Qed.

End WithLayout.

(** *** Runs on a small machine *)

(** C7, as stated, fails: after a frame is freed twice it is its own
    successor on the free list of hart 0; kalloc reads the next word of a
    frame before it fills the frame with 5s, so the second of two calls
    that both return the frame leaves the word 0x0505050505050505 as head
    of the list, which is no page address. *)
Lemma double_free_leaves_junk_head :
  finishes (small_kinit boot) = true /\
  answers (small_kalloc 0%nat after_init) top_page = true /\
  finishes (small_kfree 0%nat top_page after_alloc) = true /\
  finishes (small_kfree 0%nat top_page after_free) = true /\
  answers (small_kalloc 0%nat after_free2) top_page = true /\
  answers (small_kalloc 0%nat after_alloc2) top_page = true /\
  freelist (kmem after_alloc3 0%nat) = junk_word /\
  on_freelist small_NCPU after_alloc3 junk_word /\
  junk_word mod PGSIZE <> 0 /\
  ~ frame_ok small_END small_PHYSTOP junk_word.
Proof.
  assert (E : freelist (kmem after_alloc3 0%nat) = junk_word)
    by (vm_compute; reflexivity).
  do 7 (split; [vm_compute; reflexivity|]).
  split; [|split].
  - exists 0%nat. split; [unfold small_NCPU; lia|].
    rewrite E. apply reach_head. discriminate.
  - vm_compute. discriminate.
  - intros (H & _). vm_compute in H. discriminate.
Qed.

Lemma after_init_quiescent : quiescent small_NCPU after_init.
Proof.
  intros i Hi. unfold small_NCPU in Hi.
  do 8 (destruct i as [|i]; [vm_compute; reflexivity|]). lia.
Qed.

Lemma after_init_heads_ok : heads_ok small_NCPU small_END small_PHYSTOP after_init.
Proof.
  intros k Hk Hne. unfold small_NCPU in Hk.
  destruct k as [|k].
  - assert (E : freelist (kmem after_init 0%nat) = top_page) by (vm_compute; reflexivity).
    rewrite E. split; [reflexivity|]. unfold small_END, small_PHYSTOP, top_page. lia.
  - exfalso. apply Hne.
    do 7 (destruct k as [|k]; [vm_compute; reflexivity|]). lia.
Qed.

Lemma kalloc_first_nonempty_pool_witness :
  exists r s', small_kalloc 0%nat after_init = Done r s' /\
    (r = 0 <-> forall k, (k < small_NCPU)%nat -> freelist (kmem after_init k) = 0) /\
    (r <> 0 ->
       (exists i, (i < small_NCPU)%nat /\
          r = freelist (kmem after_init ((0 + i) mod small_NCPU)%nat) /\
          forall j, (j < i)%nat ->
            freelist (kmem after_init ((0 + j) mod small_NCPU)%nat) = 0) /\
       frame_ok small_END small_PHYSTOP r /\
       forall a, r <= a < r + PGSIZE -> ram s' a = 5).
Proof.
  apply (kalloc_first_nonempty_pool small_NCPU small_END small_PHYSTOP 0%nat after_init).
  - unfold small_NCPU. lia.
  - exact after_init_quiescent.
  - exact after_init_heads_ok.
Defined.

Lemma freelist_nodes_aligned_in_range_witness :
  (exists fuel s0, kinit small_NCPU small_END small_PHYSTOP fuel 0%nat boot = Done tt s0) /\
  forall s, reachable small_NCPU small_END small_PHYSTOP boot 0%nat s ->
    (forall p, on_freelist small_NCPU s p -> frame_ok small_END small_PHYSTOP p) /\
    (forall nc, (nc < small_NCPU)%nat ->
       exists r s', kalloc small_NCPU nc s = Done r s' /\
                    (r = 0 \/ frame_ok small_END small_PHYSTOP r)).
Proof.
  apply (freelist_nodes_aligned_in_range small_NCPU small_END small_PHYSTOP boot 0%nat).
  - unfold small_NCPU. lia.
  - unfold small_END. lia.
  - unfold small_END, small_PHYSTOP. lia.
  - unfold small_PHYSTOP, PGSIZE. lia.
  - intros i Hi. reflexivity.
Defined.


End KallocProofs.

(** ** The buffer cache *)

Module BioProofs.
Import Bio.

(** *** Pointers and cells *)

Lemma ptr_eqb_eq p q : ptr_eqb p q = true <-> p = q.
Proof.
  destruct p, q; cbn; try (split; congruence);
    rewrite Nat.eqb_eq; split; congruence.
Qed.

Lemma ptr_eqb_refl p : ptr_eqb p p = true.
Proof. now apply ptr_eqb_eq. Qed.

Lemma ptr_eqb_neq p q : ptr_eqb p q = false <-> p <> q.
Proof.
  rewrite <- ptr_eqb_eq. destruct (ptr_eqb p q); split; congruence.
Qed.

Lemma upd_same m p v : upd m p v p = v.
Proof. unfold upd. now rewrite ptr_eqb_refl. Qed.

Lemma upd_other m p q v : q <> p -> upd m p v q = m q.
Proof. unfold upd. intros H. apply ptr_eqb_neq in H. now rewrite H. Qed.

(** *** Walks *)

Lemma walk_ext fuel : forall m m' head p test,
  (forall q, next (m' q) = next (m q)) ->
  (forall q, test (m' q) = test (m q)) ->
  walk fuel m' head p test = walk fuel m head p test.
Proof.
  induction fuel as [|fuel IH]; intros m m' head p test Hn Ht; cbn; [reflexivity|].
  rewrite Ht, Hn. destruct (ptr_eqb p head); [reflexivity|].
  destruct (test (m p)); [reflexivity|]. now apply IH.
Qed.

Lemma walk_found fuel : forall m head p test b,
  walk fuel m head p test = Some (Some b) -> b <> head /\ test (m b) = true.
Proof.
  induction fuel as [|fuel IH]; intros m head p test b; cbn; [discriminate|].
  destruct (ptr_eqb p head) eqn:E; [discriminate|].
  destruct (test (m p)) eqn:T.
  - intros H. injection H as <-. split; [now apply ptr_eqb_neq|exact T].
  - apply IH.
Qed.

(** After a walk for [test1] has failed and a walk for [test2] has found
    [b], a cell [b] that is changed to pass [test1], its link kept, is
    what the walk for [test1] finds. *)
Lemma walk_claimed fuel : forall m head p test1 test2 b c,
  walk fuel m head p test1 = Some None ->
  walk fuel m head p test2 = Some (Some b) ->
  next c = next (m b) -> test1 c = true ->
  walk fuel (upd m b c) head p test1 = Some (Some b).
Proof.
  induction fuel as [|fuel IH]; intros m head p test1 test2 b c; cbn; [discriminate|].
  destruct (ptr_eqb p head) eqn:E; [discriminate|].
  destruct (test1 (m p)) eqn:T1; [discriminate|].
  destruct (test2 (m p)) eqn:T2.
  - intros _ H Hn Hc. injection H as <-. rewrite upd_same, Hc. reflexivity.
  - intros H1 H2 Hn Hc.
    destruct (ptr_eqb p b) eqn:Epb.
    + apply ptr_eqb_eq in Epb. subst p. rewrite upd_same, Hc. reflexivity.
    + apply ptr_eqb_neq in Epb. rewrite upd_other by exact Epb. rewrite T1.
      now apply (IH m head (next (m p)) test1 test2 b c).
Qed.

(** *** bget *)

Ltac run :=
  unfold acquiresleep, releasesleep, holdingsleep, initsleeplock,
    virtio_disk_rw, find_in_bucket, acquire, release, initlock, store, load,
    bind, ret, panic, gets, modify;
  cbn [mem bucket_lock blocks io].

Lemma is_block_true d n c : is_block d n c = true <-> dev c = d /\ blockno c = n.
Proof. unfold is_block. now rewrite andb_true_iff, !Z.eqb_eq. Qed.

(** A store of a value that agrees with the old one on a field. *)
Lemma upd_agrees {A} (field : buf -> A) m p v q :
  field v = field (m p) -> field (upd m p v q) = field (m q).
Proof.
  intros H. unfold upd. destruct (ptr_eqb q p) eqn:E; [|reflexivity].
  apply ptr_eqb_eq in E. now subst q.
Qed.

Ltac keeps field := repeat (rewrite (upd_agrees field) by reflexivity).

Lemma lock_restored (bl : nat -> bool) h j :
  bl h = false -> upd_nat (upd_nat bl h true) h false j = bl j.
Proof.
  intros H. destruct (Nat.eq_dec j h) as [->|Hne].
  - now rewrite upd_nat_same.
  - now rewrite !upd_nat_other.
Qed.

(** Running the code one statement at a time. *)

Lemma bind_ret {A C} (a : A) (k : A -> B C) s : bind (ret a) k s = k a s.
Proof. reflexivity. Qed.

Lemma bind_load {C} p (k : buf -> B C) s : bind (load p) k s = k (mem s p) s.
Proof. reflexivity. Qed.

Lemma bind_store {C} p f (k : unit -> B C) s :
  bind (store p f) k s =
  k tt {| mem := upd (mem s) p (f (mem s p)); bucket_lock := bucket_lock s;
          blocks := blocks s; io := io s |}.
Proof. reflexivity. Qed.

Lemma bind_release {C} j (k : unit -> B C) s :
  bind (release j) k s =
  k tt {| mem := mem s; bucket_lock := upd_nat (bucket_lock s) j false;
          blocks := blocks s; io := io s |}.
Proof. reflexivity. Qed.

Lemma bind_acquire {C} j (k : unit -> B C) s :
  bind (acquire j) k s =
  if bucket_lock s j then Blocked
  else k tt {| mem := mem s; bucket_lock := upd_nat (bucket_lock s) j true;
               blocks := blocks s; io := io s |}.
Proof. unfold bind, acquire. now destruct (bucket_lock s j). Qed.

Lemma bind_acquiresleep {C} self p (k : unit -> B C) s :
  bind (acquiresleep self p) k s =
  if locked (lock (mem s p)) then Blocked
  else k tt {| mem := upd (mem s) p
                        (set_lock {| locked := true; pid := self |} (mem s p));
               bucket_lock := bucket_lock s; blocks := blocks s; io := io s |}.
Proof.
  unfold acquiresleep, bind, load, gets, store, modify.
  now destruct (locked (lock (mem s p))).
Qed.

Lemma bind_find_in_bucket {C} fuel j test (k : option ptr -> B C) s :
  bind (find_in_bucket fuel j test) k s =
  match walk fuel (mem s) (Bucket j) (next (mem s (Bucket j))) test with
  | Some r => k r s
  | None => Timeout
  end.
Proof.
  unfold bind, find_in_bucket. now destruct (walk fuel (mem s) _ _ test).
Qed.

Ltac exec :=
  first [ rewrite bind_store | rewrite bind_load | rewrite bind_release
        | rewrite bind_ret ];
  cbv beta.

Ltac name_state x Hx :=
  match goal with
  | |- context [{| mem := ?m; bucket_lock := ?l; blocks := ?bk; io := ?i |}] =>
      remember {| mem := m; bucket_lock := l; blocks := bk; io := i |} as x eqn:Hx
  end.

(** The steal, once a buffer has been found. *)
Lemma bget_take_run self d blk h old b s :
  if locked (lock (mem s b)) then bget_take self d blk h old b s = Blocked
  else exists s', bget_take self d blk h old b s = Done b s' /\
    (b <> Bucket h -> next (mem s' (Bucket h)) = b) /\
    lock (mem s' b) = {| locked := true; pid := self |} /\
    dev (mem s' b) = d /\ blockno (mem s' b) = blk /\
    valid (mem s' b) = 0 /\
    bucket_lock s' = upd_nat (upd_nat (bucket_lock s) old false) h false /\
    io s' = io s /\ blocks s' = blocks s.
Proof.
  unfold bget_take.
  exec. name_state s1 H1. exec. exec. name_state s2 H2. exec. exec.
  name_state s3 H3. exec. exec. name_state s4 H4. exec. name_state s5 H5.
  exec. exec. name_state s6 H6. exec. name_state s7 H7. exec.
  name_state s8 H8. exec. name_state s9 H9.
  rewrite bind_acquiresleep.
  assert (M9 : mem s9 = mem s7) by (rewrite H9, H8; reflexivity).
  assert (F1 : dev (mem s1 b) = d /\ blockno (mem s1 b) = blk /\
               valid (mem s1 b) = 0 /\ lock (mem s1 b) = lock (mem s b)).
  { rewrite H1. cbn [mem]. now rewrite upd_same. }
  assert (F7 : dev (mem s7 b) = d /\ blockno (mem s7 b) = blk /\
               valid (mem s7 b) = 0 /\ lock (mem s7 b) = lock (mem s b) /\
               next (mem s7 (Bucket h)) = b).
  { rewrite H7. cbn [mem]. rewrite upd_same.
    rewrite !(upd_agrees dev), !(upd_agrees blockno), !(upd_agrees valid),
      !(upd_agrees lock) by reflexivity.
    rewrite H6. cbn [mem].
    rewrite !(upd_agrees dev), !(upd_agrees blockno), !(upd_agrees valid),
      !(upd_agrees lock) by reflexivity.
    rewrite H5. cbn [mem].
    rewrite !(upd_agrees dev), !(upd_agrees blockno), !(upd_agrees valid),
      !(upd_agrees lock) by reflexivity.
    rewrite H4. cbn [mem].
    rewrite !(upd_agrees dev), !(upd_agrees blockno), !(upd_agrees valid),
      !(upd_agrees lock) by reflexivity.
    rewrite H3. cbn [mem].
    rewrite !(upd_agrees dev), !(upd_agrees blockno), !(upd_agrees valid),
      !(upd_agrees lock) by reflexivity.
    rewrite H2. cbn [mem].
    rewrite !(upd_agrees dev), !(upd_agrees blockno), !(upd_agrees valid),
      !(upd_agrees lock) by reflexivity.
    repeat split; apply F1. }
  rewrite M9. destruct F7 as (D7 & B7 & V7 & L7 & N7). rewrite L7.
  destruct (locked (lock (mem s b))); [reflexivity|].
  cbv beta. unfold ret. eexists. split; [reflexivity|].
  cbn [mem bucket_lock blocks io].
  split.
  { intros Hbh. rewrite upd_other by congruence. exact N7. }
  rewrite upd_same. cbn [lock dev blockno valid set_lock].
  split; [reflexivity|].
  split; [exact D7|]. split; [exact B7|]. split; [exact V7|].
  split; [|split].
  - rewrite H9; cbn [bucket_lock]. rewrite H8; cbn [bucket_lock].
    rewrite H7; cbn [bucket_lock]. rewrite H6; cbn [bucket_lock].
    rewrite H5; cbn [bucket_lock]. rewrite H4; cbn [bucket_lock].
    rewrite H3; cbn [bucket_lock]. rewrite H2; cbn [bucket_lock].
    rewrite H1; cbn [bucket_lock]. reflexivity.
  - rewrite H9; cbn [io]. rewrite H8; cbn [io]. rewrite H7; cbn [io].
    rewrite H6; cbn [io]. rewrite H5; cbn [io]. rewrite H4; cbn [io].
    rewrite H3; cbn [io]. rewrite H2; cbn [io]. rewrite H1; cbn [io]. reflexivity.
  - rewrite H9; cbn [blocks]. rewrite H8; cbn [blocks]. rewrite H7; cbn [blocks].
    rewrite H6; cbn [blocks]. rewrite H5; cbn [blocks]. rewrite H4; cbn [blocks].
    rewrite H3; cbn [blocks]. rewrite H2; cbn [blocks]. rewrite H1; cbn [blocks].
    reflexivity.
Qed.

(** Whatever the home bucket [h], the buffer taken from another bucket
    ends with its prev pointer at the sentinel of bucket 0. *)
Lemma bget_take_prev self d blk h old b s s' :
  bget_take self d blk h old b s = Done b s' ->
  b <> Bucket h -> next (mem s b) <> b -> next (mem s (Bucket h)) <> b ->
  prev (mem s' b) = Bucket 0.
Proof.
  unfold bget_take. intros E Hbh Hnb Hnh. revert E.
  exec. name_state s1 H1. exec. exec. name_state s2 H2. exec. exec.
  name_state s3 H3. exec. exec. name_state s4 H4. exec. name_state s5 H5.
  exec. exec. name_state s6 H6. exec. name_state s7 H7. exec.
  name_state s8 H8. exec. name_state s9 H9.
  rewrite bind_acquiresleep.
  destruct (locked (lock (mem s9 b))); [discriminate|].
  cbv beta. unfold ret. intros E. injection E as <-. cbn [mem].
  rewrite (upd_agrees prev) by reflexivity.
  assert (M9 : mem s9 = mem s7) by (rewrite H9, H8; reflexivity).
  rewrite M9.
  assert (N1 : forall q, next (mem s1 q) = next (mem s q)).
  { intros q. rewrite H1. cbn [mem]. now rewrite (upd_agrees next). }
  assert (N2 : next (mem s2 (Bucket h)) <> b).
  { rewrite H2. cbn [mem]. unfold upd.
    destruct (ptr_eqb (Bucket h) (prev (mem s1 b))); cbn [next set_next];
      now rewrite N1. }
  assert (N5 : next (mem s5 (Bucket h)) <> b).
  { rewrite H5. cbn [mem]. rewrite (upd_agrees next) by reflexivity.
    rewrite H4. cbn [mem]. rewrite upd_other by congruence.
    rewrite H3. cbn [mem]. rewrite (upd_agrees next) by reflexivity. exact N2. }
  rewrite H7. cbn [mem]. rewrite (upd_agrees prev) by reflexivity.
  rewrite H6. cbn [mem]. rewrite upd_other by congruence.
  rewrite H5. cbn [mem]. now rewrite upd_same.
Qed.

Lemma bget_steal_done fuel self d blk h : forall n i s b s',
  bget_steal n i fuel self d blk h s = Done b s' ->
  (forall j, b <> Bucket j) ->
  next (mem s' (Bucket h)) = b /\
  lock (mem s' b) = {| locked := true; pid := self |} /\
  dev (mem s' b) = d /\ blockno (mem s' b) = blk /\
  valid (mem s' b) = 0 /\
  (forall j, j <> h -> bucket_lock s' j = bucket_lock s j) /\
  bucket_lock s' h = false /\
  io s' = io s /\ blocks s' = blocks s.
Proof.
  induction n as [|n IH]; intros i s b s'; cbn [bget_steal]; [discriminate|].
  set (old := ((h + i) mod NBUCKET)%nat).
  rewrite bind_acquire. destruct (bucket_lock s old) eqn:Hl; [discriminate|].
  name_state s0 H0. rewrite bind_find_in_bucket.
  destruct (walk fuel (mem s0) (Bucket old) (next (mem s0 (Bucket old))) is_unused)
    as [[b1|]|] eqn:W; [| |discriminate].
  - pose proof (bget_take_run self d blk h old b1 s0) as T.
    destruct (locked (lock (mem s0 b1))); [congruence|].
    destruct T as (s9 & E9 & P1 & P2 & P3 & P4 & P5 & P6 & P7 & P8).
    rewrite E9. intros E Hb. injection E as <- <-.
    split; [apply P1, Hb|]. repeat (split; [assumption|]).
    rewrite P6, P7, P8, H0. cbn [bucket_lock io blocks].
    split; [|split; [|split; reflexivity]].
    + intros j Hj. rewrite (upd_nat_other _ h) by exact Hj.
      destruct (Nat.eq_dec j old) as [->|Hne].
      * rewrite upd_nat_same. exact (eq_sym Hl).
      * now rewrite !upd_nat_other.
    + now rewrite upd_nat_same.
  - exec. name_state s1 H1. intros E Hb.
    destruct (IH (S i) s1 b s' E Hb) as (P1 & P2 & P3 & P4 & P5 & P6 & P7 & P8 & P9).
    repeat (split; [assumption|]).
    assert (R : io s1 = io s /\ blocks s1 = blocks s).
    { rewrite H1, H0. split; reflexivity. }
    split; [|split; [assumption|split; [now rewrite P8|now rewrite P9]]].
    intros j Hj. rewrite (P6 j Hj). rewrite H1, H0. cbn [bucket_lock].
    now apply lock_restored.
Qed.

Lemma walk_fuel_pos fuel m head p test r : walk fuel m head p test = Some r -> fuel <> O.
Proof. destruct fuel; cbn; congruence. Qed.

Lemma bget_done fuel self d blk s b s' :
  bget fuel self d blk s = Done b s' ->
  (forall j, b <> Bucket j) ->
  walk fuel (mem s') (Bucket (dhash d blk))
    (next (mem s' (Bucket (dhash d blk)))) (is_block d blk) = Some (Some b) /\
  lock (mem s' b) = {| locked := true; pid := self |} /\
  dev (mem s' b) = d /\ blockno (mem s' b) = blk /\
  (valid (mem s' b) = 0 \/ valid (mem s' b) = valid (mem s b)) /\
  (forall j, bucket_lock s' j = bucket_lock s j) /\
  bucket_lock s (dhash d blk) = false /\
  io s' = io s /\ blocks s' = blocks s.
Proof.
  unfold bget. set (h := dhash d blk). intros E Hb. revert E. run.
  destruct (bucket_lock s h) eqn:Hl; [discriminate|]. cbn [mem bucket_lock blocks io].
  destruct (walk fuel (mem s) (Bucket h) (next (mem s (Bucket h))) (is_block d blk))
    as [[b1|]|] eqn:W1; [| |discriminate]; cbn [mem bucket_lock blocks io].
  - match goal with |- context [if ?c then _ else _] => destruct c eqn:Hlk end;
      [discriminate|].
    intros E. injection E as <- <-. cbn [mem bucket_lock blocks io].
    destruct (walk_found _ _ _ _ _ _ W1) as [_ Hm]. apply is_block_true in Hm.
    split.
    { rewrite <- W1. keeps next. apply walk_ext.
      - intros q. now keeps next.
      - intros q. unfold is_block. keeps dev. now keeps blockno. }
    rewrite !upd_same. cbn [lock dev blockno valid].
    split; [reflexivity|]. split; [apply Hm|]. split; [apply Hm|].
    split; [now right|]. split; [|repeat split].
    intros j. now apply lock_restored.
  - destruct (walk fuel (mem s) (Bucket h) (next (mem s (Bucket h))) is_unused)
      as [[b1|]|] eqn:W2; [| |discriminate]; cbn [mem bucket_lock blocks io].
    + match goal with |- context [if ?c then _ else _] => destruct c eqn:Hlk end;
        [discriminate|].
      intros E. injection E as <- <-. cbn [mem bucket_lock blocks io].
      split.
      { keeps next.
        rewrite <- (walk_claimed fuel (mem s) (Bucket h) (next (mem s (Bucket h)))
                      (is_block d blk) is_unused b1 (take_over d blk (mem s b1)) W1 W2)
          by (try reflexivity; unfold is_block; cbn; now rewrite !Z.eqb_refl).
        apply walk_ext.
        - intros q. now keeps next.
        - intros q. unfold is_block. keeps dev. now keeps blockno. }
      rewrite !upd_same. cbn [lock dev blockno valid].
      split; [reflexivity|]. split; [reflexivity|]. split; [reflexivity|].
      split; [now left|]. split; [|repeat split].
      intros j. now apply lock_restored.
    + intros E.
      match type of E with bget_steal _ _ _ _ _ _ _ ?t = _ => set (s1 := t) in E end.
      destruct (bget_steal_done _ _ _ _ _ _ _ _ _ _ E Hb)
        as (P1 & P2 & P3 & P4 & P5 & P6 & P7 & P8 & P9).
      split.
      { destruct fuel as [|fuel]; [discriminate|]. cbn [walk].
        rewrite P1. assert (Hbh : b <> Bucket h) by apply Hb.
        apply ptr_eqb_neq in Hbh. rewrite Hbh.
        assert (Hm : is_block d blk (mem s' b) = true) by now apply is_block_true.
        now rewrite Hm. }
      repeat (split; [assumption|]). split; [now left|].
      split; [|split; [reflexivity|split; assumption]].
      intros j. destruct (Nat.eq_dec j h) as [->|Hne].
      * now rewrite P7.
      * rewrite (P6 j Hne). subst s1. cbn [bucket_lock]. now rewrite upd_nat_other.
Qed.

(** The hit path of bget, run forward. *)
Lemma bget_hit fuel self d blk s b :
  bucket_lock s (dhash d blk) = false ->
  walk fuel (mem s) (Bucket (dhash d blk))
    (next (mem s (Bucket (dhash d blk)))) (is_block d blk) = Some (Some b) ->
  locked (lock (mem s b)) = false ->
  exists s', bget fuel self d blk s = Done b s' /\
    mem s' b = set_lock {| locked := true; pid := self |}
                 (set_refcnt ((refcnt (mem s b) + 1) mod 2 ^ 32) (mem s b)) /\
    (forall q, q <> b -> mem s' q = mem s q) /\
    (forall j, bucket_lock s' j = bucket_lock s j) /\
    io s' = io s /\ blocks s' = blocks s.
Proof.
  intros Hl W Hlk. unfold bget. run. rewrite Hl. cbn [mem bucket_lock blocks io].
  rewrite W. cbn [mem bucket_lock blocks io]. rewrite upd_same. cbn [lock set_refcnt].
  rewrite Hlk. eexists. split; [reflexivity|]. cbn [mem bucket_lock blocks io].
  rewrite !upd_same. split; [reflexivity|]. split; [|split; [|split; reflexivity]].
  - intros q Hq. now rewrite !upd_other.
  - intros j. now apply lock_restored.
Qed.

(** *** bread, brelse, bpin and bunpin *)

Lemma bread_done fuel self d blk s b s1 :
  bread fuel self d blk s = Done b s1 ->
  (forall j, b <> Bucket j) ->
  exists s',
    bget fuel self d blk s = Done b s' /\
    walk fuel (mem s1) (Bucket (dhash d blk))
      (next (mem s1 (Bucket (dhash d blk)))) (is_block d blk) = Some (Some b) /\
    holds self (mem s1 b) /\
    dev (mem s1 b) = d /\ blockno (mem s1 b) = blk /\
    valid (mem s1 b) <> 0 /\
    (forall j, bucket_lock s1 j = bucket_lock s j) /\
    bucket_lock s (dhash d blk) = false /\
    blocks s1 = blocks s /\
    io s1 = (if valid (mem s' b) =? 0
             then {| op_write := false; op_dev := d; op_blockno := blk |} :: io s
             else io s).
Proof.
  unfold bread. unfold bind at 1.
  destruct (bget fuel self d blk s) as [b' s'| | |] eqn:G; try discriminate.
  intros E Hb.
  assert (b' = b).
  { revert E. run. destruct (valid (mem s' b') =? 0); cbn; congruence. }
  subst b'. exists s'. split; [reflexivity|].
  destruct (bget_done _ _ _ _ _ _ _ G Hb) as (W & Hlk & Hd & Hn & _ & Hbl & Hl & Hio & Hblk).
  revert E. run. destruct (valid (mem s' b) =? 0) eqn:V; cbn [mem bucket_lock blocks io];
    intros E; injection E as <-; cbn [mem bucket_lock blocks io].
  - split.
    { rewrite <- W. keeps next. apply walk_ext.
      - intros q. now keeps next.
      - intros q. unfold is_block. keeps dev. now keeps blockno. }
    rewrite !upd_same. unfold holds.
    cbn [lock dev blockno valid set_valid set_data].
    rewrite Hlk, Hd, Hn, Hio. repeat split; try assumption; discriminate.
  - apply Z.eqb_neq in V. unfold holds. rewrite Hlk, Hio. repeat split; assumption.
Qed.

Lemma brelse_done self b s :
  holds self (mem s b) ->
  bucket_lock s (dhash (dev (mem s b)) (blockno (mem s b))) = false ->
  exists s', brelse self b s = Done tt s' /\
    mem s' b = set_refcnt ((refcnt (mem s b) - 1) mod 2 ^ 32)
                 (set_lock {| locked := false; pid := 0 |} (mem s b)) /\
    (forall q, q <> b -> mem s' q = mem s q) /\
    (forall j, bucket_lock s' j = bucket_lock s j) /\
    io s' = io s /\ blocks s' = blocks s.
Proof.
  intros [Hlk Hpid] Hl. unfold brelse. run. rewrite Hlk, Hpid, Z.eqb_refl.
  cbn [negb andb mem bucket_lock blocks io]. rewrite !upd_same.
  cbn [dev blockno set_lock]. rewrite Hl. cbn [mem bucket_lock blocks io].
  eexists. split; [reflexivity|]. cbn [mem bucket_lock blocks io].
  rewrite !upd_same. split; [reflexivity|]. split; [|split; [|split; reflexivity]].
  - intros q Hq. now rewrite !upd_other.
  - intros j. now apply lock_restored.
Qed.


(** *** Lists of buckets *)

Lemma chain_frame m m' head l : forall p,
  chain m head p l ->
  (forall x, In x l -> next (m' x) = next (m x)) ->
  chain m' head p l.
Proof.
  induction l as [|x l IH]; intros p H Hn; cbn in *; [exact H|].
  destruct H as (-> & Hx & H). repeat split; try assumption.
  rewrite Hn by now left. apply IH; [exact H|]. intros y Hy. apply Hn. now right.
Qed.

Lemma walk_chain m head test l : forall fuel p,
  chain m head p l -> (length l < fuel)%nat ->
  walk fuel m head p test = Some (find (fun x => test (m x)) l).
Proof.
  induction l as [|x l IH]; intros fuel p H Hf; cbn in H.
  - subst p. destruct fuel; [cbn in Hf; lia|]. cbn. now rewrite ptr_eqb_refl.
  - destruct H as (-> & Hx & H). destruct fuel; [cbn in Hf; lia|]. cbn.
    apply ptr_eqb_neq in Hx. rewrite Hx.
    destruct (test (m x)); [reflexivity|]. apply IH; [exact H|]. cbn in Hf. lia.
Qed.

Lemma flat_map_upd_cons (Ls : nat -> list nat) j x : forall n a,
  (a <= j < a + n)%nat ->
  Permutation (flat_map (upd_nat Ls j (x :: Ls j)) (seq a n))
              (x :: flat_map Ls (seq a n)).
Proof.
  induction n as [|n IH]; intros a Hj; [lia|]. cbn [seq flat_map].
  destruct (Nat.eq_dec a j) as [->|Hne].
  - rewrite upd_nat_same. cbn. constructor. apply Permutation_app_head.
    assert (E : forall l, (forall y, In y l -> y <> j) ->
                flat_map (upd_nat Ls j (x :: Ls j)) l = flat_map Ls l).
    { induction l as [|y l IHl]; intros Hl; cbn; [reflexivity|].
      rewrite upd_nat_other by (apply Hl; now left).
      rewrite IHl; [reflexivity|]. intros z Hz. apply Hl. now right. }
    rewrite E; [reflexivity|]. intros y Hy. apply in_seq in Hy. lia.
  - rewrite upd_nat_other by exact Hne.
    rewrite (IH (S a)) by lia. symmetry. apply Permutation_middle.
Qed.

Lemma length_flat_map_ge (Ls : nat -> list nat) j l :
  In j l -> (length (Ls j) <= length (flat_map Ls l))%nat.
Proof.
  induction l as [|y l IH]; intros H; [destruct H|]. cbn. rewrite length_app.
  destruct H as [->|H]; [lia|]. specialize (IH H). lia.
Qed.

Section WithLayout.

Variable NBUF : nat.
Variable bcache_buf : Z.
Variable sizeof_buf : Z.

Local Abbreviation binit := (binit NBUF bcache_buf sizeof_buf).
Local Abbreviation binit_buf := (binit_buf bcache_buf sizeof_buf).
Local Abbreviation well_linked := (well_linked NBUF).

Lemma well_linked_length s Ls j :
  well_linked s Ls -> (j < NBUCKET)%nat -> (length (Ls j) <= NBUF)%nat.
Proof.
  intros [_ HP] Hj. apply Permutation_length in HP. rewrite length_seq in HP.
  rewrite <- HP. apply length_flat_map_ge. apply in_seq. lia.
Qed.

Lemma well_linked_In s Ls x :
  well_linked s Ls ->
  ((x < NBUF)%nat <-> exists j, (j < NBUCKET)%nat /\ In x (Ls j)).
Proof.
  intros [_ HP]. split.
  - intros Hx. assert (Hin : In x (seq 0 NBUF)) by (apply in_seq; lia).
    apply (Permutation_in _ (Permutation_sym HP)) in Hin.
    apply in_flat_map in Hin. destruct Hin as (j & Hj & Hin).
    apply in_seq in Hj. exists j. split; [lia|exact Hin].
  - intros (j & Hj & Hin).
    assert (Hin' : In x (flat_map Ls (seq 0 NBUCKET))).
    { apply in_flat_map. exists j. split; [apply in_seq; lia|exact Hin]. }
    apply (Permutation_in _ HP) in Hin'. apply in_seq in Hin'. lia.
Qed.

Lemma HASH_bound key : (HASH key < NBUCKET)%nat.
Proof.
  unfold HASH, NBUCKET.
  pose proof (Z.mod_pos_bound (key mod 2 ^ 64) (Z.of_nat 13) ltac:(lia)). lia.
Qed.

(** *** binit *)

Lemma binit_bucket_eq j s :
  binit_bucket j s =
  Done tt
    {| mem := upd (upd (mem s) (Bucket j) (set_prev (Bucket j) (mem s (Bucket j))))
                (Bucket j)
                (set_next (Bucket j)
                   (upd (mem s) (Bucket j) (set_prev (Bucket j) (mem s (Bucket j)))
                      (Bucket j)));
       bucket_lock := upd_nat (bucket_lock s) j false;
       blocks := blocks s; io := io s |}.
Proof. reflexivity. Qed.

Lemma binit_buckets_spec l : forall s,
  exists s', for_each l binit_bucket s = Done tt s' /\
    (forall j, In j l ->
       next (mem s' (Bucket j)) = Bucket j /\ bucket_lock s' j = false) /\
    (forall j, next (mem s (Bucket j)) = Bucket j /\ bucket_lock s j = false ->
       next (mem s' (Bucket j)) = Bucket j /\ bucket_lock s' j = false) /\
    (forall i, mem s' (Buf i) = mem s (Buf i)) /\
    io s' = io s /\ blocks s' = blocks s.
Proof.
  induction l as [|j l IH]; intros s.
  - exists s. cbn. split; [reflexivity|]. split; [intros j' []|]. repeat split; tauto.
  - cbn [for_each]. unfold bind at 1. rewrite binit_bucket_eq.
    match goal with |- context [for_each l binit_bucket ?t] => remember t as s1 eqn:H1 end.
    destruct (IH s1) as (s' & E & Hin & Hkeep & Hbuf & Hio & Hblk).
    assert (Hj : next (mem s1 (Bucket j)) = Bucket j /\ bucket_lock s1 j = false).
    { rewrite H1. cbn [mem bucket_lock]. now rewrite upd_same, upd_nat_same. }
    exists s'. split; [exact E|]. split; [|split; [|split; [|split]]].
    + intros j' [<-|Hj']; [now apply Hkeep|now apply Hin].
    + intros j' [Hn Hl]. apply Hkeep. rewrite H1. cbn [mem bucket_lock].
      destruct (Nat.eq_dec j' j) as [->|Hne].
      * now rewrite upd_same, upd_nat_same.
      * rewrite !upd_other by congruence. now rewrite upd_nat_other.
    + intros i. rewrite Hbuf, H1. cbn [mem]. now rewrite !upd_other by discriminate.
    + rewrite Hio, H1. reflexivity.
    + rewrite Hblk, H1. reflexivity.
Qed.

Lemma binit_buf_spec k s Ls :
  linked_upto k s Ls ->
  exists s', binit_buf k s = Done tt s' /\
    linked_upto (S k) s'
      (upd_nat Ls (HASH (buf_addr bcache_buf sizeof_buf k))
         (k :: Ls (HASH (buf_addr bcache_buf sizeof_buf k)))) /\
    io s' = io s /\ blocks s' = blocks s.
Proof.
  intros (Hch & HP & Hq & Hpr & Hlk). unfold Bio.binit_buf.
  set (j := HASH (buf_addr bcache_buf sizeof_buf k)).
  assert (Hj : (j < NBUCKET)%nat) by apply HASH_bound.
  cbv zeta. unfold initsleeplock.
  exec. name_state s1 H1. exec. exec. name_state s2 H2. exec. name_state s3 H3.
  exec. exec. name_state s4 H4.
  unfold store, modify. eexists. split; [reflexivity|].
  assert (Hfresh : forall j' x, (j' < NBUCKET)%nat -> In x (Ls j') -> x <> k).
  { intros j' x Hj' Hin ->.
    assert (Hin' : In k (flat_map Ls (seq 0 NBUCKET))).
    { apply in_flat_map. exists j'. split; [apply in_seq; lia|exact Hin]. }
    apply (Permutation_in _ HP) in Hin'. apply in_seq in Hin'. lia. }
  assert (N3 : forall q, next (mem s3 q) = if ptr_eqb q (Buf k)
                                           then next (mem s (Bucket j))
                                           else next (mem s q)).
  { intros q. rewrite H3. cbn [mem]. rewrite (upd_agrees next) by reflexivity.
    rewrite H2. cbn [mem]. unfold upd at 1.
    destruct (ptr_eqb q (Buf k)) eqn:Eq.
    - cbn [next set_next]. rewrite H1. cbn [mem]. now rewrite upd_other by discriminate.
    - rewrite H1. cbn [mem]. now rewrite (upd_agrees next) by reflexivity. }
  assert (N5 : forall q,
            next (upd (mem s4) (Bucket j) (set_next (Buf k) (mem s4 (Bucket j))) q) =
            if ptr_eqb q (Bucket j) then Buf k
            else if ptr_eqb q (Buf k) then next (mem s (Bucket j))
            else next (mem s q)).
  { intros q. unfold upd at 1. destruct (ptr_eqb q (Bucket j)) eqn:Eq; [reflexivity|].
    rewrite H4. cbn [mem]. rewrite (upd_agrees next) by reflexivity. apply N3. }
  assert (I4 : io s4 = io s /\ blocks s4 = blocks s /\ bucket_lock s4 = bucket_lock s).
  { rewrite H4; cbn [io blocks bucket_lock]. rewrite H3; cbn [io blocks bucket_lock].
    rewrite H2; cbn [io blocks bucket_lock]. rewrite H1; cbn [io blocks bucket_lock].
    repeat split. }
  cbn [mem bucket_lock blocks io].
  split; [|split; apply I4].
  split; [|split; [|split; [|split]]].
  - intros j' Hj'. unfold bucket_is. cbn [mem]. rewrite N5.
    destruct (Nat.eq_dec j' j) as [->|Hne].
    + rewrite ptr_eqb_refl, upd_nat_same. cbn [map chain].
      split; [reflexivity|]. split; [discriminate|].
      rewrite N5. cbn [ptr_eqb]. rewrite Nat.eqb_refl.
      apply (chain_frame (mem s)); [apply (Hch j Hj)|].
      intros x Hx. apply in_map_iff in Hx. destruct Hx as (y & <- & Hy).
      rewrite N5. cbn [ptr_eqb].
      pose proof (Hfresh j y Hj Hy) as Hyk. apply Nat.eqb_neq in Hyk. now rewrite Hyk.
    + assert (Eb : ptr_eqb (Bucket j') (Bucket j) = false)
        by (apply ptr_eqb_neq; congruence).
      rewrite Eb. cbn [ptr_eqb]. rewrite upd_nat_other by exact Hne.
      apply (chain_frame (mem s)); [apply (Hch j' Hj')|].
      intros x Hx. apply in_map_iff in Hx. destruct Hx as (y & <- & Hy).
      rewrite N5. cbn [ptr_eqb].
      pose proof (Hfresh j' y Hj' Hy) as Hyk. apply Nat.eqb_neq in Hyk. now rewrite Hyk.
  - rewrite (flat_map_upd_cons Ls j k NBUCKET 0) by lia.
    rewrite seq_S. cbn [Nat.add]. rewrite HP. apply Permutation_cons_append.
  - intros j' Hj'. destruct I4 as (_ & _ & ->). now apply Hq.
  - intros i. unfold pristine. cbn [mem].
    assert (D : forall {A} (field : buf -> A),
              (forall v c, field (set_prev v c) = field c) ->
              (forall v c, field (set_next v c) = field c) ->
              (forall v c, field (set_lock v c) = field c) ->
              field (upd (mem s4) (Bucket j) (set_next (Buf k) (mem s4 (Bucket j))) (Buf i)) =
              field (mem s (Buf i))).
    { intros A field Fp Fn Fl.
      rewrite (upd_agrees field) by apply Fn.
      rewrite H4. cbn [mem]. rewrite (upd_agrees field) by apply Fp.
      rewrite H3. cbn [mem]. rewrite (upd_agrees field) by apply Fl.
      rewrite H2. cbn [mem]. rewrite (upd_agrees field) by apply Fn.
      rewrite H1. cbn [mem]. rewrite (upd_agrees field) by apply Fp.
      reflexivity. }
    rewrite (D _ dev), (D _ blockno), (D _ valid), (D _ refcnt) by reflexivity.
    apply Hpr.
  - intros i Hi. cbn [mem]. rewrite (upd_agrees lock) by reflexivity.
    rewrite H4. cbn [mem]. rewrite (upd_agrees lock) by reflexivity.
    rewrite H3. cbn [mem]. unfold upd at 1.
    destruct (ptr_eqb (Buf i) (Buf k)) eqn:Eq; [reflexivity|].
    rewrite H2. cbn [mem]. rewrite (upd_agrees lock) by reflexivity.
    rewrite H1. cbn [mem]. rewrite (upd_agrees lock) by reflexivity.
    apply Hlk. cbn [ptr_eqb] in Eq. apply Nat.eqb_neq in Eq. lia.
Qed.

Lemma binit_bufs_spec n : forall k s Ls,
  linked_upto k s Ls ->
  exists s' Ls', for_each (seq k n) binit_buf s = Done tt s' /\
    linked_upto (k + n) s' Ls' /\ io s' = io s /\ blocks s' = blocks s.
Proof.
  induction n as [|n IH]; intros k s Ls H.
  - exists s, Ls. rewrite Nat.add_0_r. cbn. auto.
  - cbn [seq for_each]. unfold bind at 1.
    destruct (binit_buf_spec k s Ls H) as (s1 & E1 & H1 & Hio1 & Hblk1). rewrite E1.
    destruct (IH (S k) s1 _ H1) as (s' & Ls' & E & H' & Hio & Hblk).
    exists s', Ls'. split; [exact E|]. replace (k + S n)%nat with (S k + n)%nat by lia.
    split; [exact H'|]. split; congruence.
Qed.

(** binit, run on memory in which the buffers are as .bss has them. *)
Lemma binit_spec s0 :
  (forall i, pristine (mem s0 (Buf i))) ->
  exists s Ls, binit s0 = Done tt s /\ linked_upto NBUF s Ls /\
               io s = io s0 /\ blocks s = blocks s0.
Proof.
  intros Hpr. unfold Bio.binit, bind.
  destruct (binit_buckets_spec (seq 0 NBUCKET) s0) as (s1 & E1 & Hin & _ & Hbuf & Hio1 & Hblk1).
  rewrite E1.
  assert (H1 : linked_upto 0 s1 (fun _ => [])).
  { split; [|split; [|split; [|split]]].
    - intros j Hj. unfold bucket_is. cbn. apply Hin. apply in_seq. lia.
    - cbn. constructor.
    - intros j Hj. apply Hin. apply in_seq. lia.
    - intros i. rewrite Hbuf. apply Hpr.
    - intros i Hi. lia. }
  destruct (binit_bufs_spec NBUF 0 s1 _ H1) as (s & Ls & E & H & Hio & Hblk).
  exists s, Ls. split; [exact E|]. split; [exact H|]. split; congruence.
Qed.

(** *** bget on a cache whose lists are in order *)

Lemma find_map {A C} (f : C -> bool) (g : A -> C) l :
  find f (map g l) = option_map g (find (fun x => f (g x)) l).
Proof.
  induction l as [|x l IH]; cbn; [reflexivity|]. now destruct (f (g x)).
Qed.

Lemma find_app {A} (f : A -> bool) l1 l2 :
  find f (l1 ++ l2) = match find f l1 with Some x => Some x | None => find f l2 end.
Proof.
  induction l1 as [|x l1 IH]; cbn; [reflexivity|]. now destruct (f x).
Qed.

Lemma other_bucket h i :
  (h < NBUCKET)%nat -> (1 <= i < NBUCKET)%nat ->
  ((h + i) mod NBUCKET <> h /\ (h + i) mod NBUCKET < NBUCKET)%nat.
Proof.
  unfold NBUCKET. intros Hh Hi.
  pose proof (Nat.div_mod_eq (h + i) 13).
  pose proof (Nat.mod_upper_bound (h + i) 13 ltac:(lia)). lia.
Qed.

Section OnLists.

Variable fuel : nat.
Variable self d blk : Z.
Variable h : nat.
Variable Ls : nat -> list nat.
Variable m : ptr -> buf.

Hypothesis Hh : (h < NBUCKET)%nat.
Hypothesis Hchain : forall j, (j < NBUCKET)%nat ->
  chain m (Bucket j) (next (m (Bucket j))) (map Buf (Ls j)).
Hypothesis Hfuel : forall j, (j < NBUCKET)%nat -> (length (Ls j) < fuel)%nat.

Lemma walk_bucket j test :
  (j < NBUCKET)%nat ->
  walk fuel m (Bucket j) (next (m (Bucket j))) test =
  Some (option_map Buf (find (fun x => test (m (Buf x))) (Ls j))).
Proof.
  intros Hj. rewrite (walk_chain m (Bucket j) test (map Buf (Ls j))).
  - now rewrite find_map.
  - now apply Hchain.
  - rewrite length_map. now apply Hfuel.
Qed.

Lemma bget_steal_run : forall n i s,
  mem s = m -> (1 <= i)%nat -> (i + n = NBUCKET)%nat ->
  bucket_lock s h = true ->
  (forall j, (j < NBUCKET)%nat -> j <> h -> bucket_lock s j = false) ->
  match find (fun x => is_unused (m (Buf x)))
          (flat_map (fun i' => Ls ((h + i') mod NBUCKET)%nat) (seq i n)) with
  | Some x =>
      if locked (lock (m (Buf x)))
      then bget_steal n i fuel self d blk h s = Blocked
      else exists s', bget_steal n i fuel self d blk h s = Done (Buf x) s'
  | None => bget_steal n i fuel self d blk h s = Panic "bget: no buffers"
  end.
Proof.
  induction n as [|n IH]; intros i s Hm Hi Hn Hlh Hlo; [reflexivity|].
  cbn [seq flat_map bget_steal].
  destruct (other_bucket h i Hh ltac:(lia)) as [Hne Hlt].
  set (old := ((h + i) mod NBUCKET)%nat) in *.
  rewrite bind_acquire, (Hlo old Hlt Hne). name_state s0 H0.
  rewrite bind_find_in_bucket.
  assert (M0 : mem s0 = m) by (rewrite H0; exact Hm).
  rewrite M0, (walk_bucket old is_unused Hlt), find_app.
  destruct (find (fun x => is_unused (m (Buf x))) (Ls old)) as [x|]; cbn [option_map].
  - pose proof (bget_take_run self d blk h old (Buf x) s0) as T. rewrite M0 in T.
    destruct (locked (lock (m (Buf x)))); [exact T|].
    destruct T as (s' & E & _). now exists s'.
  - exec. name_state s1 H1.
    apply (IH (S i) s1).
    + rewrite H1. cbn [mem]. exact M0.
    + lia.
    + lia.
    + rewrite H1, H0. cbn [bucket_lock]. rewrite !upd_nat_other by congruence. exact Hlh.
    + intros j Hj Hjh. rewrite H1, H0. cbn [bucket_lock].
      destruct (Nat.eq_dec j old) as [->|Hjo].
      * now rewrite upd_nat_same.
      * rewrite !upd_nat_other by exact Hjo. now apply Hlo.
Qed.

End OnLists.

(** The outcome of bget in a quiescent state whose bucket lists are in
    order: a hit on the first buffer of the home bucket that carries the
    block, else the first buffer with refcnt 0 in the home bucket and
    then in the buckets after it, else a panic. *)
Lemma bget_outcome fuel self d blk s Ls :
  well_linked s Ls -> quiescent s -> (NBUF < fuel)%nat ->
  let h := dhash d blk in
  match find (fun x => is_block d blk (mem s (Buf x))) (Ls h) with
  | Some x =>
      if locked (lock (mem s (Buf x)))
      then bget fuel self d blk s = Blocked
      else exists s', bget fuel self d blk s = Done (Buf x) s'
  | None =>
      match find (fun x => is_unused (mem s (Buf x)))
              (flat_map (fun i => Ls ((h + i) mod NBUCKET)%nat) (seq 0 NBUCKET)) with
      | Some x =>
          if locked (lock (mem s (Buf x)))
          then bget fuel self d blk s = Blocked
          else exists s', bget fuel self d blk s = Done (Buf x) s'
      | None => bget fuel self d blk s = Panic "bget: no buffers"
      end
  end.
Proof.
  intros Hwl Hq Hfuel h.
  assert (Hh : (h < NBUCKET)%nat) by apply HASH_bound.
  assert (Hch : forall j, (j < NBUCKET)%nat ->
            chain (mem s) (Bucket j) (next (mem s (Bucket j))) (map Buf (Ls j))).
  { intros j Hj. now apply Hwl. }
  assert (Hlen : forall j, (j < NBUCKET)%nat -> (length (Ls j) < fuel)%nat).
  { intros j Hj. pose proof (well_linked_length s Ls j Hwl Hj). lia. }
  unfold bget. fold h.
  rewrite bind_acquire, (Hq h Hh). name_state s0 H0.
  assert (M0 : mem s0 = mem s) by (rewrite H0; reflexivity).
  rewrite bind_find_in_bucket, M0.
  rewrite (walk_bucket fuel Ls (mem s) Hch Hlen h (is_block d blk) Hh).
  destruct (find (fun x => is_block d blk (mem s (Buf x))) (Ls h)) as [x|];
    cbn [option_map].
  - exec. name_state s1 H1. exec. name_state s2 H2. rewrite bind_acquiresleep.
    assert (L2 : lock (mem s2 (Buf x)) = lock (mem s (Buf x))).
    { rewrite H2; cbn [mem]. rewrite H1; cbn [mem]. rewrite upd_same. now rewrite M0. }
    rewrite L2. destruct (locked (lock (mem s (Buf x)))); [reflexivity|].
    cbv beta. unfold ret. eexists. reflexivity.
  - rewrite bind_find_in_bucket, M0.
    rewrite (walk_bucket fuel Ls (mem s) Hch Hlen h is_unused Hh).
    change (seq 0 NBUCKET) with (0%nat :: seq 1 (NBUCKET - 1)).
    cbn [flat_map]. rewrite Nat.add_0_r, (Nat.mod_small h NBUCKET Hh), find_app.
    destruct (find (fun x => is_unused (mem s (Buf x))) (Ls h)) as [x|];
      cbn [option_map].
    + exec. name_state s1 H1. exec. name_state s2 H2. rewrite bind_acquiresleep.
      assert (L2 : lock (mem s2 (Buf x)) = lock (mem s (Buf x))).
      { rewrite H2; cbn [mem]. rewrite H1; cbn [mem]. rewrite upd_same. now rewrite M0. }
      rewrite L2. destruct (locked (lock (mem s (Buf x)))); [reflexivity|].
      cbv beta. unfold ret. eexists. reflexivity.
    + apply (bget_steal_run fuel self d blk h Ls (mem s) Hh Hch Hlen (NBUCKET - 1) 1 s0).
      * exact M0.
      * lia.
      * reflexivity.
      * rewrite H0. cbn [bucket_lock]. now rewrite upd_nat_same.
      * intros j Hj Hjh. rewrite H0. cbn [bucket_lock].
        rewrite upd_nat_other by exact Hjh. now apply Hq.
Qed.

Lemma find_none_iff {A} (f : A -> bool) l :
  find f l = None <-> forall x, In x l -> f x = false.
Proof.
  split; [apply find_none|].
  induction l as [|x l IH]; intros H; cbn; [reflexivity|].
  rewrite (H x) by now left. apply IH. intros y Hy. apply H. now right.
Qed.

Lemma probe_all_buckets (Ls : nat -> list nat) h x :
  (h < NBUCKET)%nat ->
  In x (flat_map (fun i => Ls ((h + i) mod NBUCKET)%nat) (seq 0 NBUCKET)) <->
  exists j, (j < NBUCKET)%nat /\ In x (Ls j).
Proof.
  intros Hh. rewrite in_flat_map. split.
  - intros (i & Hi & Hin). exists ((h + i) mod NBUCKET)%nat. split; [|exact Hin].
    apply Nat.mod_upper_bound. discriminate.
  - intros (j & Hj & Hin).
    destruct (KallocProofs.probe_covers NBUCKET h j Hj) as (i & Hi & E).
    exists i. split; [apply in_seq; lia|]. now rewrite E.
Qed.

(** X24.  In a quiescent state in which every buffer is in one bucket
    list, bget panics exactly when no buffer of the home bucket carries
    the block and every one of the NBUF buffers has a refcnt other than
    0; where the buffers in use sit in the bucket of their block, that is
    exactly when all NBUF buffers are in use and none carries the block.
    When the hit check fails and some buffer has refcnt 0 (and, as an
    unused buffer, nobody holds its sleep-lock), bget returns a buffer. *)
Theorem bget_panics_iff_all_in_use fuel self d blk s Ls :
  well_linked s Ls -> quiescent s -> (NBUF < fuel)%nat ->
  ((exists msg, bget fuel self d blk s = Panic msg) <->
   ((forall i, In i (Ls (dhash d blk)) -> is_block d blk (mem s (Buf i)) = false) /\
    (forall i, (i < NBUF)%nat -> refcnt (mem s (Buf i)) <> 0))) /\
  ((forall i j, (j < NBUCKET)%nat -> In i (Ls j) -> refcnt (mem s (Buf i)) <> 0 ->
                dhash (dev (mem s (Buf i))) (blockno (mem s (Buf i))) = j) ->
   ((exists msg, bget fuel self d blk s = Panic msg) <->
    (forall i, (i < NBUF)%nat ->
       refcnt (mem s (Buf i)) <> 0 /\ is_block d blk (mem s (Buf i)) = false))) /\
  ((forall i, In i (Ls (dhash d blk)) -> is_block d blk (mem s (Buf i)) = false) ->
   (exists i, (i < NBUF)%nat /\ refcnt (mem s (Buf i)) = 0) ->
   (forall i, (i < NBUF)%nat -> refcnt (mem s (Buf i)) = 0 ->
              locked (lock (mem s (Buf i))) = false) ->
   exists i s', (i < NBUF)%nat /\ refcnt (mem s (Buf i)) = 0 /\
                bget fuel self d blk s = Done (Buf i) s').
Proof.
  intros Hwl Hq Hfuel.
  pose proof (bget_outcome fuel self d blk s Ls Hwl Hq Hfuel) as O. cbv zeta in O.
  set (h := dhash d blk) in *.
  assert (Hh : (h < NBUCKET)%nat) by apply HASH_bound.
  set (hit := find (fun x => is_block d blk (mem s (Buf x))) (Ls h)) in *.
  set (free := find (fun x => is_unused (mem s (Buf x)))
                 (flat_map (fun i => Ls ((h + i) mod NBUCKET)%nat) (seq 0 NBUCKET))) in *.
  assert (Hall : forall x,
            In x (flat_map (fun i => Ls ((h + i) mod NBUCKET)%nat) (seq 0 NBUCKET)) <->
            (x < NBUF)%nat).
  { intros x. rewrite (probe_all_buckets Ls h x Hh).
    symmetry. apply (well_linked_In s Ls x Hwl). }
  assert (Hfree : free = None <-> forall i, (i < NBUF)%nat -> refcnt (mem s (Buf i)) <> 0).
  { unfold free. rewrite find_none_iff. split.
    - intros H i Hi. specialize (H i (proj2 (Hall i) Hi)). unfold is_unused in H.
      now apply Z.eqb_neq.
    - intros H x Hx. unfold is_unused. apply Z.eqb_neq. apply H. now apply Hall. }
  assert (Hhit : hit = None <->
            forall i, In i (Ls h) -> is_block d blk (mem s (Buf i)) = false).
  { unfold hit. apply find_none_iff. }
  split.
  - split.
    + intros [msg E]. destruct hit as [x|] eqn:Ehit.
      * destruct (locked (lock (mem s (Buf x)))); [congruence|].
        destruct O as [s' O]. congruence.
      * split; [now apply Hhit|]. apply Hfree.
        destruct free as [x|]; [|reflexivity].
        destruct (locked (lock (mem s (Buf x)))); [congruence|].
        destruct O as [s' O]. congruence.
    + intros [H1 H2]. apply Hhit in H1. apply Hfree in H2. rewrite H1, H2 in O.
      eexists. exact O.
  - split; [intros Hplace; split|].
    + intros [msg E].
      assert (P : hit = None /\ free = None).
      { destruct hit as [x|].
        - destruct (locked (lock (mem s (Buf x)))); [congruence|].
          destruct O as [s' O]. congruence.
        - split; [reflexivity|]. destruct free as [x|]; [|reflexivity].
          destruct (locked (lock (mem s (Buf x)))); [congruence|].
          destruct O as [s' O]. congruence. }
      destruct P as [P1 P2]. intros i Hi.
      pose proof (proj1 Hfree P2 i Hi) as Hr. split; [exact Hr|].
      destruct (is_block d blk (mem s (Buf i))) eqn:Hm; [|reflexivity]. exfalso.
      destruct (proj1 (well_linked_In s Ls i Hwl) Hi) as (j & Hj & Hin).
      pose proof (Hplace i j Hj Hin Hr) as Hd.
      apply is_block_true in Hm. destruct Hm as [Hm1 Hm2]. rewrite Hm1, Hm2 in Hd.
      fold h in Hd. subst j.
      pose proof (proj1 Hhit P1 i Hin) as Hno.
      assert (Hyes : is_block d blk (mem s (Buf i)) = true)
        by (apply is_block_true; now split).
      congruence.
    + intros Hall'.
      assert (P1 : hit = None).
      { apply Hhit. intros i Hin. apply Hall'.
        apply (well_linked_In s Ls i Hwl). now exists h. }
      assert (P2 : free = None).
      { apply Hfree. intros i Hi. now apply Hall'. }
      rewrite P1, P2 in O. eexists. exact O.
    + intros H1 (i & Hi & Hz) Hidle. apply Hhit in H1. rewrite H1 in O.
      destruct free as [x|] eqn:Efree.
      * unfold free in Efree. apply find_some in Efree. destruct Efree as [Hin Hu].
        apply Hall in Hin. unfold is_unused in Hu. apply Z.eqb_eq in Hu.
        rewrite (Hidle x Hin Hu) in O. destruct O as [s' O]. now exists x, s'.
      * exfalso. destruct Hfree as [Hfree _]. now apply (Hfree eq_refl i Hi).
Qed.



End WithLayout.

(** C9.  brelse of a buffer whose sleep-lock the caller holds takes one
    off its refcnt and lets go of the sleep-lock; the identity of the
    buffer, its valid flag, its data and its links stay as they are, as do
    all other buffers, the bucket locks, the disk and the record of disk
    operations. *)
Theorem brelse_changes_refcnt_and_lock_only self b s :
  holds self (mem s b) ->
  bucket_lock s (dhash (dev (mem s b)) (blockno (mem s b))) = false ->
  exists s', brelse self b s = Done tt s' /\
    refcnt (mem s' b) = (refcnt (mem s b) - 1) mod 2 ^ 32 /\
    (0 < refcnt (mem s b) <= 2 ^ 32 -> refcnt (mem s' b) = refcnt (mem s b) - 1) /\
    locked (lock (mem s' b)) = false /\
    dev (mem s' b) = dev (mem s b) /\
    blockno (mem s' b) = blockno (mem s b) /\
    valid (mem s' b) = valid (mem s b) /\
    data (mem s' b) = data (mem s b) /\
    disk (mem s' b) = disk (mem s b) /\
    prev (mem s' b) = prev (mem s b) /\
    next (mem s' b) = next (mem s b) /\
    (forall q, q <> b -> mem s' q = mem s q) /\
    (forall j, bucket_lock s' j = bucket_lock s j) /\
    io s' = io s /\ blocks s' = blocks s.
Proof.
  intros Hh Hl. destruct (brelse_done self b s Hh Hl) as (s' & E & M & O & L & I & Bk).
  exists s'. split; [exact E|]. rewrite M. cbn.
  split; [reflexivity|]. split.
  { intros Hr. apply Z.mod_small. lia. }
  repeat split; assumption.
Qed.

Lemma bpin_done b s :
  bucket_lock s (dhash (dev (mem s b)) (blockno (mem s b))) = false ->
  exists s', bpin b s = Done tt s' /\
    mem s' b = set_refcnt ((refcnt (mem s b) + 1) mod 2 ^ 32) (mem s b) /\
    (forall q, q <> b -> mem s' q = mem s q) /\
    (forall j, bucket_lock s' j = bucket_lock s j) /\
    io s' = io s /\ blocks s' = blocks s.
Proof.
  intros Hl. unfold bpin. run. rewrite Hl. cbn [mem bucket_lock blocks io].
  eexists. split; [reflexivity|]. cbn [mem bucket_lock blocks io].
  rewrite !upd_same. split; [reflexivity|]. split; [|split; [|split; reflexivity]].
  - intros q Hq. now rewrite !upd_other.
  - intros j. now apply lock_restored.
Qed.

Lemma bunpin_done b s :
  bucket_lock s (dhash (dev (mem s b)) (blockno (mem s b))) = false ->
  exists s', bunpin b s = Done tt s' /\
    mem s' b = set_refcnt ((refcnt (mem s b) - 1) mod 2 ^ 32) (mem s b) /\
    (forall q, q <> b -> mem s' q = mem s q) /\
    (forall j, bucket_lock s' j = bucket_lock s j) /\
    io s' = io s /\ blocks s' = blocks s.
Proof.
  intros Hl. unfold bunpin. run. rewrite Hl. cbn [mem bucket_lock blocks io].
  eexists. split; [reflexivity|]. cbn [mem bucket_lock blocks io].
  rewrite !upd_same. split; [reflexivity|]. split; [|split; [|split; reflexivity]].
  - intros q Hq. now rewrite !upd_other.
  - intros j. now apply lock_restored.
Qed.

(** C10, as the code has it.  bunpin never panics.  On a buffer whose
    refcnt is 0 it takes the lock of the buffer's bucket (it waits if that
    lock is held), leaves refcnt at 2^32 - 1 and gives the lock back;
    nothing else is changed, and the scans of bget for a buffer with
    refcnt 0 pass the buffer by.  That lasts until the next increment: a
    bpin of the buffer, or a bget that finds the buffer's block in it,
    takes refcnt from 2^32 - 1 back to 0. *)
Theorem bunpin_wraps_below_zero b s :
  (forall msg, bunpin b s <> Panic msg) /\
  (bucket_lock s (dhash (dev (mem s b)) (blockno (mem s b))) = true ->
   bunpin b s = Blocked) /\
  (refcnt (mem s b) = 0 ->
   bucket_lock s (dhash (dev (mem s b)) (blockno (mem s b))) = false ->
   exists s', bunpin b s = Done tt s' /\
     mem s' b = set_refcnt (2 ^ 32 - 1) (mem s b) /\
     is_unused (mem s' b) = false /\
     (forall q, q <> b -> mem s' q = mem s q) /\
     (forall j, bucket_lock s' j = bucket_lock s j) /\
     io s' = io s /\ blocks s' = blocks s) /\
  (refcnt (mem s b) = 0 ->
   bucket_lock s (dhash (dev (mem s b)) (blockno (mem s b))) = false ->
   exists s1 s2, bunpin b s = Done tt s1 /\ refcnt (mem s1 b) = 2 ^ 32 - 1 /\
     bpin b s1 = Done tt s2 /\ refcnt (mem s2 b) = 0 /\
     is_unused (mem s2 b) = true) /\
  (forall fuel self d blk,
     refcnt (mem s b) = 2 ^ 32 - 1 ->
     bucket_lock s (dhash d blk) = false ->
     walk fuel (mem s) (Bucket (dhash d blk))
       (next (mem s (Bucket (dhash d blk)))) (is_block d blk) = Some (Some b) ->
     locked (lock (mem s b)) = false ->
     exists s', bget fuel self d blk s = Done b s' /\ refcnt (mem s' b) = 0 /\
                is_unused (mem s' b) = true).
Proof.
  split; [|split; [|split; [|split]]].
  - unfold bunpin. run.
    destruct (bucket_lock s (dhash (dev (mem s b)) (blockno (mem s b))));
      discriminate.
  - intros Hl. unfold bunpin. run. now rewrite Hl.
  - intros Hr Hl. destruct (bunpin_done b s Hl) as (s' & E & M & O & L & I & Bk).
    exists s'. split; [exact E|]. rewrite M, Hr.
    split; [reflexivity|]. split; [reflexivity|]. repeat split; assumption.
  - intros Hr Hl. destruct (bunpin_done b s Hl) as (s1 & E1 & M1 & _ & L1 & _).
    destruct (bpin_done b s1) as (s2 & E2 & M2 & _).
    { rewrite M1. cbn [dev blockno set_refcnt]. now rewrite L1. }
    exists s1, s2. split; [exact E1|]. split; [now rewrite M1, Hr|].
    split; [exact E2|]. unfold is_unused. rewrite M2, M1, Hr. split; reflexivity.
  - intros fuel self d blk Hr Hl W Hlk.
    destruct (bget_hit fuel self d blk s b Hl W Hlk) as (s' & E & M & _).
    exists s'. split; [exact E|]. unfold is_unused. rewrite M, Hr. split; reflexivity.
Qed.

(** *** Runs on a kernel of the lab *)

Lemma chain_nodes m head l : forall p n,
  chain m head p l -> (length l <= n)%nat ->
  exists rest, nodes n m p = l ++ rest.
Proof.
  induction l as [|x l IH]; intros p n H Hn; cbn in H.
  - now exists (nodes n m p).
  - destruct H as (-> & _ & H). destruct n as [|n]; [cbn in Hn; lia|].
    destruct (IH _ n H) as [rest E]; [cbn in Hn; lia|].
    exists rest. cbn. now rewrite E.
Qed.

Lemma conserved_in_some_bucket NBUF s i n :
  conserved NBUF s -> (i < NBUF)%nat -> (NBUF <= n)%nat ->
  in_some_bucket n s (Buf i) = true.
Proof.
  intros [Ls Hwl] Hi Hn.
  destruct (proj1 (well_linked_In NBUF s Ls i Hwl) Hi) as (j & Hj & Hin).
  unfold in_some_bucket. apply existsb_exists. exists j. split; [apply in_seq; lia|].
  pose proof (well_linked_length NBUF s Ls j Hwl Hj) as Hlen.
  destruct Hwl as [Hch _].
  destruct (chain_nodes _ _ _ _ n (Hch j Hj)) as [rest E].
  { rewrite length_map. lia. }
  rewrite E. apply existsb_exists. exists (Buf i). split; [|apply ptr_eqb_refl].
  apply in_or_app. left. now apply in_map.
Qed.

(** binit leaves every buffer in exactly one bucket list. *)
Lemma binit_conserved NBUF bcache_buf sizeof_buf dsk :
  exists s, binit NBUF bcache_buf sizeof_buf (boot dsk) = Done tt s /\
            conserved NBUF s /\ quiescent s.
Proof.
  destruct (binit_spec NBUF bcache_buf sizeof_buf (boot dsk))
    as (s & Ls & E & (Hch & HP & Hq & _) & _).
  { intros i. cbn. repeat split. }
  exists s. split; [exact E|]. split; [|exact Hq]. exists Ls. now split.
Qed.

(** C1 fails on the code.  Blocks 1, 14 and 27 of device 1 hold the three
    buffers of bucket 2; bget for block 40, whose home is bucket 2 as
    well, takes buffer 21 from bucket 3 and puts it at the head of bucket
    2, but leaves its prev pointer at the sentinel of bucket 0. *)
Theorem steal_sets_prev_to_bucket_0 :
  finishes (lab_binit (boot blank_disk)) = true /\
  answers (lab_bread 1 fresh) (Buf 27) = true /\
  answers (lab_bread 14 held1) (Buf 14) = true /\
  answers (lab_bread 27 held2) (Buf 1) = true /\
  dhash 1 40 = 2%nat /\
  nodes 4 (mem crowded) (next (mem crowded (Bucket 2))) =
    [Buf 27; Buf 14; Buf 1; Bucket 2] /\
  nodes 3 (mem crowded) (next (mem crowded (Bucket 3))) =
    [Buf 21; Buf 8; Bucket 3] /\
  answers (lab_bget 40 crowded) (Buf 21) = true /\
  nodes 5 (mem stolen) (next (mem stolen (Bucket 2))) =
    [Buf 21; Buf 27; Buf 14; Buf 1; Bucket 2] /\
  prev (mem stolen (Buf 27)) = Buf 21 /\
  prev (mem stolen (Buf 21)) = Bucket 0 /\
  prev (mem stolen (Buf 21)) <> Bucket 2.
Proof.
  assert (E : prev (mem stolen (Buf 21)) = Bucket 0) by (vm_compute; reflexivity).
  do 11 (split; [vm_compute; reflexivity|]).
  rewrite E. discriminate.
Qed.

(** C2 fails on the code.  After binit every buffer is in one bucket
    list.  The buffer stolen into bucket 2 is released and then stolen
    again, into bucket 1: unlinking it through its wrong prev pointer
    rewrites the head of bucket 0, and buffers 0, 13 and 26, which binit
    put in bucket 0, are in no bucket list any more. *)
Theorem two_steals_orphan_buffers :
  (exists s, binit lab_NBUF lab_bcache_buf lab_sizeof_buf (boot blank_disk)
             = Done tt s /\ conserved lab_NBUF s) /\
  finishes (lab_binit (boot blank_disk)) = true /\
  answers (lab_bread 1 fresh) (Buf 27) = true /\
  answers (lab_bread 14 held1) (Buf 14) = true /\
  answers (lab_bread 27 held2) (Buf 1) = true /\
  answers (lab_bread 40 crowded) (Buf 21) = true /\
  finishes (brelse 1 (Buf 21) stolen_read) = true /\
  answers (lab_bread 0 released) (Buf 20) = true /\
  answers (lab_bread 13 held3) (Buf 7) = true /\
  answers (lab_bread 26 crowded_again) (Buf 21) = true /\
  nodes 4 (mem fresh) (next (mem fresh (Bucket 0))) =
    [Buf 26; Buf 13; Buf 0; Bucket 0] /\
  nodes 8 (mem stolen_twice) (next (mem stolen_twice (Bucket 0))) =
    [Buf 27; Buf 14; Buf 1; Bucket 2; Buf 21; Buf 20; Buf 7; Bucket 1] /\
  in_some_bucket lab_NBUF stolen_twice (Buf 0) = false /\
  in_some_bucket lab_NBUF stolen_twice (Buf 13) = false /\
  in_some_bucket lab_NBUF stolen_twice (Buf 26) = false /\
  ~ conserved lab_NBUF stolen_twice.
Proof.
  split.
  { destruct (binit_conserved lab_NBUF lab_bcache_buf lab_sizeof_buf blank_disk)
      as (s & E & H & _).
    exists s. now split. }
  assert (F : in_some_bucket lab_NBUF stolen_twice (Buf 0) = false)
    by (vm_compute; reflexivity).
  do 14 (split; [vm_compute; reflexivity|]).
  intros H.
  rewrite (conserved_in_some_bucket lab_NBUF stolen_twice 0 lab_NBUF H) in F;
    [discriminate|unfold lab_NBUF; lia|lia].
Qed.

Lemma walk_never_ends m head test l :
  BioCells.loopsb m head test l = true ->
  forall fuel p, In p l -> walk fuel m head p test = None.
Proof.
  unfold BioCells.loopsb. rewrite forallb_forall. intros H.
  induction fuel as [|fuel IH]; intros p Hp; cbn [walk]; [reflexivity|].
  pose proof (H p Hp) as Hx. rewrite !andb_true_iff, !negb_true_iff in Hx.
  destruct Hx as [[H1 H2] H3]. rewrite H1, H2. apply IH.
  apply existsb_exists in H3. destruct H3 as (y & Hy & E).
  apply ptr_eqb_eq in E. now rewrite E.
Qed.

(** bget in a state in which the walk of the home bucket for the block
    gets into a ring of nodes that does not hold the sentinel. *)
Lemma bget_never_ends fuel self d blk s l :
  bucket_lock s (dhash d blk) = false ->
  BioCells.loopsb (mem s) (Bucket (dhash d blk)) (is_block d blk) l = true ->
  existsb (ptr_eqb (next (mem s (Bucket (dhash d blk))))) l = true ->
  bget fuel self d blk s = Timeout.
Proof.
  intros Hl Hloop Hin. unfold bget. rewrite bind_acquire, Hl. name_state s0 H0.
  rewrite bind_find_in_bucket.
  assert (M0 : mem s0 = mem s) by (rewrite H0; reflexivity).
  rewrite M0. rewrite (walk_never_ends _ _ _ l Hloop); [reflexivity|].
  apply existsb_exists in Hin. destruct Hin as (y & Hy & E).
  apply ptr_eqb_eq in E. now rewrite E.
Qed.

(** C5 fails on the code.  The run of C2 ends, all its calls having
    returned, in a state with no bucket lock held in which 24 of the 30
    buffers have refcnt 0 and none carries block 12 of device 1, whose
    home is bucket 0.  The list of bucket 0 now leads through bucket 2
    into bucket 1 and round bucket 1 for ever, never back to the sentinel
    of bucket 0: the first loop of bget for that block has no end,
    whatever the fuel, so bget neither returns a buffer nor panics. *)
Theorem bget_never_ends_after_two_steals :
  finishes (lab_binit (boot blank_disk)) = true /\
  answers (lab_bread 1 fresh) (Buf 27) = true /\
  answers (lab_bread 14 held1) (Buf 14) = true /\
  answers (lab_bread 27 held2) (Buf 1) = true /\
  answers (lab_bread 40 crowded) (Buf 21) = true /\
  finishes (brelse 1 (Buf 21) stolen_read) = true /\
  answers (lab_bread 0 released) (Buf 20) = true /\
  answers (lab_bread 13 held3) (Buf 7) = true /\
  answers (lab_bread 26 crowded_again) (Buf 21) = true /\
  forallb (fun j => negb (bucket_lock stolen_twice j)) (seq 0 NBUCKET) = true /\
  length (filter (fun i => is_unused (mem stolen_twice (Buf i))) (seq 0 lab_NBUF))
    = 24%nat /\
  existsb (fun i => is_block 1 12 (mem stolen_twice (Buf i))) (seq 0 lab_NBUF)
    = false /\
  dhash 1 12 = 0%nat /\
  nodes 9 (mem stolen_twice) (next (mem stolen_twice (Bucket 0))) =
    [Buf 27; Buf 14; Buf 1; Bucket 2; Buf 21; Buf 20; Buf 7; Bucket 1; Buf 21] /\
  (forall fuel, bget fuel 1 1 12 stolen_twice = Timeout) /\
  (forall fuel b s', bget fuel 1 1 12 stolen_twice <> Done b s') /\
  (forall fuel msg, bget fuel 1 1 12 stolen_twice <> Panic msg).
Proof.
  assert (T : forall fuel, bget fuel 1 1 12 stolen_twice = Timeout).
  { intros fuel.
    apply (bget_never_ends fuel 1 1 12 stolen_twice
             [Buf 27; Buf 14; Buf 1; Bucket 2; Buf 21; Buf 20; Buf 7; Bucket 1]);
      vm_compute; reflexivity. }
  do 14 (split; [vm_compute; reflexivity|]).
  split; [exact T|]. split.
  - intros fuel b s'. rewrite (T fuel). discriminate.
  - intros fuel msg. rewrite (T fuel). discriminate.
Qed.

(** C10, as stated, fails: the buffer is not in use for good.  On the
    cache as binit leaves it, bunpin of buffer 27, whose refcnt is 0,
    leaves refcnt at 2^32 - 1, and a bget for block 1 passes the buffer
    by and takes buffer 14; a bpin of buffer 27 then takes refcnt back
    to 0, and the same bget takes buffer 27. *)
Theorem refcnt_wraps_back_to_zero :
  refcnt (mem fresh (Buf 27)) = 0 /\
  answers (bget 64 1 1 1 fresh) (Buf 27) = true /\
  finishes (bunpin (Buf 27) fresh) = true /\
  refcnt (mem BioCells.unpinned (Buf 27)) = 2 ^ 32 - 1 /\
  is_unused (mem BioCells.unpinned (Buf 27)) = false /\
  answers (bget 64 1 1 1 BioCells.unpinned) (Buf 14) = true /\
  finishes (bpin (Buf 27) BioCells.unpinned) = true /\
  refcnt (mem BioCells.repinned (Buf 27)) = 0 /\
  is_unused (mem BioCells.repinned (Buf 27)) = true /\
  answers (bget 64 1 1 1 BioCells.repinned) (Buf 27) = true.
Proof.
  do 9 (split; [vm_compute; reflexivity|]). vm_compute. reflexivity.
Qed.


Lemma bget_panics_iff_all_in_use_witness :
  exists s Ls,
    binit lab_NBUF lab_bcache_buf lab_sizeof_buf (boot blank_disk) = Done tt s /\
    well_linked lab_NBUF s Ls /\ quiescent s /\
    ((exists msg, bget 64 1 1 40 s = Panic msg) <->
     ((forall i, In i (Ls (dhash 1 40)) -> is_block 1 40 (mem s (Buf i)) = false) /\
      (forall i, (i < lab_NBUF)%nat -> refcnt (mem s (Buf i)) <> 0))) /\
    ((forall i j, (j < NBUCKET)%nat -> In i (Ls j) -> refcnt (mem s (Buf i)) <> 0 ->
                  dhash (dev (mem s (Buf i))) (blockno (mem s (Buf i))) = j) ->
     ((exists msg, bget 64 1 1 40 s = Panic msg) <->
      (forall i, (i < lab_NBUF)%nat ->
         refcnt (mem s (Buf i)) <> 0 /\ is_block 1 40 (mem s (Buf i)) = false))) /\
    ((forall i, In i (Ls (dhash 1 40)) -> is_block 1 40 (mem s (Buf i)) = false) ->
     (exists i, (i < lab_NBUF)%nat /\ refcnt (mem s (Buf i)) = 0) ->
     (forall i, (i < lab_NBUF)%nat -> refcnt (mem s (Buf i)) = 0 ->
                locked (lock (mem s (Buf i))) = false) ->
     exists i s', (i < lab_NBUF)%nat /\ refcnt (mem s (Buf i)) = 0 /\
                  bget 64 1 1 40 s = Done (Buf i) s').
Proof.
  destruct (binit_spec lab_NBUF lab_bcache_buf lab_sizeof_buf (boot blank_disk))
    as (s & Ls & E & (Hch & HP & Hq & _) & _).
  { intros i. cbn. repeat split. }
  assert (Hwl : well_linked lab_NBUF s Ls) by (split; assumption).
  exists s, Ls. split; [exact E|]. split; [exact Hwl|]. split; [exact Hq|].
  apply (bget_panics_iff_all_in_use lab_NBUF 64 1 1 40 s Ls Hwl Hq).
  unfold lab_NBUF. lia.
Defined.

Lemma brelse_changes_refcnt_and_lock_only_witness :
  holds 1 (mem stolen_read (Buf 21)) /\
  exists s', brelse 1 (Buf 21) stolen_read = Done tt s' /\
    refcnt (mem s' (Buf 21)) = (refcnt (mem stolen_read (Buf 21)) - 1) mod 2 ^ 32 /\
    locked (lock (mem s' (Buf 21))) = false /\
    dev (mem s' (Buf 21)) = dev (mem stolen_read (Buf 21)) /\
    blockno (mem s' (Buf 21)) = blockno (mem stolen_read (Buf 21)) /\
    valid (mem s' (Buf 21)) = valid (mem stolen_read (Buf 21)) /\
    data (mem s' (Buf 21)) = data (mem stolen_read (Buf 21)) /\
    prev (mem s' (Buf 21)) = prev (mem stolen_read (Buf 21)) /\
    next (mem s' (Buf 21)) = next (mem stolen_read (Buf 21)) /\
    io s' = io stolen_read.
Proof.
  assert (H : holds 1 (mem stolen_read (Buf 21))).
  { split; vm_compute; reflexivity. }
  split; [exact H|].
  destruct (brelse_changes_refcnt_and_lock_only 1 (Buf 21) stolen_read H)
    as (s' & E & R & _ & L & D & Bn & V & Da & _ & P & N & _ & _ & I & _).
  { vm_compute. reflexivity. }
  exists s'. repeat split; assumption.
Defined.

End BioProofs.

(** * More of kernel/kalloc.c *)

Module KallocMore.
Import Kalloc KallocPages KallocProofs.

Lemma pages_from_S p n :
  pages_from p (S n) = p :: pages_from (p + PGSIZE) n.
Proof.
  unfold pages_from. cbn [seq map]. f_equal; [lia|].
  rewrite <- seq_shift, map_map. apply map_ext. intros k. lia.
Qed.

Lemma pages_below_stop p top : top < p + PGSIZE -> pages_below p top = 0%nat.
Proof.
  unfold pages_below, PGSIZE. intros H.
  pose proof (Z_div_mod_eq_full (top - p) 4096).
  pose proof (Z.mod_pos_bound (top - p) 4096 ltac:(lia)). lia.
Qed.

Lemma pages_below_step p top :
  p + PGSIZE <= top -> pages_below p top = S (pages_below (p + PGSIZE) top).
Proof.
  unfold pages_below, PGSIZE. intros H.
  pose proof (Z_div_mod_eq_full (top - p) 4096).
  pose proof (Z.mod_pos_bound (top - p) 4096 ltac:(lia)).
  pose proof (Z_div_mod_eq_full (top - (p + 4096)) 4096).
  pose proof (Z.mod_pos_bound (top - (p + 4096)) 4096 ltac:(lia)). lia.
Qed.

Lemma in_pages_from p0 n p :
  p0 mod PGSIZE = 0 ->
  (In p (pages_from p0 n) <->
   p mod PGSIZE = 0 /\ p0 <= p /\ p < p0 + Z.of_nat n * PGSIZE).
Proof.
  unfold pages_from, PGSIZE. intros H0. rewrite in_map_iff. split.
  - intros (k & <- & Hk). apply in_seq in Hk. split; [|lia].
    rewrite Z.mod_add by lia. exact H0.
  - intros (Hp & Hlo & Hhi).
    pose proof (Z_div_mod_eq_full p 4096). pose proof (Z_div_mod_eq_full p0 4096).
    exists (Z.to_nat (p / 4096 - p0 / 4096)). split; [lia|]. apply in_seq. lia.
Qed.

Section WithLayout.

Variable NCPU : nat.
Variable END : Z.
Variable PHYSTOP : Z.

Local Abbreviation kfree := (kfree END PHYSTOP).
Local Abbreviation kalloc := (kalloc NCPU).
Local Abbreviation frame_ok := (frame_ok END PHYSTOP).
Local Abbreviation quiescent := (quiescent NCPU).
Local Abbreviation heads_ok := (heads_ok NCPU END PHYSTOP).
Local Abbreviation pools_ok := (pools_ok NCPU END PHYSTOP).
Local Abbreviation on_freelist := (on_freelist NCPU).
Local Abbreviation reachable := (reachable NCPU END PHYSTOP).

Lemma pools_ok_ext s L L' :
  (forall i, L i = L' i) -> pools_ok s L -> pools_ok s L'.
Proof.
  intros E (Hq & Hl & Hnd & Hdis & Hfr). split; [exact Hq|]. split; [|split; [|split]].
  - intros i Hi. rewrite <- E. now apply Hl.
  - intros i Hi. rewrite <- E. now apply Hnd.
  - intros i j x Hi Hj. rewrite <- !E. now apply Hdis.
  - intros i x Hi. rewrite <- E. now apply Hfr.
Qed.

(** The loop of freerange, with the frames it frees. *)
Lemma freerange_loop_pages nc :
  (nc < NCPU)%nat -> 0 < END -> PHYSTOP + 2 * PGSIZE <= 2 ^ 64 ->
  forall fuel p s L,
    pools_ok s L -> p mod PGSIZE = 0 -> END <= p -> p < PHYSTOP + PGSIZE ->
    (forall i x, (i < NCPU)%nat -> In x (L i) -> x < p) ->
    (pages_below p PHYSTOP < fuel)%nat ->
    exists s', freerange_loop END PHYSTOP fuel nc p PHYSTOP s = Done tt s' /\
      pools_ok s' (upd_nat L nc (rev (pages_from p (pages_below p PHYSTOP)) ++ L nc)).
Proof.
  intros Hnc Hend Htop. induction fuel as [|fuel IH]; intros p s L Hok Hal Hlo Hhi Hlt Hf;
    [lia|].
  cbn [Kalloc.freerange_loop].
  assert (Hw : (p + PGSIZE) mod 2 ^ 64 = p + PGSIZE).
  { apply Z.mod_small. unfold PGSIZE in *. lia. }
  rewrite Hw. destruct (Z.leb_spec (p + PGSIZE) PHYSTOP) as [Hc|Hc].
  - assert (Hp : frame_ok p) by (unfold Kalloc.frame_ok, PGSIZE in *; lia).
    assert (Hfree : ~ on_freelist s p).
    { intros Hon. apply (pools_ok_on_freelist NCPU END PHYSTOP s L p Hok) in Hon.
      destruct Hon as (i & Hi & Hin). specialize (Hlt i p Hi Hin). lia. }
    destruct (kfree_preserves NCPU END PHYSTOP nc p s L Hend
                ltac:(unfold PGSIZE in *; lia) Hok Hnc Hp Hfree) as (s1 & E & Hok1).
    unfold bind. rewrite E.
    assert (Hal' : (p + PGSIZE) mod PGSIZE = 0).
    { rewrite <- Z.add_mod_idemp_l, Hal by (unfold PGSIZE; lia). apply Z.mod_same.
      unfold PGSIZE; lia. }
    rewrite (pages_below_step p PHYSTOP Hc) in *.
    destruct (IH (p + PGSIZE) s1 _ Hok1 Hal' ltac:(unfold PGSIZE in *; lia)
                ltac:(unfold PGSIZE in *; lia)) as (s' & E' & Hok').
    + intros i x Hi. destruct (Nat.eq_dec i nc) as [->|Hne].
      * rewrite upd_nat_same. intros [<-|Hin]; [unfold PGSIZE; lia|].
        specialize (Hlt nc x Hi Hin). unfold PGSIZE; lia.
      * rewrite upd_nat_other by exact Hne. intros Hin.
        specialize (Hlt i x Hi Hin). unfold PGSIZE; lia.
    + lia.
    + exists s'. split; [exact E'|]. revert Hok'. apply pools_ok_ext.
      intros i. destruct (Nat.eq_dec i nc) as [->|Hne].
      * rewrite !upd_nat_same, pages_from_S. cbn [rev]. now rewrite <- app_assoc.
      * now rewrite !upd_nat_other.
  - rewrite (pages_below_stop p PHYSTOP) by lia. cbn [pages_from rev app seq map].
    exists s. split; [reflexivity|]. revert Hok. apply pools_ok_ext.
    intros i. destruct (Nat.eq_dec i nc) as [->|Hne].
    + now rewrite upd_nat_same.
    + now rewrite upd_nat_other.
Qed.

Lemma frame_not_null p : 0 < END -> frame_ok p -> p <> 0.
Proof. unfold Kalloc.frame_ok. lia. Qed.

(** kalloc when the pool of the CPU is not empty. *)
Lemma kalloc_local nc s :
  lock (kmem s nc) = false -> freelist (kmem s nc) <> 0 ->
  exists s', kalloc nc s = Done (freelist (kmem s nc)) s' /\
    ram s' = memset (ram s) (freelist (kmem s nc)) 5 PGSIZE /\
    kmem s' nc = {| lock := false;
                    freelist := load_le (ram s) (freelist (kmem s nc)) 8 |} /\
    forall j, j <> nc -> kmem s' j = kmem s j.
Proof.
  intros Hl Hr. unfold Kalloc.kalloc.
  unfold acquire, release, get_freelist, set_freelist, do_memset, get_next,
    bind, ret, gets, modify; cbn [ram kmem lock freelist].
  rewrite Hl. cbn [ram kmem]. rewrite upd_nat_same. cbn [freelist lock].
  assert (Hp : negb (freelist (kmem s nc) =? 0) = true).
  { apply negb_true_iff. now apply Z.eqb_neq. }
  rewrite Hp. cbn [ram kmem]. rewrite Hp. cbn [ram kmem].
  eexists. split; [reflexivity|]. cbn [ram kmem].
  split; [reflexivity|]. split.
  - now rewrite !upd_nat_same.
  - intros j Hj. now rewrite !upd_nat_other.
Qed.

(** The free frames after kalloc, when the pools are lists of distinct
    good frames. *)
Lemma kalloc_removes nc s L :
  0 < END -> pools_ok s L -> (nc < NCPU)%nat ->
  exists r s' L', kalloc nc s = Done r s' /\ pools_ok s' L' /\
    (r = 0 -> forall p, on_freelist s' p <-> on_freelist s p) /\
    (r <> 0 -> frame_ok r /\ on_freelist s r /\ ~ on_freelist s' r /\
               forall p, on_freelist s' p <-> on_freelist s p /\ p <> r).
Proof.
  intros Hend Hok Hnc.
  destruct (kalloc_preserves NCPU END PHYSTOP nc s L Hok Hnc)
    as (r & s' & E & [[Hr Hok']|(Hr & k & l & Hk & HL & Hok')]).
  - exists r, s', L. split; [exact E|]. split; [exact Hok'|]. split; [|congruence].
    intros _ p. rewrite (pools_ok_on_freelist NCPU END PHYSTOP s' L p Hok').
    now rewrite (pools_ok_on_freelist NCPU END PHYSTOP s L p Hok).
  - exists r, s', (upd_nat L k l). split; [exact E|]. split; [exact Hok'|].
    pose proof (frame_not_null r Hend Hr) as Hr0. split; [congruence|]. intros _.
    pose proof Hok as (_ & _ & Hnd & Hdis & _).
    assert (Hiff : forall p, on_freelist s' p <-> on_freelist s p /\ p <> r).
    { intros p. rewrite (pools_ok_on_freelist NCPU END PHYSTOP s' _ p Hok').
      rewrite (pools_ok_on_freelist NCPU END PHYSTOP s L p Hok). split.
      - intros (i & Hi & Hin). destruct (Nat.eq_dec i k) as [->|Hne].
        + rewrite upd_nat_same in Hin. split.
          * exists k. split; [exact Hi|]. rewrite HL. now right.
          * intros ->. specialize (Hnd k Hk). rewrite HL in Hnd.
            inversion Hnd; subst. contradiction.
        + rewrite upd_nat_other in Hin by exact Hne. split.
          * now exists i.
          * intros ->. apply Hne. apply (Hdis i k r Hi Hk Hin).
            rewrite HL. now left.
      - intros ((i & Hi & Hin) & Hne). exists i. split; [exact Hi|].
        destruct (Nat.eq_dec i k) as [->|Hik].
        + rewrite upd_nat_same. rewrite HL in Hin. destruct Hin; congruence.
        + now rewrite upd_nat_other. }
    split; [exact Hr|]. split; [|split; [|exact Hiff]].
    + apply (pools_ok_on_freelist NCPU END PHYSTOP s L r Hok).
      exists k. split; [exact Hk|]. rewrite HL. now left.
    + intros H. apply Hiff in H. now destruct H.
Qed.

(** The free frames after kfree of a frame that was not free. *)
Lemma kfree_adds nc pa s L :
  0 < END -> PHYSTOP <= 2 ^ 64 ->
  pools_ok s L -> (nc < NCPU)%nat -> frame_ok pa -> ~ on_freelist s pa ->
  exists s' L', kfree nc pa s = Done tt s' /\ pools_ok s' L' /\
    forall p, on_freelist s' p <-> p = pa \/ on_freelist s p.
Proof.
  intros Hend Htop Hok Hnc Hpa Hfree.
  destruct (kfree_preserves NCPU END PHYSTOP nc pa s L Hend Htop Hok Hnc Hpa Hfree)
    as (s' & E & Hok').
  exists s', (upd_nat L nc (pa :: L nc)). split; [exact E|]. split; [exact Hok'|].
  intros p. rewrite (pools_ok_on_freelist NCPU END PHYSTOP s' _ p Hok').
  rewrite (pools_ok_on_freelist NCPU END PHYSTOP s L p Hok). split.
  - intros (i & Hi & Hin). destruct (Nat.eq_dec i nc) as [->|Hne].
    + rewrite upd_nat_same in Hin. destruct Hin as [<-|Hin]; [now left|].
      right. now exists nc.
    + rewrite upd_nat_other in Hin by exact Hne. right. now exists i.
  - intros [->|(i & Hi & Hin)].
    + exists nc. split; [exact Hnc|]. rewrite upd_nat_same. now left.
    + exists i. split; [exact Hi|]. destruct (Nat.eq_dec i nc) as [->|Hne].
      * rewrite upd_nat_same. now right.
      * now rewrite upd_nat_other.
Qed.

(** ** kinit and freerange *)

(** X1.  After kinit on CPU [cpu0] the pool of that CPU holds exactly the
    page-aligned frames that lie wholly between [end] and PHYSTOP, the
    other pools are empty and no lock is held.  A range shorter than a
    page frees nothing. *)
Theorem kinit_frees_every_page fuel cpu0 boot0 :
  (cpu0 < NCPU)%nat -> 0 < END -> END <= PHYSTOP ->
  PHYSTOP + 2 * PGSIZE <= 2 ^ 64 ->
  (forall i, (i < NCPU)%nat -> freelist (kmem boot0 i) = 0) ->
  (pages_below (PGROUNDUP END) PHYSTOP < fuel)%nat ->
  exists s, kinit NCPU END PHYSTOP fuel cpu0 boot0 = Done tt s /\
    quiescent s /\
    (forall i, (i < NCPU)%nat -> i <> cpu0 -> freelist (kmem s i) = 0) /\
    (forall p, reach (ram s) (freelist (kmem s cpu0)) p <->
               p mod PGSIZE = 0 /\ END <= p /\ p + PGSIZE <= PHYSTOP).
Proof.
  intros Hnc Hend Hle Htop Hz Hfuel. unfold Kalloc.kinit, bind.
  destruct (initlocks_spec (seq 0 NCPU) boot0) as (s1 & E & Hram & Hfl & Hin & _).
  rewrite E. unfold Kalloc.freerange.
  destruct (PGROUNDUP_spec END ltac:(lia) ltac:(unfold PGSIZE in *; lia)) as (Ha & Hb).
  assert (Hok1 : pools_ok s1 (fun _ => [])).
  { split; [|split; [|split; [|split]]].
    - intros i Hi. apply Hin. apply in_seq. lia.
    - intros i Hi. cbn. rewrite Hfl. now apply Hz.
    - intros i Hi. constructor.
    - intros i j x _ _ [].
    - intros i x _ []. }
  destruct (freerange_loop_pages cpu0 Hnc Hend Htop fuel (PGROUNDUP END) s1 _ Hok1 Ha
              ltac:(lia) ltac:(lia)) as (s & Es & Hok).
  - intros i x _ [].
  - exact Hfuel.
  - exists s. split; [exact Es|]. pose proof Hok as (Hq & Hl & _).
    split; [exact Hq|]. split.
    + intros i Hi Hne. specialize (Hl i Hi). rewrite upd_nat_other in Hl by exact Hne.
      exact Hl.
    + intros p. specialize (Hl cpu0 Hnc). rewrite upd_nat_same, app_nil_r in Hl.
      rewrite (flist_reach _ _ _ p Hl), <- in_rev, (in_pages_from _ _ _ Ha).
      unfold pages_below, PGSIZE in *.
      pose proof (Z_div_mod_eq_full (PHYSTOP - PGROUNDUP END) 4096).
      pose proof (Z.mod_pos_bound (PHYSTOP - PGROUNDUP END) 4096 ltac:(lia)).
      pose proof (Z_div_mod_eq_full p 4096).
      pose proof (Z_div_mod_eq_full (PGROUNDUP END) 4096).
      split; intros (Hp & Hlo & Hhi); (split; [exact Hp|]); lia.
Qed.

(** ** kalloc and kfree on the lists *)

(** X2.  In every state reached after kinit, kalloc returns; a frame it
    returns was on a free list before and is on none afterwards, every
    other frame stays where it was, and the next kalloc, on any CPU, does
    not return that frame again. *)
Theorem kalloc_hands_out_each_frame_once boot0 cpu0 s nc :
  (cpu0 < NCPU)%nat -> 0 < END -> END <= PHYSTOP ->
  PHYSTOP + 2 * PGSIZE <= 2 ^ 64 ->
  (forall i, (i < NCPU)%nat -> freelist (kmem boot0 i) = 0) ->
  reachable boot0 cpu0 s -> (nc < NCPU)%nat ->
  exists r s', kalloc nc s = Done r s' /\
    (r = 0 -> forall p, on_freelist s' p <-> on_freelist s p) /\
    (r <> 0 -> on_freelist s r /\ ~ on_freelist s' r /\
               forall p, on_freelist s' p <-> on_freelist s p /\ p <> r) /\
    forall nc', (nc' < NCPU)%nat ->
      exists r' s'', kalloc nc' s' = Done r' s'' /\ (r' <> 0 -> r' <> r).
Proof.
  intros Hc Hend Hle Htop Hz R Hnc.
  destruct (reachable_pools_ok NCPU END PHYSTOP boot0 cpu0 s Hc Hend Hle Htop Hz R)
    as [L Hok].
  destruct (kalloc_removes nc s L Hend Hok Hnc) as (r & s' & L' & E & Hok' & H0 & H1).
  exists r, s'. split; [exact E|]. split; [exact H0|]. split.
  - intros Hr. destruct (H1 Hr) as (_ & Ha & Hb & Hc').
    split; [exact Ha|]. split; [exact Hb|exact Hc'].
  - intros nc' Hnc'.
    destruct (kalloc_removes nc' s' L' Hend Hok' Hnc') as (r' & s'' & _ & E' & _ & _ & H1').
    exists r', s''. split; [exact E'|]. intros Hr' ->.
    destruct (H1' Hr') as (_ & Ha & _). destruct (H1 Hr') as (_ & _ & Hb & _).
    contradiction.
Qed.

(** X3.  In every state reached after kinit, kfree of a good frame that is
    not free returns and makes that frame, and no other, free. *)
Theorem kfree_frees_exactly_the_frame boot0 cpu0 s nc pa :
  (cpu0 < NCPU)%nat -> 0 < END -> END <= PHYSTOP ->
  PHYSTOP + 2 * PGSIZE <= 2 ^ 64 ->
  (forall i, (i < NCPU)%nat -> freelist (kmem boot0 i) = 0) ->
  reachable boot0 cpu0 s -> (nc < NCPU)%nat ->
  frame_ok pa -> ~ on_freelist s pa ->
  exists s', kfree nc pa s = Done tt s' /\
    forall p, on_freelist s' p <-> p = pa \/ on_freelist s p.
Proof.
  intros Hc Hend Hle Htop Hz R Hnc Hpa Hfree.
  destruct (reachable_pools_ok NCPU END PHYSTOP boot0 cpu0 s Hc Hend Hle Htop Hz R)
    as [L Hok].
  destruct (kfree_adds nc pa s L Hend ltac:(unfold PGSIZE in *; lia) Hok Hnc Hpa Hfree)
    as (s' & _ & E & _ & H).
  now exists s'.
Qed.

(** X4.  In every state reached after kinit, a frame that kalloc returned can
    be given back with kfree on any CPU, and the set of free frames is
    then what it was before the kalloc. *)
Theorem kalloc_kfree_restores_free_frames boot0 cpu0 s nc nc' :
  (cpu0 < NCPU)%nat -> 0 < END -> END <= PHYSTOP ->
  PHYSTOP + 2 * PGSIZE <= 2 ^ 64 ->
  (forall i, (i < NCPU)%nat -> freelist (kmem boot0 i) = 0) ->
  reachable boot0 cpu0 s -> (nc < NCPU)%nat -> (nc' < NCPU)%nat ->
  exists r s', kalloc nc s = Done r s' /\
    (r <> 0 ->
     exists s'', kfree nc' r s' = Done tt s'' /\
       forall p, on_freelist s'' p <-> on_freelist s p).
Proof.
  intros Hc Hend Hle Htop Hz R Hnc Hnc'.
  destruct (reachable_pools_ok NCPU END PHYSTOP boot0 cpu0 s Hc Hend Hle Htop Hz R)
    as [L Hok].
  destruct (kalloc_removes nc s L Hend Hok Hnc) as (r & s' & L' & E & Hok' & _ & H1).
  exists r, s'. split; [exact E|]. intros Hr.
  destruct (H1 Hr) as (Hfr & Hon & Hoff & Hiff).
  destruct (kfree_adds nc' r s' L' Hend ltac:(unfold PGSIZE in *; lia) Hok' Hnc' Hfr Hoff)
    as (s'' & _ & E' & _ & H).
  exists s''. split; [exact E'|]. intros p. rewrite H, Hiff.
  destruct (Z.eq_dec p r) as [->|Hne]; tauto.
Qed.

(** ** What kfree and kalloc write *)

(** X5.  kfree of a good frame, with the lock of the pool free: the frame
    becomes the head of the pool of the CPU, its first word holds the old
    head, every other byte of it is 1, and memory outside the frame, the
    other pools and all locks are as before. *)
Theorem kfree_fills_frame_with_ones nc pa s :
  frame_ok pa -> lock (kmem s nc) = false ->
  exists s', kfree nc pa s = Done tt s' /\
    freelist (kmem s' nc) = pa /\ lock (kmem s' nc) = false /\
    load_le (ram s') pa 8 = freelist (kmem s nc) mod 2 ^ 64 /\
    (forall a, pa + 8 <= a < pa + PGSIZE -> ram s' a = 1) /\
    (forall a, a < pa \/ pa + PGSIZE <= a -> ram s' a = ram s a) /\
    (forall j, j <> nc -> kmem s' j = kmem s j).
Proof.
  intros Hpa Hl. destruct (kfree_done END PHYSTOP nc pa s Hpa Hl)
    as (s' & E & Hram & Hk & Ho).
  exists s'. split; [exact E|]. rewrite Hk, Hram. cbn [freelist lock].
  split; [reflexivity|]. split; [reflexivity|]. split; [|split; [|split; [|exact Ho]]].
  - apply load_store_le.
  - intros a Ha. rewrite store_le_out by lia. rewrite memset_in by lia. reflexivity.
  - intros a Ha. rewrite store_le_out by (unfold PGSIZE in *; lia).
    apply memset_out. lia.
Qed.

(** X6.  kalloc in a state in which no lock is held and the head of every
    pool that is not empty is a frame in [end, PHYSTOP): it returns with
    no lock held; a null result leaves memory and all pools as they were;
    otherwise the result is such a frame, memory outside it is as before,
    and one pool has lost its head while the others are unchanged. *)
Theorem kalloc_writes_only_its_page nc s :
  (nc < NCPU)%nat -> quiescent s -> heads_ok s ->
  exists r s', kalloc nc s = Done r s' /\ quiescent s' /\
    (r = 0 -> ram s' = ram s /\ forall j, kmem s' j = kmem s j) /\
    (forall a, a < r \/ r + PGSIZE <= a -> ram s' a = ram s a) /\
    (r <> 0 -> frame_ok r /\
               exists k, (k < NCPU)%nat /\ freelist (kmem s k) = r /\
                 freelist (kmem s' k) = load_le (ram s) r 8 /\
                 forall j, j <> k -> kmem s' j = kmem s j).
Proof.
  intros Hnc Hq Hheads. pose proof (kalloc_spec NCPU nc s Hnc Hq) as H.
  destruct (find (nonempty s) (probe_order NCPU nc)) as [k|] eqn:Hf.
  - cbv zeta in H. destruct H as (s' & E & Hr & Hram & Hk & Ho).
    apply find_some in Hf. destruct Hf as [Hin _].
    apply (probe_order_bound NCPU nc k ltac:(lia)) in Hin.
    exists (freelist (kmem s k)), s'. split; [exact E|]. split; [|split; [|split]].
    + intros j Hj. destruct (Nat.eq_dec j k) as [->|Hne].
      * now rewrite Hk.
      * rewrite Ho by exact Hne. now apply Hq.
    + intros Hz. contradiction.
    + intros a Ha. rewrite Hram. apply memset_out. exact Ha.
    + intros _. split; [now apply Hheads|].
      exists k. split; [exact Hin|]. split; [reflexivity|].
      split; [now rewrite Hk|exact Ho].
  - destruct H as (s' & E & Hram & Hkm). exists 0, s'. split; [exact E|].
    split; [|split; [|split]].
    + intros j Hj. rewrite Hkm. now apply Hq.
    + intros _. now split.
    + intros a _. now rewrite Hram.
    + intros Hz. contradiction.
Qed.

(** ** Last in, first out *)

(** X7.  Two different good frames freed on one CPU come back from kalloc on
    that CPU in the opposite order, and the head of the pool is then what
    it was before the first kfree. *)
Theorem kalloc_returns_last_freed_first nc p q s :
  0 < END -> PHYSTOP <= 2 ^ 64 ->
  frame_ok p -> frame_ok q -> p <> q ->
  lock (kmem s nc) = false -> 0 <= freelist (kmem s nc) < 2 ^ 64 ->
  exists s1 s2 s3 s4,
    kfree nc p s = Done tt s1 /\ kfree nc q s1 = Done tt s2 /\
    kalloc nc s2 = Done q s3 /\ kalloc nc s3 = Done p s4 /\
    freelist (kmem s4 nc) = freelist (kmem s nc).
Proof.
  intros Hend Htop Hp Hq Hne Hl Hhd.
  destruct (kfree_done END PHYSTOP nc p s Hp Hl) as (s1 & E1 & R1 & K1 & _).
  assert (Hl1 : lock (kmem s1 nc) = false) by now rewrite K1.
  destruct (kfree_done END PHYSTOP nc q s1 Hq Hl1) as (s2 & E2 & R2 & K2 & _).
  assert (Hl2 : lock (kmem s2 nc) = false) by now rewrite K2.
  assert (Hf2 : freelist (kmem s2 nc) = q) by now rewrite K2.
  destruct (kalloc_local nc s2 Hl2) as (s3 & E3 & R3 & K3 & _).
  { rewrite Hf2. now apply frame_not_null. }
  rewrite Hf2 in E3, R3, K3.
  assert (Hpw : 0 <= p < 2 ^ 64) by (unfold Kalloc.frame_ok in Hp; lia).
  assert (Hw2 : load_le (ram s2) q 8 = p).
  { rewrite R2, K1. cbn [freelist]. now apply load_store_word. }
  rewrite Hw2 in K3.
  assert (Hl3 : lock (kmem s3 nc) = false) by now rewrite K3.
  assert (Hf3 : freelist (kmem s3 nc) = p) by now rewrite K3.
  destruct (kalloc_local nc s3 Hl3) as (s4 & E4 & R4 & K4 & _).
  { rewrite Hf3. now apply frame_not_null. }
  rewrite Hf3 in E4, R4, K4.
  exists s1, s2, s3, s4. repeat (split; [assumption|]).
  rewrite K4. cbn [freelist]. rewrite R3.
  destruct (frame_ok_word END PHYSTOP q p Hq Hp Hne) as [Hw|Hw].
  - rewrite load_memset_other by (unfold PGSIZE in *; lia).
    rewrite R2, load_store_word_other, load_memset_other
      by (unfold PGSIZE in *; lia).
    rewrite R1. now apply load_store_word.
  - rewrite load_memset_other by (unfold PGSIZE in *; lia).
    rewrite R2, load_store_word_other, load_memset_other
      by (unfold PGSIZE in *; lia).
    rewrite R1. now apply load_store_word.
Qed.

(** ** A frame freed on one CPU, allocated on another *)

(** X8.  With all pools empty and no lock held, a good frame freed on CPU [a]
    is what the next kalloc returns on any CPU [b], filled with 5s; all
    pools are empty again afterwards. *)
Theorem kalloc_steals_from_other_cpu a b p s :
  0 < END -> (a < NCPU)%nat -> (b < NCPU)%nat -> frame_ok p -> quiescent s ->
  (forall i, (i < NCPU)%nat -> freelist (kmem s i) = 0) ->
  exists s1 s2, kfree a p s = Done tt s1 /\ kalloc b s1 = Done p s2 /\
    (forall x, p <= x < p + PGSIZE -> ram s2 x = 5) /\
    (forall i, (i < NCPU)%nat -> freelist (kmem s2 i) = 0).
Proof.
  intros Hend Ha Hb Hp Hq Hz.
  destruct (kfree_done END PHYSTOP a p s Hp (Hq a Ha)) as (s1 & E1 & R1 & K1 & O1).
  assert (Hq1 : quiescent s1).
  { intros i Hi. destruct (Nat.eq_dec i a) as [->|Hne].
    - now rewrite K1.
    - rewrite O1 by exact Hne. now apply Hq. }
  assert (Hne1 : forall k, (k < NCPU)%nat -> nonempty s1 k = true -> k = a).
  { intros k Hk Hn. destruct (Nat.eq_dec k a) as [->|Hne]; [reflexivity|].
    unfold nonempty in Hn. rewrite O1, (Hz k Hk) in Hn by exact Hne. discriminate. }
  pose proof (frame_not_null p Hend Hp) as Hp0.
  assert (Hna : nonempty s1 a = true).
  { unfold nonempty. rewrite K1. cbn [freelist]. apply negb_true_iff.
    now apply Z.eqb_neq. }
  pose proof (kalloc_spec NCPU b s1 Hb Hq1) as H.
  destruct (find (nonempty s1) (probe_order NCPU b)) as [k|] eqn:Hf.
  - cbv zeta in H. destruct H as (s2 & E2 & _ & R2 & K2 & O2).
    apply find_some in Hf. destruct Hf as [Hin Hn].
    apply (probe_order_bound NCPU b k ltac:(lia)) in Hin.
    pose proof (Hne1 k Hin Hn) as ->. rewrite K1 in E2, R2, K2. cbn [freelist] in *.
    exists s1, s2. split; [exact E1|]. split; [exact E2|]. split.
    + intros x Hx. rewrite R2. rewrite memset_in by exact Hx. reflexivity.
    + intros i Hi. destruct (Nat.eq_dec i a) as [->|Hne].
      * rewrite K2. cbn [freelist]. rewrite R1, load_store_le, (Hz a Ha). reflexivity.
      * rewrite O2, O1 by exact Hne. now apply Hz.
  - exfalso. pose proof (find_none _ _ Hf) as Hnone.
    destruct (probe_covers NCPU b a Ha) as (i & Hi & Hia).
    assert (Hin : In a (probe_order NCPU b)).
    { unfold Kalloc.probe_order. apply in_map_iff. exists i. split; [exact Hia|].
      apply in_seq. lia. }
    specialize (Hnone a Hin). congruence.
Qed.

End WithLayout.

(** *** The statements at work on the small machine *)

Lemma finishes_done (o : outcome kstate unit) :
  finishes o = true -> o = Done tt (state_of o).
Proof. destruct o as [[] s| | |]; cbn; intros H; [reflexivity|discriminate..]. Qed.

Lemma answers_done (o : outcome kstate Z) v :
  answers o v = true -> o = Done v (state_of o).
Proof.
  destruct o as [r s| | |]; cbn; intros H; try discriminate.
  apply Z.eqb_eq in H. now subst.
Qed.

Lemma Done_inj {St A} (a b : A) (s t : St) :
  Done a s = Done b t -> a = b /\ s = t.
Proof. intros H. injection H as -> ->. now split. Qed.

Local Abbreviation booted :=
  (state_of (kinit small_NCPU small_END small_PHYSTOP 17 0%nat boot)).

Lemma booted_reachable :
  reachable small_NCPU small_END small_PHYSTOP boot 0%nat booted.
Proof.
  apply (after_kinit small_NCPU small_END small_PHYSTOP boot 0%nat 17).
  apply finishes_done. vm_compute. reflexivity.
Qed.

Lemma kinit_frees_every_page_witness :
  exists s, kinit small_NCPU small_END small_PHYSTOP 17 0%nat boot = Done tt s /\
    quiescent small_NCPU s /\
    (forall i, (i < small_NCPU)%nat -> i <> 0%nat -> freelist (kmem s i) = 0) /\
    (forall p, reach (ram s) (freelist (kmem s 0%nat)) p <->
               p mod PGSIZE = 0 /\ small_END <= p /\ p + PGSIZE <= small_PHYSTOP).
Proof.
  apply (kinit_frees_every_page small_NCPU small_END small_PHYSTOP 17 0%nat boot).
  - unfold small_NCPU. lia.
  - unfold small_END. lia.
  - unfold small_END, small_PHYSTOP. lia.
  - unfold small_PHYSTOP, PGSIZE. lia.
  - intros i Hi. reflexivity.
  - vm_compute. lia.
Defined.

Local Abbreviation allocated := (state_of (kalloc small_NCPU 0%nat booted)).

Lemma allocated_top_page :
  kalloc small_NCPU 0%nat booted = Done top_page allocated.
Proof. apply answers_done. vm_compute. reflexivity. Qed.

Lemma allocated_reachable :
  reachable small_NCPU small_END small_PHYSTOP boot 0%nat allocated.
Proof.
  apply (after_kalloc small_NCPU small_END small_PHYSTOP boot 0%nat booted 0%nat top_page).
  - exact booted_reachable.
  - unfold small_NCPU. lia.
  - exact allocated_top_page.
Qed.

Lemma top_page_allocated : ~ on_freelist small_NCPU allocated top_page.
Proof.
  destruct (reachable_pools_ok small_NCPU small_END small_PHYSTOP boot 0%nat booted)
    as [L Hok];
    [unfold small_NCPU; lia | unfold small_END; lia
    | unfold small_END, small_PHYSTOP; lia | unfold small_PHYSTOP, PGSIZE; lia
    | intros i Hi; reflexivity | exact booted_reachable |].
  destruct (kalloc_removes small_NCPU small_END small_PHYSTOP 0%nat booted L)
    as (r & s' & L' & E & _ & _ & H);
    [unfold small_END; lia | exact Hok | unfold small_NCPU; lia |].
  rewrite allocated_top_page in E. destruct (Done_inj _ _ _ _ E) as [<- <-].
  apply H. unfold top_page. lia.
Qed.

Lemma kalloc_hands_out_each_frame_once_witness :
  exists r s', kalloc small_NCPU 0%nat booted = Done r s' /\
    (r = 0 -> forall p, on_freelist small_NCPU s' p <-> on_freelist small_NCPU booted p) /\
    (r <> 0 -> on_freelist small_NCPU booted r /\ ~ on_freelist small_NCPU s' r /\
               forall p, on_freelist small_NCPU s' p <->
                         on_freelist small_NCPU booted p /\ p <> r) /\
    forall nc', (nc' < small_NCPU)%nat ->
      exists r' s'', kalloc small_NCPU nc' s' = Done r' s'' /\ (r' <> 0 -> r' <> r).
Proof.
  apply (kalloc_hands_out_each_frame_once small_NCPU small_END small_PHYSTOP
           boot 0%nat booted 0%nat).
  - unfold small_NCPU. lia.
  - unfold small_END. lia.
  - unfold small_END, small_PHYSTOP. lia.
  - unfold small_PHYSTOP, PGSIZE. lia.
  - intros i Hi. reflexivity.
  - exact booted_reachable.
  - unfold small_NCPU. lia.
Defined.

Lemma kfree_frees_exactly_the_frame_witness :
  exists s', kfree small_END small_PHYSTOP 3%nat top_page allocated = Done tt s' /\
    forall p, on_freelist small_NCPU s' p <->
              p = top_page \/ on_freelist small_NCPU allocated p.
Proof.
  apply (kfree_frees_exactly_the_frame small_NCPU small_END small_PHYSTOP
           boot 0%nat allocated 3%nat top_page).
  - unfold small_NCPU. lia.
  - unfold small_END. lia.
  - unfold small_END, small_PHYSTOP. lia.
  - unfold small_PHYSTOP, PGSIZE. lia.
  - intros i Hi. reflexivity.
  - exact allocated_reachable.
  - unfold small_NCPU. lia.
  - split; [reflexivity|]. unfold small_END, small_PHYSTOP, top_page. lia.
  - exact top_page_allocated.
Defined.

Lemma kalloc_kfree_restores_free_frames_witness :
  exists r s', kalloc small_NCPU 0%nat booted = Done r s' /\
    (r <> 0 ->
     exists s'', kfree small_END small_PHYSTOP 5%nat r s' = Done tt s'' /\
       forall p, on_freelist small_NCPU s'' p <-> on_freelist small_NCPU booted p).
Proof.
  apply (kalloc_kfree_restores_free_frames small_NCPU small_END small_PHYSTOP
           boot 0%nat booted 0%nat 5%nat).
  - unfold small_NCPU. lia.
  - unfold small_END. lia.
  - unfold small_END, small_PHYSTOP. lia.
  - unfold small_PHYSTOP, PGSIZE. lia.
  - intros i Hi. reflexivity.
  - exact booted_reachable.
  - unfold small_NCPU. lia.
  - unfold small_NCPU. lia.
Defined.

Lemma kfree_fills_frame_with_ones_witness :
  exists s', kfree small_END small_PHYSTOP 2%nat 0x80022000 boot = Done tt s' /\
    freelist (kmem s' 2%nat) = 0x80022000 /\ lock (kmem s' 2%nat) = false /\
    load_le (ram s') 0x80022000 8 = freelist (kmem boot 2%nat) mod 2 ^ 64 /\
    (forall a, 0x80022000 + 8 <= a < 0x80022000 + PGSIZE -> ram s' a = 1) /\
    (forall a, a < 0x80022000 \/ 0x80022000 + PGSIZE <= a -> ram s' a = ram boot a) /\
    (forall j, j <> 2%nat -> kmem s' j = kmem boot j).
Proof.
  apply (kfree_fills_frame_with_ones small_END small_PHYSTOP 2%nat 0x80022000 boot).
  - split; [reflexivity|]. unfold small_END, small_PHYSTOP. lia.
  - reflexivity.
Defined.

Lemma kalloc_writes_only_its_page_witness :
  exists r s', kalloc small_NCPU 1%nat after_init = Done r s' /\
    quiescent small_NCPU s' /\
    (r = 0 -> ram s' = ram after_init /\ forall j, kmem s' j = kmem after_init j) /\
    (forall a, a < r \/ r + PGSIZE <= a -> ram s' a = ram after_init a) /\
    (r <> 0 -> frame_ok small_END small_PHYSTOP r /\
               exists k, (k < small_NCPU)%nat /\ freelist (kmem after_init k) = r /\
                 freelist (kmem s' k) = load_le (ram after_init) r 8 /\
                 forall j, j <> k -> kmem s' j = kmem after_init j).
Proof.
  apply (kalloc_writes_only_its_page small_NCPU small_END small_PHYSTOP 1%nat after_init).
  - unfold small_NCPU. lia.
  - exact after_init_quiescent.
  - exact after_init_heads_ok.
Defined.

Lemma kalloc_returns_last_freed_first_witness :
  exists s1 s2 s3 s4,
    kfree small_END small_PHYSTOP 0%nat 0x80022000 boot = Done tt s1 /\
    kfree small_END small_PHYSTOP 0%nat 0x80023000 s1 = Done tt s2 /\
    kalloc small_NCPU 0%nat s2 = Done 0x80023000 s3 /\
    kalloc small_NCPU 0%nat s3 = Done 0x80022000 s4 /\
    freelist (kmem s4 0%nat) = freelist (kmem boot 0%nat).
Proof.
  apply (kalloc_returns_last_freed_first small_NCPU small_END small_PHYSTOP
           0%nat 0x80022000 0x80023000 boot).
  - unfold small_END. lia.
  - unfold small_PHYSTOP. lia.
  - split; [reflexivity|]. unfold small_END, small_PHYSTOP. lia.
  - split; [reflexivity|]. unfold small_END, small_PHYSTOP. lia.
  - lia.
  - reflexivity.
  - cbn. lia.
Defined.

Lemma kalloc_steals_from_other_cpu_witness :
  exists s1 s2,
    kfree small_END small_PHYSTOP 0%nat 0x80022000 boot = Done tt s1 /\
    kalloc small_NCPU 3%nat s1 = Done 0x80022000 s2 /\
    (forall x, 0x80022000 <= x < 0x80022000 + PGSIZE -> ram s2 x = 5) /\
    (forall i, (i < small_NCPU)%nat -> freelist (kmem s2 i) = 0).
Proof.
  apply (kalloc_steals_from_other_cpu small_NCPU small_END small_PHYSTOP
           0%nat 3%nat 0x80022000 boot).
  - unfold small_END. lia.
  - unfold small_NCPU. lia.
  - unfold small_NCPU. lia.
  - split; [reflexivity|]. unfold small_END, small_PHYSTOP. lia.
  - intros i Hi. reflexivity.
  - intros i Hi. reflexivity.
Defined.

End KallocMore.

(** * More of kernel/bio.c *)

Module BioMore.
Import Bio BioCells BioProofs.

Lemma holds_dec self c :
  locked (lock c) && (pid (lock c) =? self) = true <-> holds self c.
Proof. unfold holds. now rewrite andb_true_iff, Z.eqb_eq. Qed.

Lemma not_holds self c :
  locked (lock c) && (pid (lock c) =? self) = false <-> ~ holds self c.
Proof.
  rewrite <- holds_dec. destruct (locked (lock c) && (pid (lock c) =? self));
    split; congruence.
Qed.

Lemma buf_eta (c : buf) :
  {| valid := valid c; disk := disk c; dev := dev c; blockno := blockno c;
     lock := lock c; refcnt := refcnt c; prev := prev c; next := next c;
     data := data c |} = c.
Proof. now destruct c. Qed.

(** ** bwrite *)

Lemma bwrite_done self b s :
  holds self (mem s b) ->
  exists s', bwrite self b s = Done tt s' /\
    mem s' = mem s /\ bucket_lock s' = bucket_lock s /\
    io s' = {| op_write := true; op_dev := dev (mem s b);
               op_blockno := blockno (mem s b) |} :: io s /\
    blocks s' (dev (mem s b)) (blockno (mem s b)) = data (mem s b) /\
    forall d n, d <> dev (mem s b) \/ n <> blockno (mem s b) ->
                blocks s' d n = blocks s d n.
Proof.
  unfold bwrite. run. intros H. apply holds_dec in H. rewrite H. cbn [negb].
  eexists. split; [reflexivity|]. cbn [mem bucket_lock blocks io].
  split; [reflexivity|]. split; [reflexivity|]. split; [reflexivity|]. split.
  - now rewrite !Z.eqb_refl.
  - intros d n [Hd|Hn].
    + apply Z.eqb_neq in Hd. now rewrite Hd.
    + apply Z.eqb_neq in Hn. rewrite Hn. now rewrite andb_false_r.
Qed.

(** X9.  bwrite panics exactly when the caller does not hold the sleep-lock of
    the buffer.  Otherwise it returns after one disk write: the block
    (dev, blockno) of the buffer now holds the data of the buffer, every
    other block and the whole cache are as before. *)
Theorem bwrite_writes_block_or_panics self b s :
  (bwrite self b s = Panic "bwrite" <-> ~ holds self (mem s b)) /\
  (holds self (mem s b) ->
   exists s', bwrite self b s = Done tt s' /\
     mem s' = mem s /\ bucket_lock s' = bucket_lock s /\
     io s' = {| op_write := true; op_dev := dev (mem s b);
                op_blockno := blockno (mem s b) |} :: io s /\
     blocks s' (dev (mem s b)) (blockno (mem s b)) = data (mem s b) /\
     forall d n, d <> dev (mem s b) \/ n <> blockno (mem s b) ->
                 blocks s' d n = blocks s d n).
Proof.
  split; [|apply bwrite_done].
  unfold bwrite. run. rewrite <- not_holds.
  destruct (locked (lock (mem s b)) && (pid (lock (mem s b)) =? self)); cbn;
    split; congruence.
Qed.

(** ** brelse *)

(** X10.  brelse panics exactly when the caller does not hold the sleep-lock
    of the buffer.  When it has returned, nobody holds that lock, so a
    second brelse of the buffer, or a bwrite, by whatever process,
    panics. *)
Theorem brelse_twice_panics self b s :
  (brelse self b s = Panic "brelse" <-> ~ holds self (mem s b)) /\
  (forall s', brelse self b s = Done tt s' ->
     holds self (mem s b) /\ locked (lock (mem s' b)) = false /\
     forall who, brelse who b s' = Panic "brelse" /\
                 bwrite who b s' = Panic "bwrite").
Proof.
  split.
  - rewrite <- not_holds. unfold brelse. run.
    destruct (locked (lock (mem s b)) && (pid (lock (mem s b)) =? self)) eqn:H;
      cbn [negb]; [|split; congruence].
    split; [|congruence]. rewrite !upd_same. cbn [dev blockno set_lock].
    match goal with |- context [if ?c then _ else _] => destruct c end; discriminate.
  - intros s' E.
    destruct (locked (lock (mem s b)) && (pid (lock (mem s b)) =? self)) eqn:H.
    + apply holds_dec in H.
      destruct (bucket_lock s (dhash (dev (mem s b)) (blockno (mem s b)))) eqn:Hl.
      { exfalso. revert E. unfold brelse. run. apply holds_dec in H. rewrite H.
        cbn [negb]. rewrite !upd_same. cbn [dev blockno set_lock]. rewrite Hl.
        discriminate. }
      destruct (brelse_done self b s H Hl) as (s1 & E1 & M1 & _).
      assert (s1 = s') by congruence. subst s1.
      assert (Hu : locked (lock (mem s' b)) = false) by now rewrite M1.
      split; [exact H|]. split; [exact Hu|]. intros who.
      unfold brelse, bwrite. run. rewrite Hu. cbn. split; reflexivity.
    + exfalso. revert E. unfold brelse. run. rewrite H. discriminate.
Qed.

(** ** bpin and bunpin *)

(** X11.  With the lock of its bucket free, bpin of a buffer raises its refcnt
    by one and changes nothing else, and bunpin after it puts the cache
    back exactly as it was. *)
Theorem bpin_bunpin_restores b s :
  bucket_lock s (dhash (dev (mem s b)) (blockno (mem s b))) = false ->
  0 <= refcnt (mem s b) < 2 ^ 32 ->
  exists s1 s2,
    bpin b s = Done tt s1 /\ bunpin b s1 = Done tt s2 /\
    mem s1 b = set_refcnt ((refcnt (mem s b) + 1) mod 2 ^ 32) (mem s b) /\
    (forall q, q <> b -> mem s1 q = mem s q) /\
    (forall q, mem s2 q = mem s q) /\
    (forall j, bucket_lock s2 j = bucket_lock s j) /\
    io s2 = io s /\ blocks s2 = blocks s.
Proof.
  intros Hl Hr.
  destruct (bpin_done b s Hl) as (s1 & E1 & M1 & O1 & L1 & I1 & B1).
  destruct (bunpin_done b s1) as (s2 & E2 & M2 & O2 & L2 & I2 & B2).
  { rewrite M1. cbn [dev blockno set_refcnt]. now rewrite L1. }
  exists s1, s2. split; [exact E1|]. split; [exact E2|]. split; [exact M1|].
  split; [exact O1|]. split; [|split; [|split; congruence]].
  - intros q. destruct (ptr_eqb q b) eqn:Eq.
    + apply ptr_eqb_eq in Eq. subst q. rewrite M2, M1. unfold set_refcnt.
      cbn [valid disk dev blockno lock refcnt prev next data].
      assert (E : ((refcnt (mem s b) + 1) mod 2 ^ 32 - 1) mod 2 ^ 32 = refcnt (mem s b)).
      { rewrite Zminus_mod_idemp_l.
        replace (refcnt (mem s b) + 1 - 1) with (refcnt (mem s b)) by lia.
        now apply Z.mod_small. }
      rewrite E. apply buf_eta.
    + apply ptr_eqb_neq in Eq. now rewrite O2, O1.
  - intros j. now rewrite L2, L1.
Qed.

(** ** bget: what it does to the cells *)

Section Fields.

Context {A : Type} (f : buf -> A).
Hypothesis Fn : forall p c, f (set_next p c) = f c.
Hypothesis Fp : forall p c, f (set_prev p c) = f c.

(** A field that is no link, across the steal. *)
Lemma bget_take_field self d blk h old b s r s' :
  bget_take self d blk h old b s = Done r s' ->
  r = b /\
  (forall q, q <> b -> f (mem s' q) = f (mem s q)) /\
  ((forall l c, f (set_lock l c) = f c) ->
   f (mem s' b) = f (take_over d blk (mem s b))).
Proof.
  unfold bget_take.
  exec. name_state s1 H1. exec. exec. name_state s2 H2. exec. exec.
  name_state s3 H3. exec. exec. name_state s4 H4. exec. name_state s5 H5.
  exec. exec. name_state s6 H6. exec. name_state s7 H7. exec.
  name_state s8 H8. exec. name_state s9 H9.
  rewrite bind_acquiresleep.
  destruct (locked (lock (mem s9 b))); [discriminate|].
  cbv beta. unfold ret. intros E. injection E as <- <-. cbn [mem].
  assert (G : forall q, f (mem s9 q) = f (upd (mem s) b (take_over d blk (mem s b)) q)).
  { intros q. rewrite H9; cbn [mem]. rewrite H8; cbn [mem].
    rewrite H7; cbn [mem]. rewrite (upd_agrees f) by apply Fn.
    rewrite H6; cbn [mem]. rewrite (upd_agrees f) by apply Fp.
    rewrite H5; cbn [mem]. rewrite (upd_agrees f) by apply Fp.
    rewrite H4; cbn [mem]. rewrite (upd_agrees f) by apply Fn.
    rewrite H3; cbn [mem]. rewrite (upd_agrees f) by apply Fp.
    rewrite H2; cbn [mem]. rewrite (upd_agrees f) by apply Fn.
    rewrite H1; cbn [mem]. reflexivity. }
  split; [reflexivity|]. split.
  - intros q Hq. rewrite upd_other by exact Hq. rewrite G. now rewrite upd_other.
  - intros Fl. rewrite upd_same, Fl, G. now rewrite upd_same.
Qed.

Lemma bget_steal_field fuel self d blk h : forall n i s b s',
  bget_steal n i fuel self d blk h s = Done b s' ->
  is_unused (mem s b) = true /\
  (forall q, q <> b -> f (mem s' q) = f (mem s q)) /\
  ((forall l c, f (set_lock l c) = f c) ->
   f (mem s' b) = f (take_over d blk (mem s b))).
Proof.
  induction n as [|n IH]; intros i s b s'; cbn [bget_steal]; [discriminate|].
  set (old := ((h + i) mod NBUCKET)%nat).
  rewrite bind_acquire. destruct (bucket_lock s old) eqn:Hl; [discriminate|].
  name_state s0 H0. rewrite bind_find_in_bucket.
  assert (M0 : mem s0 = mem s) by (rewrite H0; reflexivity).
  destruct (walk fuel (mem s0) (Bucket old) (next (mem s0 (Bucket old))) is_unused)
    as [[b1|]|] eqn:W; [| |discriminate].
  - intros E. destruct (bget_take_field _ _ _ _ _ _ _ _ _ E) as (-> & P1 & P2).
    rewrite M0 in *. split; [|split; assumption].
    now destruct (walk_found _ _ _ _ _ _ W).
  - exec. name_state s1 H1. intros E.
    assert (M1 : mem s1 = mem s) by (rewrite H1; exact M0).
    destruct (IH (S i) s1 b s' E) as (P0 & P1 & P2). rewrite M1 in *.
    split; [exact P0|]. split; assumption.
Qed.

End Fields.

Lemma bget_steal_disk fuel self d blk h : forall n i s b s',
  bget_steal n i fuel self d blk h s = Done b s' ->
  io s' = io s /\ blocks s' = blocks s.
Proof.
  induction n as [|n IH]; intros i s b s'; cbn [bget_steal]; [discriminate|].
  set (old := ((h + i) mod NBUCKET)%nat).
  rewrite bind_acquire. destruct (bucket_lock s old) eqn:Hl; [discriminate|].
  name_state s0 H0. rewrite bind_find_in_bucket.
  assert (I0 : io s0 = io s /\ blocks s0 = blocks s) by (rewrite H0; now split).
  destruct (walk fuel (mem s0) (Bucket old) (next (mem s0 (Bucket old))) is_unused)
    as [[b1|]|] eqn:W; [| |discriminate].
  - pose proof (bget_take_run self d blk h old b1 s0) as T.
    destruct (locked (lock (mem s0 b1))); [congruence|].
    destruct T as (s9 & E9 & _ & _ & _ & _ & _ & _ & P7 & P8).
    rewrite E9. intros E. injection E as <- <-. rewrite P7, P8. exact I0.
  - exec. name_state s1 H1. intros E.
    destruct (IH (S i) s1 b s' E) as [P1 P2]. rewrite P1, P2, H1. exact I0.
Qed.

Lemma bget_disk fuel self d blk s b s' :
  bget fuel self d blk s = Done b s' -> io s' = io s /\ blocks s' = blocks s.
Proof.
  unfold bget. set (h := dhash d blk). run.
  destruct (bucket_lock s h) eqn:Hl; [discriminate|]. cbn [mem bucket_lock blocks io].
  destruct (walk fuel (mem s) (Bucket h) (next (mem s (Bucket h))) (is_block d blk))
    as [[b1|]|] eqn:W1; [| |discriminate]; cbn [mem bucket_lock blocks io].
  - match goal with |- context [if ?c then _ else _] => destruct c eqn:Hlk end;
      [discriminate|].
    intros E. injection E as <- <-. now split.
  - destruct (walk fuel (mem s) (Bucket h) (next (mem s (Bucket h))) is_unused)
      as [[b1|]|] eqn:W2; [| |discriminate]; cbn [mem bucket_lock blocks io].
    + match goal with |- context [if ?c then _ else _] => destruct c eqn:Hlk end;
        [discriminate|].
      intros E. injection E as <- <-. now split.
    + intros E. apply bget_steal_disk in E. exact E.
Qed.

Lemma bget_steal_lock fuel self d blk h : forall n i s b s',
  bget_steal n i fuel self d blk h s = Done b s' ->
  lock (mem s' b) = {| locked := true; pid := self |}.
Proof.
  induction n as [|n IH]; intros i s b s'; cbn [bget_steal]; [discriminate|].
  set (old := ((h + i) mod NBUCKET)%nat).
  rewrite bind_acquire. destruct (bucket_lock s old) eqn:Hl; [discriminate|].
  name_state s0 H0. rewrite bind_find_in_bucket.
  destruct (walk fuel (mem s0) (Bucket old) (next (mem s0 (Bucket old))) is_unused)
    as [[b1|]|] eqn:W; [| |discriminate].
  - pose proof (bget_take_run self d blk h old b1 s0) as T.
    destruct (locked (lock (mem s0 b1))); [congruence|].
    destruct T as (s9 & E9 & _ & P2 & _).
    rewrite E9. intros E. injection E as <- <-. exact P2.
  - exec. name_state s1 H1. apply IH.
Qed.

(** The three ways in which bget returns a buffer: a hit, a buffer of
    the home bucket taken over, a buffer of another bucket taken over. *)
Lemma bget_cases fuel self d blk s b s' :
  bget fuel self d blk s = Done b s' ->
  let h := dhash d blk in
  let held := {| locked := true; pid := self |} in
  (walk fuel (mem s) (Bucket h) (next (mem s (Bucket h))) (is_block d blk)
     = Some (Some b) /\
   mem s' b = set_lock held
                (set_refcnt ((refcnt (mem s b) + 1) mod 2 ^ 32) (mem s b)) /\
   forall q, q <> b -> mem s' q = mem s q) \/
  (walk fuel (mem s) (Bucket h) (next (mem s (Bucket h))) (is_block d blk)
     = Some None /\
   walk fuel (mem s) (Bucket h) (next (mem s (Bucket h))) is_unused
     = Some (Some b) /\
   mem s' b = set_lock held (take_over d blk (mem s b)) /\
   forall q, q <> b -> mem s' q = mem s q) \/
  (walk fuel (mem s) (Bucket h) (next (mem s (Bucket h))) (is_block d blk)
     = Some None /\
   walk fuel (mem s) (Bucket h) (next (mem s (Bucket h))) is_unused
     = Some None /\
   is_unused (mem s b) = true /\
   lock (mem s' b) = held /\
   same_contents (set_lock held (take_over d blk (mem s b))) (mem s' b) /\
   forall q, q <> b -> same_contents (mem s q) (mem s' q)).
Proof.
  intros E h held. unfold bget in E. fold h in E. revert E. run.
  destruct (bucket_lock s h) eqn:Hl; [discriminate|]. cbn [mem bucket_lock blocks io].
  destruct (walk fuel (mem s) (Bucket h) (next (mem s (Bucket h))) (is_block d blk))
    as [[b1|]|] eqn:W1; [| |discriminate]; cbn [mem bucket_lock blocks io].
  - match goal with |- context [if ?c then _ else _] => destruct c eqn:Hlk end;
      [discriminate|].
    intros E. injection E as <- <-. cbn [mem bucket_lock blocks io]. left.
    split; [reflexivity|]. rewrite !upd_same. split; [reflexivity|].
    intros q Hq. now rewrite !upd_other.
  - destruct (walk fuel (mem s) (Bucket h) (next (mem s (Bucket h))) is_unused)
      as [[b1|]|] eqn:W2; [| |discriminate]; cbn [mem bucket_lock blocks io].
    + match goal with |- context [if ?c then _ else _] => destruct c eqn:Hlk end;
        [discriminate|].
      intros E. injection E as <- <-. cbn [mem bucket_lock blocks io]. right. left.
      split; [reflexivity|]. split; [reflexivity|].
      rewrite !upd_same. split; [reflexivity|].
      intros q Hq. now rewrite !upd_other.
    + intros E. right. right. split; [reflexivity|]. split; [reflexivity|].
      match type of E with bget_steal _ _ _ _ _ _ _ ?t = _ => set (s1 := t) in E end.
      assert (M1 : mem s1 = mem s) by reflexivity.
      pose proof (fun A (f : buf -> A) Fn Fp =>
                    bget_steal_field f Fn Fp _ _ _ _ _ _ _ _ _ _ E) as F.
      rewrite M1 in F.
      destruct (F _ dev ltac:(reflexivity) ltac:(reflexivity)) as (U & D1 & D2).
      destruct (F _ blockno ltac:(reflexivity) ltac:(reflexivity)) as (_ & N1 & N2).
      destruct (F _ valid ltac:(reflexivity) ltac:(reflexivity)) as (_ & V1 & V2).
      destruct (F _ refcnt ltac:(reflexivity) ltac:(reflexivity)) as (_ & R1 & R2).
      destruct (F _ lock ltac:(reflexivity) ltac:(reflexivity)) as (_ & L1 & _).
      destruct (F _ data ltac:(reflexivity) ltac:(reflexivity)) as (_ & T1 & T2).
      pose proof (bget_steal_lock _ _ _ _ _ _ _ _ _ _ E) as Lk.
      split; [exact U|]. split; [exact Lk|]. split.
      * unfold same_contents. cbn [dev blockno valid refcnt lock data set_lock].
        rewrite D2, N2, V2, R2, T2, Lk by reflexivity. repeat split.
      * intros q Hq. unfold same_contents.
        rewrite D1, N1, V1, R1, L1, T1 by exact Hq. repeat split.
Qed.

(** What bget leaves in the cells, whichever way it went. *)
Lemma bget_cells fuel self d blk s b s' :
  bget fuel self d blk s = Done b s' ->
  (forall q, q <> b -> same_contents (mem s q) (mem s' q)) /\
  lock (mem s' b) = {| locked := true; pid := self |} /\
  data (mem s' b) = data (mem s b) /\
  dev (mem s' b) = d /\ blockno (mem s' b) = blk /\
  ((dev (mem s b) = d /\ blockno (mem s b) = blk /\
    valid (mem s' b) = valid (mem s b) /\
    refcnt (mem s' b) = (refcnt (mem s b) + 1) mod 2 ^ 32 /\
    same_links s s') \/
   (refcnt (mem s b) = 0 /\ valid (mem s' b) = 0 /\ refcnt (mem s' b) = 1)).
Proof.
  intros E.
  destruct (bget_cases _ _ _ _ _ _ _ E)
    as [(W & M & O)|[(_ & W & M & O)|(_ & _ & U & Lk & C & O)]].
  - destruct (walk_found _ _ _ _ _ _ W) as [_ Hm]. apply is_block_true in Hm.
    destruct Hm as [Hd Hn]. split.
    { intros q Hq. rewrite (O q Hq). unfold same_contents. repeat split. }
    rewrite M. cbn [lock data dev blockno valid refcnt set_lock set_refcnt].
    split; [reflexivity|]. split; [reflexivity|].
    split; [exact Hd|]. split; [exact Hn|]. left.
    repeat (split; [assumption || reflexivity|]).
    intros q. destruct (ptr_eqb q b) eqn:Eq.
    + apply ptr_eqb_eq in Eq. subst q. rewrite M. split; reflexivity.
    + apply ptr_eqb_neq in Eq. rewrite (O q Eq). split; reflexivity.
  - destruct (walk_found _ _ _ _ _ _ W) as [_ Hu]. unfold is_unused in Hu.
    apply Z.eqb_eq in Hu. split.
    { intros q Hq. rewrite (O q Hq). unfold same_contents. repeat split. }
    rewrite M. cbn [lock data dev blockno valid refcnt set_lock take_over
                    set_refcnt set_valid set_blockno set_dev].
    split; [reflexivity|]. split; [reflexivity|].
    split; [reflexivity|]. split; [reflexivity|]. right. repeat split. exact Hu.
  - unfold is_unused in U. apply Z.eqb_eq in U. split; [exact O|].
    destruct C as (C1 & C2 & C3 & C4 & C5 & C6).
    cbn [lock data dev blockno valid refcnt set_lock take_over
         set_refcnt set_valid set_blockno set_dev] in *.
    split; [exact Lk|]. split; [exact C6|].
    split; [exact C1|]. split; [exact C2|]. right. repeat split; assumption.
Qed.

(** X12.  bget takes over only a buffer whose refcnt is 0, and does no disk
    operation.  When bget returns a buffer, every other buffer holds what
    it held; the buffer returned is locked by the caller, labelled with
    (dev, blockno), its data untouched, and either it carried the block
    already, and then only its refcnt has changed, by one, and no list
    has changed, or its refcnt was 0, and then it has valid = 0 and
    refcnt = 1. *)
Theorem bget_recycles_only_unused fuel self d blk s b s' :
  bget fuel self d blk s = Done b s' ->
  io s' = io s /\ blocks s' = blocks s /\
  (forall q, q <> b -> same_contents (mem s q) (mem s' q)) /\
  lock (mem s' b) = {| locked := true; pid := self |} /\
  data (mem s' b) = data (mem s b) /\
  dev (mem s' b) = d /\ blockno (mem s' b) = blk /\
  ((dev (mem s b) = d /\ blockno (mem s b) = blk /\
    valid (mem s' b) = valid (mem s b) /\
    refcnt (mem s' b) = (refcnt (mem s b) + 1) mod 2 ^ 32 /\
    same_links s s') \/
   (refcnt (mem s b) = 0 /\ valid (mem s' b) = 0 /\ refcnt (mem s' b) = 1)).
Proof.
  intros E. destruct (bget_disk _ _ _ _ _ _ _ E) as [Hio Hblk].
  split; [exact Hio|]. split; [exact Hblk|].
  exact (bget_cells _ _ _ _ _ _ _ E).
Qed.

(** ** bread *)

(** bread is bget and then, when the buffer is not valid, one read. *)
Lemma bread_cases fuel self d blk s b s1 :
  bread fuel self d blk s = Done b s1 ->
  exists s', bget fuel self d blk s = Done b s' /\
    ((valid (mem s' b) <> 0 /\ s1 = s') \/
     (valid (mem s' b) = 0 /\
      mem s1 b = set_valid 1
                   (set_data (blocks s' (dev (mem s' b)) (blockno (mem s' b)))
                      (mem s' b)) /\
      (forall q, q <> b -> mem s1 q = mem s' q) /\
      bucket_lock s1 = bucket_lock s' /\ blocks s1 = blocks s' /\
      io s1 = {| op_write := false; op_dev := dev (mem s' b);
                 op_blockno := blockno (mem s' b) |} :: io s')).
Proof.
  unfold bread. unfold bind at 1.
  destruct (bget fuel self d blk s) as [b' s'| | |] eqn:G; try discriminate.
  intros E.
  assert (b' = b).
  { revert E. run. destruct (valid (mem s' b') =? 0); cbn; congruence. }
  subst b'. exists s'. split; [reflexivity|].
  revert E. run. destruct (valid (mem s' b) =? 0) eqn:V; cbn [mem bucket_lock blocks io];
    intros E; injection E as <-.
  - right. apply Z.eqb_eq in V. split; [exact V|]. cbn [mem bucket_lock blocks io].
    rewrite !upd_same. split; [reflexivity|]. split; [|repeat split].
    intros q Hq. now rewrite !upd_other.
  - left. apply Z.eqb_neq in V. now split.
Qed.

(** What bread leaves in the buffer it returns. *)
Lemma bread_cells fuel self d blk s b s1 :
  bread fuel self d blk s = Done b s1 ->
  holds self (mem s1 b) /\ dev (mem s1 b) = d /\ blockno (mem s1 b) = blk /\
  blocks s1 = blocks s /\
  (data (mem s1 b) = blocks s d blk \/
   (data (mem s1 b) = data (mem s b) /\
    dev (mem s b) = d /\ blockno (mem s b) = blk /\ valid (mem s b) <> 0)).
Proof.
  intros E. destruct (bread_cases _ _ _ _ _ _ _ E) as (s' & G & C).
  destruct (bget_cells _ _ _ _ _ _ _ G) as (_ & Lk & Dt & Hd & Hn & K).
  destruct (bget_disk _ _ _ _ _ _ _ G) as [_ Hblk].
  destruct C as [[V ->]|(V & M & _ & _ & B1 & _)].
  - unfold holds. rewrite Lk. cbn [locked pid].
    split; [now split|]. do 3 (split; [assumption|]).
    right. destruct K as [(K1 & K2 & K3 & _)|(_ & K3 & _)]; [|congruence].
    repeat split; congruence.
  - unfold holds. rewrite M. cbn [lock dev blockno valid data set_valid set_data].
    rewrite Lk, Hd, Hn, B1, Hblk. cbn [locked pid].
    split; [now split|]. split; [reflexivity|]. split; [reflexivity|].
    split; [reflexivity|]. now left.
Qed.

(** X13.  What bread returns holds the block.  The buffer returned is locked
    by the caller, valid and labelled with (dev, blockno); either it
    carried the block as valid before, and then no disk operation is done
    and its data are untouched, or exactly one read of (dev, blockno) is
    done and its data are what the disk has for that block.  The disk
    and the contents of all other buffers are unchanged. *)
Theorem bread_returns_block_contents fuel self d blk s b s1 :
  bread fuel self d blk s = Done b s1 ->
  holds self (mem s1 b) /\ dev (mem s1 b) = d /\ blockno (mem s1 b) = blk /\
  valid (mem s1 b) <> 0 /\ blocks s1 = blocks s /\
  (forall q, q <> b -> same_contents (mem s q) (mem s1 q)) /\
  ((io s1 = io s /\ data (mem s1 b) = data (mem s b) /\
    dev (mem s b) = d /\ blockno (mem s b) = blk /\ valid (mem s b) <> 0) \/
   (io s1 = {| op_write := false; op_dev := d; op_blockno := blk |} :: io s /\
    data (mem s1 b) = blocks s d blk /\ valid (mem s1 b) = 1)).
Proof.
  intros E. destruct (bread_cases _ _ _ _ _ _ _ E) as (s' & G & C).
  destruct (bget_cells _ _ _ _ _ _ _ G) as (O & Lk & Dt & Hd & Hn & K).
  destruct (bget_disk _ _ _ _ _ _ _ G) as [Hio Hblk].
  destruct C as [[V ->]|(V & M & O1 & _ & B1 & I1)].
  - unfold holds. rewrite Lk. cbn [locked pid].
    split; [now split|]. do 5 (split; [assumption|]).
    left. destruct K as [(K1 & K2 & K3 & _)|(_ & K3 & _)]; [|congruence].
    repeat split; congruence.
  - unfold holds. rewrite M. cbn [lock dev blockno valid data set_valid set_data].
    rewrite Lk, Hd, Hn, B1, Hblk. cbn [locked pid].
    split; [now split|]. split; [reflexivity|]. split; [reflexivity|].
    split; [discriminate|]. split; [reflexivity|]. split.
    { intros q Hq. rewrite (O1 q Hq). now apply O. }
    right. rewrite I1, Hd, Hn, Hio. repeat split.
Qed.


(** X15.  The buffer that bread has returned is held until brelse: another
    bread of the same block, by whatever process, does not return. *)
Theorem bread_of_held_block_waits fuel self who d blk s b s1 :
  bread fuel self d blk s = Done b s1 -> (forall j, b <> Bucket j) ->
  bread fuel who d blk s1 = Blocked.
Proof.
  intros E Hb.
  destruct (bread_done _ _ _ _ _ _ _ E Hb)
    as (s' & _ & W & [Hlk _] & _ & _ & _ & Hbl & Hl & _).
  unfold bread. unfold bind at 1.
  assert (G : bget fuel who d blk s1 = Blocked).
  { unfold bget. rewrite bind_acquire, Hbl, Hl. name_state s0 H0.
    rewrite bind_find_in_bucket.
    assert (M0 : mem s0 = mem s1) by (rewrite H0; reflexivity).
    rewrite M0, W. exec. name_state s2 H2. exec. name_state s3 H3.
    rewrite bind_acquiresleep.
    assert (L3 : lock (mem s3 b) = lock (mem s1 b)).
    { rewrite H3; cbn [mem]. rewrite H2; cbn [mem]. rewrite upd_same. now rewrite M0. }
    now rewrite L3, Hlk. }
  now rewrite G.
Qed.

(** ** bread and bwrite *)

(** X16.  A block that is read and written back at once leaves the disk as it
    was, when the buffer, if it was cached, held what the disk has. *)
Theorem bread_bwrite_leaves_disk fuel self d blk s b s1 :
  bread fuel self d blk s = Done b s1 ->
  (valid (mem s b) <> 0 -> dev (mem s b) = d -> blockno (mem s b) = blk ->
   data (mem s b) = blocks s d blk) ->
  exists s2, bwrite self b s1 = Done tt s2 /\
    mem s2 = mem s1 /\
    (forall d' n', blocks s2 d' n' = blocks s d' n') /\
    io s2 = {| op_write := true; op_dev := d; op_blockno := blk |} :: io s1.
Proof.
  intros E Hc.
  destruct (bread_cells _ _ _ _ _ _ _ E) as (Hh & Hd & Hn & Hblk & K).
  destruct (bwrite_done self b s1 Hh) as (s2 & W & M & _ & I & B1 & B2).
  exists s2. split; [exact W|]. split; [exact M|].
  rewrite Hd, Hn in *. split; [|exact I].
  assert (Dt : data (mem s1 b) = blocks s d blk).
  { destruct K as [K|(K1 & K2 & K3 & K4)]; [exact K|].
    rewrite K1. now apply Hc. }
  intros d' n'. destruct (Z.eq_dec d' d) as [->|Hdd].
  - destruct (Z.eq_dec n' blk) as [->|Hnn].
    + now rewrite B1.
    + rewrite B2 by now right. now rewrite Hblk.
  - rewrite B2 by now left. now rewrite Hblk.
Qed.

(** ** binit *)

Section WithLayout.

Variable NBUF : nat.
Variable bcache_buf : Z.
Variable sizeof_buf : Z.

Local Abbreviation binit := (binit NBUF bcache_buf sizeof_buf).
Local Abbreviation binit_buf := (binit_buf bcache_buf sizeof_buf).
Local Abbreviation buf_addr := (buf_addr bcache_buf sizeof_buf).
Local Abbreviation bucket_of := (bucket_of bcache_buf sizeof_buf).

Lemma bucket_of_S k j :
  bucket_of (S k) j =
  if (HASH (buf_addr k) =? j)%nat then k :: bucket_of k j else bucket_of k j.
Proof.
  unfold BioCells.bucket_of. rewrite seq_S, filter_app. cbn [Nat.add filter].
  destruct (HASH (buf_addr k) =? j)%nat.
  - now rewrite rev_app_distr.
  - now rewrite app_nil_r.
Qed.

Lemma binit_bufs_placed n : forall k s Ls,
  linked_upto k s Ls -> (forall j, Ls j = bucket_of k j) ->
  exists s' Ls', for_each (seq k n) binit_buf s = Done tt s' /\
    linked_upto (k + n) s' Ls' /\ (forall j, Ls' j = bucket_of (k + n) j) /\
    io s' = io s /\ blocks s' = blocks s.
Proof.
  induction n as [|n IH]; intros k s Ls H HL.
  - exists s, Ls. rewrite Nat.add_0_r. cbn. auto.
  - cbn [seq for_each]. unfold bind at 1.
    destruct (binit_buf_spec bcache_buf sizeof_buf k s Ls H) as (s1 & E1 & H1 & Hio1 & Hblk1).
    rewrite E1.
    destruct (IH (S k) s1 _ H1) as (s' & Ls' & E & H' & HL' & Hio & Hblk).
    + intros j. rewrite bucket_of_S.
      destruct (Nat.eqb_spec (HASH (buf_addr k)) j) as [->|Hne].
      * now rewrite upd_nat_same, HL.
      * rewrite upd_nat_other by congruence. apply HL.
    + exists s', Ls'. split; [exact E|].
      replace (k + S n)%nat with (S k + n)%nat by lia.
      split; [exact H'|]. split; [exact HL'|]. split; congruence.
Qed.

(** X17.  binit, run on memory in which the buffers are as .bss has them,
    returns with no lock held and every buffer unused and unlocked, and
    the list of bucket j then holds exactly the buffers whose address is
    j modulo NBUCKET, the one with the highest index first. *)
Theorem binit_puts_buffer_in_bucket_of_its_address s0 :
  (forall i, pristine (mem s0 (Buf i))) ->
  exists s, binit s0 = Done tt s /\
    (forall j, (j < NBUCKET)%nat -> bucket_is s j (bucket_of NBUF j)) /\
    quiescent s /\
    (forall i, (i < NBUF)%nat ->
       pristine (mem s (Buf i)) /\ locked (lock (mem s (Buf i))) = false) /\
    io s = io s0 /\ blocks s = blocks s0.
Proof.
  intros Hpr. unfold Bio.binit, bind.
  destruct (binit_buckets_spec (seq 0 NBUCKET) s0)
    as (s1 & E1 & Hin & _ & Hbuf & Hio1 & Hblk1).
  rewrite E1.
  assert (H1 : linked_upto 0 s1 (fun _ => [])).
  { split; [|split; [|split; [|split]]].
    - intros j Hj. unfold bucket_is. cbn. apply Hin. apply in_seq. lia.
    - cbn. constructor.
    - intros j Hj. apply Hin. apply in_seq. lia.
    - intros i. rewrite Hbuf. apply Hpr.
    - intros i Hi. lia. }
  destruct (binit_bufs_placed NBUF 0 s1 _ H1) as (s & Ls & E & H & HL & Hio & Hblk).
  { intros j. reflexivity. }
  cbn [Nat.add] in *. destruct H as (Hch & _ & Hq & Hp & Hlk).
  exists s. split; [exact E|]. split; [|split; [exact Hq|split; [|split; congruence]]].
  - intros j Hj. rewrite <- HL. now apply Hch.
  - intros i Hi. split; [apply Hp|now apply Hlk].
Qed.

(** *** The lists that binit builds are doubly linked *)

Lemma binit_bucket_links j s :
  exists s', binit_bucket j s = Done tt s' /\
    next (mem s' (Bucket j)) = Bucket j /\ prev (mem s' (Bucket j)) = Bucket j /\
    forall q, q <> Bucket j -> mem s' q = mem s q.
Proof.
  rewrite binit_bucket_eq. eexists. split; [reflexivity|]. cbn [mem].
  rewrite !upd_same. cbn [next prev set_next set_prev].
  split; [reflexivity|]. split; [reflexivity|].
  intros q Hq. now rewrite !upd_other.
Qed.

Lemma binit_buckets_links l : forall s,
  exists s', for_each l binit_bucket s = Done tt s' /\
    forall j, In j l \/ (next (mem s (Bucket j)) = Bucket j /\
                         prev (mem s (Bucket j)) = Bucket j) ->
      next (mem s' (Bucket j)) = Bucket j /\ prev (mem s' (Bucket j)) = Bucket j.
Proof.
  induction l as [|j0 l IH]; intros s.
  - exists s. split; [reflexivity|]. intros j [[]|H]. exact H.
  - cbn [for_each]. unfold bind at 1.
    destruct (binit_bucket_links j0 s) as (s1 & E1 & N1 & P1 & O1). rewrite E1.
    destruct (IH s1) as (s' & E & H). exists s'. split; [exact E|].
    intros j Hj. apply H. destruct (Nat.eq_dec j j0) as [->|Hne].
    + right. now split.
    + destruct Hj as [[Hj|Hj]|Hj]; [congruence|now left|].
      right. rewrite O1 by congruence. exact Hj.
Qed.

(** The links after the body of the second loop, for buffer [k]. *)
Lemma binit_buf_links k s :
  let b := Buf k in
  let hd := Bucket (HASH (buf_addr k)) in
  let first := next (mem s hd) in
  exists s', binit_buf k s = Done tt s' /\
    (forall q, next (mem s' q) =
               if ptr_eqb q hd then b
               else if ptr_eqb q b then first else next (mem s q)) /\
    (forall q, prev (mem s' q) =
               if ptr_eqb q first then b
               else if ptr_eqb q b then hd else prev (mem s q)).
Proof.
  intros b hd first. unfold Bio.binit_buf. fold b. fold hd.
  cbv zeta. unfold initsleeplock.
  exec. name_state s1 H1. exec. exec. name_state s2 H2. exec. name_state s3 H3.
  exec. exec. name_state s4 H4.
  unfold store, modify. eexists. split; [reflexivity|]. cbn [mem].
  assert (Hne : hd <> b) by discriminate.
  assert (N1 : forall q, next (mem s1 q) = next (mem s q)).
  { intros q. rewrite H1. cbn [mem]. now rewrite (upd_agrees next). }
  assert (N3 : forall q, next (mem s3 q) =
                         if ptr_eqb q b then first else next (mem s q)).
  { intros q. rewrite H3. cbn [mem]. rewrite (upd_agrees next) by reflexivity.
    rewrite H2. cbn [mem]. unfold upd at 1.
    destruct (ptr_eqb q b) eqn:Eq; [|apply N1].
    cbn [next set_next]. apply N1. }
  assert (F3 : next (mem s3 hd) = first).
  { rewrite N3. apply ptr_eqb_neq in Hne. now rewrite Hne. }
  assert (P3 : forall q, prev (mem s3 q) = if ptr_eqb q b then hd else prev (mem s q)).
  { intros q. rewrite H3. cbn [mem]. rewrite (upd_agrees prev) by reflexivity.
    rewrite H2. cbn [mem]. rewrite (upd_agrees prev) by reflexivity.
    rewrite H1. cbn [mem]. unfold upd.
    destruct (ptr_eqb q b); reflexivity. }
  split.
  - intros q. unfold upd at 1. destruct (ptr_eqb q hd) eqn:Eq; [reflexivity|].
    rewrite H4. cbn [mem]. rewrite (upd_agrees next) by reflexivity. apply N3.
  - intros q. rewrite (upd_agrees prev) by reflexivity.
    rewrite H4. cbn [mem]. rewrite F3. unfold upd at 1.
    destruct (ptr_eqb q first) eqn:Eq; [reflexivity|]. apply P3.
Qed.

Lemma is_node_S n p : is_node n p = true -> is_node (S n) p = true.
Proof.
  destruct p as [|i|j]; cbn [is_node]; [discriminate| |exact (fun H => H)].
  rewrite !Nat.ltb_lt. lia.
Qed.

Lemma is_node_new n p :
  is_node (S n) p = true -> p = Buf n \/ is_node n p = true.
Proof.
  destruct p as [|i|j]; cbn [is_node]; [discriminate| |now right].
  rewrite !Nat.ltb_lt. intros H.
  destruct (Nat.eq_dec i n) as [->|Hne]; [now left|right; lia].
Qed.

Lemma binit_buf_doubly_linked k s :
  doubly_linked k s ->
  exists s', binit_buf k s = Done tt s' /\ doubly_linked (S k) s'.
Proof.
  intros I.
  destruct (binit_buf_links k s) as (s' & E & N & P). cbv zeta in N, P.
  exists s'. split; [exact E|].
  set (b := Buf k) in *. set (hd := Bucket (HASH (buf_addr k))) in *.
  set (first := next (mem s hd)) in *.
  assert (Hb : is_node k b = false) by (unfold b; cbn [is_node]; apply Nat.ltb_irrefl).
  assert (Hhd : is_node k hd = true).
  { unfold hd. cbn [is_node]. apply Nat.ltb_lt. apply HASH_bound. }
  destruct (I hd Hhd) as (Hf1 & _ & Hf2 & _). fold first in Hf1, Hf2.
  assert (Hfb : first <> b) by (intros H; rewrite H in Hf1; congruence).
  assert (Hhb : hd <> b) by discriminate.
  assert (Nb : next (mem s' b) = first).
  { rewrite N. apply ptr_eqb_neq in Hhb.
    rewrite (proj2 (ptr_eqb_neq b hd)) by congruence. now rewrite ptr_eqb_refl. }
  assert (Pb : prev (mem s' b) = hd).
  { rewrite P. rewrite (proj2 (ptr_eqb_neq b first)) by congruence.
    now rewrite ptr_eqb_refl. }
  assert (Nh : next (mem s' hd) = b) by (rewrite N; now rewrite ptr_eqb_refl).
  assert (Pf : prev (mem s' first) = b) by (rewrite P; now rewrite ptr_eqb_refl).
  intros p Hp. apply is_node_new in Hp. destruct Hp as [->|Hp].
  - fold b. rewrite Nb, Pb, Pf, Nh.
    split; [now apply is_node_S|]. split; [now apply is_node_S|]. now split.
  - destruct (I p Hp) as (I1 & I2 & I3 & I4).
    assert (Hpb : p <> b) by (intros ->; congruence).
    assert (Hnb : next (mem s p) <> b) by (intros H; rewrite H in I1; congruence).
    assert (Hqb : prev (mem s p) <> b) by (intros H; rewrite H in I2; congruence).
    assert (Np : next (mem s' p) = if ptr_eqb p hd then b else next (mem s p)).
    { rewrite N. destruct (ptr_eqb p hd); [reflexivity|].
      now rewrite (proj2 (ptr_eqb_neq p b)). }
    assert (Pp : prev (mem s' p) = if ptr_eqb p first then b else prev (mem s p)).
    { rewrite P. destruct (ptr_eqb p first); [reflexivity|].
      now rewrite (proj2 (ptr_eqb_neq p b)). }
    assert (Hbn : is_node (S k) b = true)
      by (unfold b; cbn [is_node]; apply Nat.ltb_lt; lia).
    rewrite Np, Pp. split; [|split; [|split]].
    + destruct (ptr_eqb p hd); [exact Hbn|now apply is_node_S].
    + destruct (ptr_eqb p first); [exact Hbn|now apply is_node_S].
    + destruct (ptr_eqb p hd) eqn:Eh.
      * apply ptr_eqb_eq in Eh. now rewrite Pb.
      * apply ptr_eqb_neq in Eh. rewrite P.
        assert (Hx : next (mem s p) <> first).
        { intros H. apply Eh. rewrite <- I3, H. exact Hf2. }
        rewrite (proj2 (ptr_eqb_neq _ _) Hx), (proj2 (ptr_eqb_neq _ _) Hnb).
        exact I3.
    + destruct (ptr_eqb p first) eqn:Ef.
      * apply ptr_eqb_eq in Ef. now rewrite Nb.
      * apply ptr_eqb_neq in Ef. rewrite N.
        assert (Hx : prev (mem s p) <> hd).
        { intros H. apply Ef. rewrite <- I4, H. reflexivity. }
        rewrite (proj2 (ptr_eqb_neq _ _) Hx), (proj2 (ptr_eqb_neq _ _) Hqb).
        exact I4.
Qed.

Lemma binit_bufs_doubly_linked n : forall k s,
  doubly_linked k s ->
  exists s', for_each (seq k n) binit_buf s = Done tt s' /\
             doubly_linked (k + n) s'.
Proof.
  induction n as [|n IH]; intros k s H.
  - exists s. rewrite Nat.add_0_r. now split.
  - cbn [seq for_each]. unfold bind at 1.
    destruct (binit_buf_doubly_linked k s H) as (s1 & E1 & H1). rewrite E1.
    destruct (IH (S k) s1 H1) as (s' & E & H'). exists s'. split; [exact E|].
    now replace (k + S n)%nat with (S k + n)%nat by lia.
Qed.

(** X18.  Whatever memory holds before, binit returns, and then next and prev
    lead from the sentinels and the NBUF buffers to the sentinels and
    the NBUF buffers only, and are inverse to each other there: the
    lists are circular and doubly linked. *)
Theorem binit_builds_doubly_linked_lists s0 :
  exists s, binit s0 = Done tt s /\ doubly_linked NBUF s.
Proof.
  unfold Bio.binit, bind.
  destruct (binit_buckets_links (seq 0 NBUCKET) s0) as (s1 & E1 & H1). rewrite E1.
  destruct (binit_bufs_doubly_linked NBUF 0 s1) as (s & E & H).
  - intros p Hp. destruct p as [|i|j]; cbn [is_node] in Hp; try discriminate.
    apply Nat.ltb_lt in Hp.
    destruct (H1 j) as [Hn Hq]; [left; apply in_seq; lia|].
    rewrite Hn, Hq, Hn. cbn [is_node].
    rewrite (proj2 (Nat.ltb_lt _ _) Hp). repeat split; assumption.
  - exists s. now split.
Qed.

End WithLayout.

(** ** The lists are changed by binit and by a steal only *)

Lemma same_links_well_linked n s s' Ls :
  same_links s s' -> well_linked n s Ls -> well_linked n s' Ls.
Proof.
  intros H [Hch HP]. split; [|exact HP]. intros j Hj. unfold bucket_is.
  rewrite (proj1 (H (Bucket j))).
  apply (chain_frame (mem s)); [now apply Hch|]. intros x _. apply H.
Qed.

Lemma same_links_doubly_linked n s s' :
  same_links s s' -> doubly_linked n s -> doubly_linked n s'.
Proof.
  intros H I p Hp. destruct (I p Hp) as (I1 & I2 & I3 & I4).
  rewrite (proj1 (H p)), (proj2 (H p)).
  rewrite (proj2 (H (next (mem s p)))), (proj1 (H (prev (mem s p)))).
  now repeat split.
Qed.

(** A store to one cell that keeps its links. *)
Lemma same_links_one s s' b :
  next (mem s' b) = next (mem s b) -> prev (mem s' b) = prev (mem s b) ->
  (forall q, q <> b -> mem s' q = mem s q) -> same_links s s'.
Proof.
  intros Hn Hp O q. destruct (ptr_eqb q b) eqn:Eq.
  - apply ptr_eqb_eq in Eq. subst q. now split.
  - apply ptr_eqb_neq in Eq. rewrite (O q Eq). now split.
Qed.

Lemma brelse_inv self b s s' :
  brelse self b s = Done tt s' ->
  holds self (mem s b) /\
  bucket_lock s (dhash (dev (mem s b)) (blockno (mem s b))) = false.
Proof.
  intros E.
  destruct (locked (lock (mem s b)) && (pid (lock (mem s b)) =? self)) eqn:H.
  - split; [now apply holds_dec|].
    destruct (bucket_lock s (dhash (dev (mem s b)) (blockno (mem s b)))) eqn:Hl;
      [|reflexivity].
    exfalso. revert E. unfold brelse. run. rewrite H.
    cbn [negb]. rewrite !upd_same. cbn [dev blockno set_lock]. rewrite Hl.
    discriminate.
  - exfalso. revert E. unfold brelse. run. rewrite H. discriminate.
Qed.

Lemma bpin_inv b s s' :
  bpin b s = Done tt s' ->
  bucket_lock s (dhash (dev (mem s b)) (blockno (mem s b))) = false.
Proof.
  unfold bpin. run.
  destruct (bucket_lock s (dhash (dev (mem s b)) (blockno (mem s b))));
    [discriminate|reflexivity].
Qed.

Lemma bunpin_inv b s s' :
  bunpin b s = Done tt s' ->
  bucket_lock s (dhash (dev (mem s b)) (blockno (mem s b))) = false.
Proof.
  unfold bunpin. run.
  destruct (bucket_lock s (dhash (dev (mem s b)) (blockno (mem s b))));
    [discriminate|reflexivity].
Qed.

Lemma bwrite_inv self b s s' :
  bwrite self b s = Done tt s' -> holds self (mem s b).
Proof.
  unfold bwrite. run. intros E. apply holds_dec.
  destruct (locked (lock (mem s b)) && (pid (lock (mem s b)) =? self));
    [reflexivity|discriminate].
Qed.

(** X19.  brelse, bwrite, bpin and bunpin change no next or prev pointer: the
    lists of the buckets, and that they are doubly linked, survive
    them. *)
Theorem brelse_bwrite_bpin_bunpin_keep_lists self b s s' :
  brelse self b s = Done tt s' \/ bwrite self b s = Done tt s' \/
  bpin b s = Done tt s' \/ bunpin b s = Done tt s' ->
  same_links s s' /\
  (forall n Ls, well_linked n s Ls -> well_linked n s' Ls) /\
  (forall n, doubly_linked n s -> doubly_linked n s').
Proof.
  intros H.
  assert (L : same_links s s').
  { destruct H as [E|[E|[E|E]]].
    - destruct (brelse_inv _ _ _ _ E) as [Hh Hl].
      destruct (brelse_done self b s Hh Hl) as (s1 & E1 & M & O & _).
      assert (s1 = s') by congruence. subst s1.
      apply (same_links_one s s' b); [now rewrite M|now rewrite M|exact O].
    - destruct (bwrite_done self b s (bwrite_inv _ _ _ _ E)) as (s1 & E1 & M & _).
      assert (s1 = s') by congruence. subst s1.
      intros q. now rewrite M.
    - destruct (bpin_done b s (bpin_inv _ _ _ E)) as (s1 & E1 & M & O & _).
      assert (s1 = s') by congruence. subst s1.
      apply (same_links_one s s' b); [now rewrite M|now rewrite M|exact O].
    - destruct (bunpin_done b s (bunpin_inv _ _ _ E)) as (s1 & E1 & M & O & _).
      assert (s1 = s') by congruence. subst s1.
      apply (same_links_one s s' b); [now rewrite M|now rewrite M|exact O]. }
  split; [exact L|]. split.
  - intros n Ls. now apply same_links_well_linked.
  - intros n. now apply same_links_doubly_linked.
Qed.

Section WithLayout.

Variable NBUF : nat.

(** X20.  When the home bucket of a block holds the block or a buffer with
    refcnt 0, bread takes its buffer from that bucket and changes no next
    or prev pointer: every bucket keeps its list. *)
Theorem bread_without_steal_keeps_lists fuel self d blk s Ls b s1 :
  well_linked NBUF s Ls -> (NBUF < fuel)%nat ->
  (exists i, In i (Ls (dhash d blk)) /\
             (is_block d blk (mem s (Buf i)) = true \/
              refcnt (mem s (Buf i)) = 0)) ->
  bread fuel self d blk s = Done b s1 ->
  (exists i, b = Buf i /\ In i (Ls (dhash d blk))) /\
  same_links s s1 /\ well_linked NBUF s1 Ls /\
  (doubly_linked NBUF s -> doubly_linked NBUF s1).
Proof.
  intros Hwl Hfuel (i & Hi & Hfit) E.
  set (h := dhash d blk) in *.
  assert (Hh : (h < NBUCKET)%nat) by apply HASH_bound.
  assert (Hch : forall j, (j < NBUCKET)%nat ->
            chain (mem s) (Bucket j) (next (mem s (Bucket j))) (map Buf (Ls j))).
  { intros j Hj. now apply Hwl. }
  assert (Hlen : forall j, (j < NBUCKET)%nat -> (length (Ls j) < fuel)%nat).
  { intros j Hj. pose proof (well_linked_length NBUF s Ls j Hwl Hj). lia. }
  pose proof (fun test => walk_bucket fuel Ls (mem s) Hch Hlen h test Hh) as Wb.
  destruct (bread_cases _ _ _ _ _ _ _ E) as (s' & G & C).
  assert (P : (exists x, b = Buf x /\ In x (Ls h)) /\ same_links s s').
  { pose proof (bget_cases _ _ _ _ _ _ _ G) as K. cbv zeta in K. fold h in K.
    destruct K as [(W & M & O)|[(_ & W & M & O)|(W1 & W2 & _)]].
    - rewrite Wb in W. injection W as W.
      destruct (find _ (Ls h)) as [x|] eqn:F; [|discriminate].
      injection W as <-. apply find_some in F. split; [exists x; tauto|].
      apply (same_links_one s s' (Buf x)); [now rewrite M|now rewrite M|exact O].
    - rewrite Wb in W. injection W as W.
      destruct (find _ (Ls h)) as [x|] eqn:F; [|discriminate].
      injection W as <-. apply find_some in F. split; [exists x; tauto|].
      apply (same_links_one s s' (Buf x)); [now rewrite M|now rewrite M|exact O].
    - exfalso. rewrite Wb in W1, W2. injection W1 as W1. injection W2 as W2.
      destruct (find (fun x => is_block d blk (mem s (Buf x))) (Ls h)) eqn:F1;
        [discriminate|].
      destruct (find (fun x => is_unused (mem s (Buf x))) (Ls h)) eqn:F2;
        [discriminate|].
      pose proof (find_none _ _ F1 i Hi) as N1. pose proof (find_none _ _ F2 i Hi) as N2.
      cbv beta in N1, N2. unfold is_unused in N2. apply Z.eqb_neq in N2.
      destruct Hfit; congruence. }
  destruct P as [Px L'].
  assert (L1 : same_links s s1).
  { destruct C as [[_ ->]|(_ & M & O & _)]; [exact L'|].
    intros q. destruct (L' q) as [Ln Lp]. rewrite <- Ln, <- Lp.
    apply (same_links_one s' s1 b); [now rewrite M|now rewrite M|exact O]. }
  split; [exact Px|]. split; [exact L1|]. split.
  - now apply (same_links_well_linked NBUF s s1).
  - now apply same_links_doubly_linked.
Qed.

End WithLayout.

(** ** The steal *)

Lemma NoDup_app_disjoint {A} (l1 l2 : list A) x :
  NoDup (l1 ++ l2) -> In x l1 -> In x l2 -> False.
Proof.
  induction l1 as [|a l1 IH]; cbn; intros H H1 H2; [exact H1|].
  inversion H as [|? ? Hn Hd]; subst. destruct H1 as [->|H1].
  - apply Hn. apply in_or_app. now right.
  - now apply IH.
Qed.

Lemma flat_map_NoDup {A} (f : nat -> list A) l :
  NoDup (flat_map f l) ->
  (forall i, In i l -> NoDup (f i)) /\
  (forall i i' x, In i l -> In i' l -> i <> i' ->
                  In x (f i) -> In x (f i') -> False).
Proof.
  induction l as [|a l IH]; cbn [flat_map]; intros H.
  - split; [intros i []|intros i i' x []].
  - destruct (IH (NoDup_app_remove_l _ _ H)) as [IH1 IH2]. split.
    + intros i [<-|Hi]; [exact (NoDup_app_remove_r _ _ H)|now apply IH1].
    + intros i i' x [<-|Hi] [<-|Hi'] Hne Hx Hx'.
      * congruence.
      * apply (NoDup_app_disjoint _ _ x H Hx). apply in_flat_map. now exists i'.
      * apply (NoDup_app_disjoint _ _ x H Hx'). apply in_flat_map. now exists i.
      * now apply (IH2 i i' x).
Qed.

Lemma flat_map_pointwise {A} (f g : nat -> list A) l :
  (forall i, Permutation (f i) (g i)) ->
  Permutation (flat_map f l) (flat_map g l).
Proof.
  intros H. induction l as [|a l IH]; cbn [flat_map]; [constructor|].
  now apply Permutation_app.
Qed.

Lemma NoDup_map_Buf l : NoDup l -> NoDup (map Buf l).
Proof.
  induction 1 as [|x l Hx Hl IH]; cbn [map]; constructor; [|exact IH].
  intros Hin. apply in_map_iff in Hin. destruct Hin as (y & E & Hy).
  injection E as ->. contradiction.
Qed.

(** In a list that holds [b] some node has [b] as its next. *)
Lemma chain_pred m head b post : forall pre c,
  chain m head (next (m c)) (pre ++ b :: post) ->
  exists pb, (pb = c \/ In pb pre) /\ next (m pb) = b.
Proof.
  induction pre as [|y pre IH]; intros c H; cbn [app chain] in H.
  - destruct H as (H1 & _). exists c. split; [now left|exact H1].
  - destruct H as (_ & _ & H3). destruct (IH y H3) as (pb & Hpb & Hn).
    exists pb. split; [|exact Hn]. right. destruct Hpb as [->|Hin]; [now left|now right].
Qed.

(** Taking [b] out of a list: the node before it gets the next of [b],
    the other nodes of the list keep theirs. *)
Lemma chain_unlink m m' head b post pb : forall pre c,
  chain m head (next (m c)) (pre ++ b :: post) ->
  NoDup (c :: pre ++ b :: post) ->
  (pb = c \/ In pb pre) -> next (m pb) = b ->
  next (m' pb) = next (m b) ->
  (forall q, q <> pb -> q = c \/ In q pre \/ In q post ->
             next (m' q) = next (m q)) ->
  chain m' head (next (m' c)) (pre ++ post).
Proof.
  induction pre as [|y pre IH]; intros c H Hnd Hpb Hn Hnew Hfr; cbn [app chain] in *.
  - destruct H as (H1 & H2 & H3). destruct Hpb as [->|[]].
    rewrite Hnew. apply (chain_frame m); [exact H3|].
    intros x Hx. apply Hfr; [|now right; right].
    intros ->. apply NoDup_cons_iff in Hnd. apply (proj1 Hnd). now right.
  - destruct H as (H1 & H2 & H3).
    apply NoDup_cons_iff in Hnd. destruct Hnd as [Hc Hnd'].
    assert (Hyb : y <> b).
    { intros ->. apply NoDup_cons_iff in Hnd'. apply (proj1 Hnd').
      apply in_or_app. right. now left. }
    assert (Hpc : pb <> c) by (intros ->; congruence).
    assert (Hpb' : pb = y \/ In pb pre).
    { destruct Hpb as [->|[->|Hin]]; [congruence|now left|now right]. }
    split; [|split; [exact H2|]].
    + rewrite Hfr; [exact H1|congruence|now left].
    + apply (IH y H3 Hnd' Hpb' Hn Hnew).
      intros q Hq [->|[Hin|Hin]]; apply Hfr; try exact Hq.
      * right. left. now left.
      * right. left. now right.
      * now right; right.
Qed.

(** The next pointers after the steal of [b] into bucket [h]. *)
Lemma bget_take_next self d blk h old b s r s' :
  bget_take self d blk h old b s = Done r s' ->
  forall q, next (mem s' q) =
    if ptr_eqb q (Bucket h) then b
    else if ptr_eqb q b
         then (if ptr_eqb (Bucket h) (prev (mem s b)) then next (mem s b)
               else next (mem s (Bucket h)))
         else if ptr_eqb q (prev (mem s b)) then next (mem s b)
              else next (mem s q).
Proof.
  unfold bget_take.
  exec. name_state s1 H1. exec. exec. name_state s2 H2. exec. exec.
  name_state s3 H3. exec. exec. name_state s4 H4. exec. name_state s5 H5.
  exec. exec. name_state s6 H6. exec. name_state s7 H7. exec.
  name_state s8 H8. exec. name_state s9 H9.
  rewrite bind_acquiresleep.
  destruct (locked (lock (mem s9 b))); [discriminate|].
  cbv beta. unfold ret. intros E. injection E as <- <-. cbn [mem].
  assert (B1 : prev (mem s1 b) = prev (mem s b) /\ next (mem s1 b) = next (mem s b)).
  { rewrite H1. cbn [mem]. rewrite upd_same. now split. }
  destruct B1 as [B1p B1n].
  assert (N1 : forall q, next (mem s1 q) = next (mem s q)).
  { intros q. rewrite H1. cbn [mem]. now rewrite (upd_agrees next). }
  assert (N2 : forall q, next (mem s2 q) =
             if ptr_eqb q (prev (mem s b)) then next (mem s b) else next (mem s q)).
  { intros q. rewrite H2. cbn [mem]. rewrite B1p, B1n. unfold upd.
    destruct (ptr_eqb q (prev (mem s b))); [reflexivity|apply N1]. }
  assert (N3 : forall q, next (mem s3 q) = next (mem s2 q)).
  { intros q. rewrite H3. cbn [mem]. now rewrite (upd_agrees next). }
  assert (N4 : forall q, next (mem s4 q) =
             if ptr_eqb q b then next (mem s2 (Bucket h)) else next (mem s2 q)).
  { intros q. rewrite H4. cbn [mem]. unfold upd.
    destruct (ptr_eqb q b); [cbn [next set_next]|]; apply N3. }
  assert (N6 : forall q, next (mem s6 q) = next (mem s4 q)).
  { intros q. rewrite H6. cbn [mem]. rewrite (upd_agrees next) by reflexivity.
    rewrite H5. cbn [mem]. now rewrite (upd_agrees next). }
  intros q. rewrite (upd_agrees next) by reflexivity.
  rewrite H9; cbn [mem]. rewrite H8; cbn [mem]. rewrite H7; cbn [mem].
  unfold upd at 1. destruct (ptr_eqb q (Bucket h)); [reflexivity|].
  rewrite N6, N4. destruct (ptr_eqb q b); apply N2.
Qed.

Lemma bget_steal_next fuel self d blk h : forall n i s b s',
  bget_steal n i fuel self d blk h s = Done b s' ->
  exists i', (i <= i' < i + n)%nat /\
    walk fuel (mem s) (Bucket ((h + i') mod NBUCKET))
      (next (mem s (Bucket ((h + i') mod NBUCKET)))) is_unused = Some (Some b) /\
    forall q, next (mem s' q) =
      if ptr_eqb q (Bucket h) then b
      else if ptr_eqb q b
           then (if ptr_eqb (Bucket h) (prev (mem s b)) then next (mem s b)
                 else next (mem s (Bucket h)))
           else if ptr_eqb q (prev (mem s b)) then next (mem s b)
                else next (mem s q).
Proof.
  induction n as [|n IH]; intros i s b s'; cbn [bget_steal]; [discriminate|].
  set (old := ((h + i) mod NBUCKET)%nat).
  rewrite bind_acquire. destruct (bucket_lock s old) eqn:Hl; [discriminate|].
  name_state s0 H0. rewrite bind_find_in_bucket.
  assert (M0 : mem s0 = mem s) by (rewrite H0; reflexivity).
  destruct (walk fuel (mem s0) (Bucket old) (next (mem s0 (Bucket old))) is_unused)
    as [[b1|]|] eqn:W; [| |discriminate].
  - intros E.
    assert (b1 = b).
    { destruct (bget_take_field dev ltac:(reflexivity) ltac:(reflexivity)
                  _ _ _ _ _ _ _ _ _ E) as (-> & _). reflexivity. }
    subst b1. pose proof (bget_take_next _ _ _ _ _ _ _ _ _ E) as N.
    rewrite M0 in *. exists i. split; [lia|]. split; [exact W|exact N].
  - exec. name_state s1 H1. intros E.
    assert (M1 : mem s1 = mem s) by (rewrite H1; exact M0).
    destruct (IH (S i) s1 b s' E) as (i' & Hi' & W' & N). rewrite M1 in *.
    exists i'. split; [lia|]. split; [exact W'|exact N].
Qed.

Lemma bget_steal_prev fuel self d blk h : forall n i s b s',
  bget_steal n i fuel self d blk h s = Done b s' ->
  b <> Bucket h -> next (mem s b) <> b -> next (mem s (Bucket h)) <> b ->
  prev (mem s' b) = Bucket 0.
Proof.
  induction n as [|n IH]; intros i s b s'; cbn [bget_steal]; [discriminate|].
  set (old := ((h + i) mod NBUCKET)%nat).
  rewrite bind_acquire. destruct (bucket_lock s old) eqn:Hl; [discriminate|].
  name_state s0 H0. rewrite bind_find_in_bucket.
  assert (M0 : mem s0 = mem s) by (rewrite H0; reflexivity).
  destruct (walk fuel (mem s0) (Bucket old) (next (mem s0 (Bucket old))) is_unused)
    as [[b1|]|] eqn:W; [| |discriminate].
  - intros E.
    assert (b1 = b).
    { destruct (bget_take_field dev ltac:(reflexivity) ltac:(reflexivity)
                  _ _ _ _ _ _ _ _ _ E) as (-> & _). reflexivity. }
    subst b1. intros Hb Hn Hh.
    apply (bget_take_prev _ _ _ _ _ _ _ _ E Hb); now rewrite M0.
  - exec. name_state s1 H1. intros E.
    assert (M1 : mem s1 = mem s) by (rewrite H1; exact M0).
    intros Hb Hn Hh. apply (IH (S i) s1 b s' E Hb); now rewrite M1.
Qed.

Lemma bget_to_steal fuel self d blk s b s' :
  bget fuel self d blk s = Done b s' ->
  let h := dhash d blk in
  walk fuel (mem s) (Bucket h) (next (mem s (Bucket h))) (is_block d blk)
    = Some None ->
  walk fuel (mem s) (Bucket h) (next (mem s (Bucket h))) is_unused
    = Some None ->
  exists s0, mem s0 = mem s /\
    bget_steal (NBUCKET - 1) 1 fuel self d blk h s0 = Done b s'.
Proof.
  intros E h W1 W2. unfold bget in E. fold h in E. revert E.
  rewrite bind_acquire. destruct (bucket_lock s h); [discriminate|].
  name_state s0 H0.
  assert (M0 : mem s0 = mem s) by (rewrite H0; reflexivity).
  rewrite bind_find_in_bucket, M0, W1, bind_find_in_bucket, M0, W2.
  intros E. now exists s0.
Qed.

Section WithLayout.

Variable NBUF : nat.

(** X21.  When bget finds neither the block nor an unused buffer in the home
    bucket [h], and the lists are in order and doubly linked, the buffer
    it returns had refcnt 0 and was in the list of another bucket; bget
    takes it out of that list and puts it at the head of the list of
    [h], so that every buffer is still in exactly one list.  Its prev
    pointer, though, is left at the sentinel of bucket 0: unless [h] is
    0 the lists are no longer doubly linked. *)
Theorem steal_moves_buffer_to_home_bucket fuel self d blk s Ls b s' :
  well_linked NBUF s Ls -> doubly_linked NBUF s -> (NBUF < fuel)%nat ->
  (forall i, In i (Ls (dhash d blk)) ->
     is_block d blk (mem s (Buf i)) = false /\ refcnt (mem s (Buf i)) <> 0) ->
  bget fuel self d blk s = Done b s' ->
  exists x j pre post,
    b = Buf x /\ (j < NBUCKET)%nat /\ j <> dhash d blk /\
    Ls j = pre ++ x :: post /\ refcnt (mem s (Buf x)) = 0 /\
    well_linked NBUF s'
      (upd_nat (upd_nat Ls j (pre ++ post)) (dhash d blk) (x :: Ls (dhash d blk))) /\
    prev (mem s' b) = Bucket 0 /\
    (dhash d blk <> 0%nat -> ~ doubly_linked NBUF s').
Proof.
  intros Hwl Hdl Hfuel Hfull E.
  set (h := dhash d blk) in *.
  assert (Hh : (h < NBUCKET)%nat) by apply HASH_bound.
  pose proof Hwl as [Hch HP].
  assert (Hch' : forall j, (j < NBUCKET)%nat ->
            chain (mem s) (Bucket j) (next (mem s (Bucket j))) (map Buf (Ls j))).
  { intros j Hj. now apply Hch. }
  assert (Hlen : forall j, (j < NBUCKET)%nat -> (length (Ls j) < fuel)%nat).
  { intros j Hj. pose proof (well_linked_length NBUF s Ls j Hwl Hj). lia. }
  pose proof (fun j test => walk_bucket fuel Ls (mem s) Hch' Hlen j test) as Wb.
  (* bget goes to the loop over the other buckets *)
  assert (W1 : walk fuel (mem s) (Bucket h) (next (mem s (Bucket h))) (is_block d blk)
               = Some None).
  { rewrite (Wb h _ Hh).
    rewrite (proj2 (find_none_iff _ (Ls h))); [reflexivity|].
    intros i Hi. apply (Hfull i Hi). }
  assert (W2 : walk fuel (mem s) (Bucket h) (next (mem s (Bucket h))) is_unused
               = Some None).
  { rewrite (Wb h _ Hh).
    rewrite (proj2 (find_none_iff _ (Ls h))); [reflexivity|].
    intros i Hi. unfold is_unused. apply Z.eqb_neq. apply (Hfull i Hi). }
  destruct (bget_to_steal _ _ _ _ _ _ _ E W1 W2) as (s0 & M0 & E0). fold h in E0.
  destruct (bget_steal_next _ _ _ _ _ _ _ _ _ _ E0) as (i' & Hi' & W & N).
  rewrite M0 in W, N.
  destruct (other_bucket h i' Hh ltac:(unfold NBUCKET in *; lia)) as [Hjh Hj].
  set (j := ((h + i') mod NBUCKET)%nat) in *.
  rewrite (Wb j _ Hj) in W. injection W as W.
  destruct (find (fun x => is_unused (mem s (Buf x))) (Ls j)) as [x|] eqn:F;
    [|discriminate].
  injection W as <-. apply find_some in F. destruct F as [Hx Hu].
  unfold is_unused in Hu. apply Z.eqb_eq in Hu.
  destruct (in_split x (Ls j) Hx) as (pre & post & HL).
  (* the lists share no buffer *)
  assert (Hnd : NoDup (flat_map Ls (seq 0 NBUCKET))).
  { apply (Permutation_NoDup (Permutation_sym HP)). apply seq_NoDup. }
  destruct (flat_map_NoDup Ls _ Hnd) as [Hnd1 Hnd2].
  assert (Hin : forall k, (k < NBUCKET)%nat -> In k (seq 0 NBUCKET))
    by (intros k Hk; apply in_seq; lia).
  assert (Hndj : NoDup (pre ++ x :: post)).
  { rewrite <- HL. apply Hnd1. now apply Hin. }
  assert (Hxout : ~ In x (pre ++ post)) by now apply NoDup_remove_2.
  assert (Hother : forall k y, (k < NBUCKET)%nat -> k <> j -> In y (Ls k) ->
                               ~ In y (Ls j)).
  { intros k y Hk Hkj Hy Hy'. apply (Hnd2 k j y); auto. }
  (* the node before the buffer *)
  pose proof (Hch' j Hj) as Cj. rewrite HL, map_app in Cj. cbn [map] in Cj.
  destruct (chain_pred _ _ _ _ _ _ Cj) as (pb & Hpb & Npb).
  assert (Hpbn : is_node NBUF pb = true).
  { destruct Hpb as [->|Hpb].
    - cbn [is_node]. now apply Nat.ltb_lt.
    - apply in_map_iff in Hpb. destruct Hpb as (y & <- & Hy). cbn [is_node].
      apply Nat.ltb_lt. apply (well_linked_In NBUF s Ls y Hwl). exists j.
      split; [exact Hj|]. rewrite HL. apply in_or_app. now left. }
  assert (Ppb : prev (mem s (Buf x)) = pb).
  { destruct (Hdl pb Hpbn) as (_ & _ & H3 & _). now rewrite Npb in H3. }
  assert (Hpbh : pb <> Bucket h).
  { destruct Hpb as [->|Hpb]; [congruence|].
    apply in_map_iff in Hpb. destruct Hpb as (y & <- & _). discriminate. }
  assert (Hpbx : pb <> Buf x).
  { destruct Hpb as [->|Hpb]; [discriminate|].
    apply in_map_iff in Hpb. destruct Hpb as (y & <- & Hy). intros Heq.
    injection Heq as ->. apply Hxout. apply in_or_app. now left. }
  assert (Hpbj : forall y, pb = Buf y -> In y (Ls j)).
  { intros y ->. destruct Hpb as [Hpb|Hpb]; [discriminate|].
    apply in_map_iff in Hpb. destruct Hpb as (z & Ez & Hz). injection Ez as ->.
    rewrite HL. apply in_or_app. now left. }
  rewrite Ppb in N.
  (* the next pointers afterwards *)
  assert (NH : next (mem s' (Bucket h)) = Buf x).
  { rewrite N. now rewrite ptr_eqb_refl. }
  assert (Nx : next (mem s' (Buf x)) = next (mem s (Bucket h))).
  { rewrite N. rewrite (proj2 (ptr_eqb_neq (Buf x) (Bucket h))) by discriminate.
    rewrite ptr_eqb_refl.
    now rewrite (proj2 (ptr_eqb_neq (Bucket h) pb)) by congruence. }
  assert (Np : next (mem s' pb) = next (mem s (Buf x))).
  { rewrite N. rewrite (proj2 (ptr_eqb_neq _ _) Hpbh), (proj2 (ptr_eqb_neq _ _) Hpbx).
    now rewrite ptr_eqb_refl. }
  assert (No : forall q, q <> Bucket h -> q <> Buf x -> q <> pb ->
                         next (mem s' q) = next (mem s q)).
  { intros q H1 H2 H3. rewrite N.
    now rewrite (proj2 (ptr_eqb_neq _ _) H1), (proj2 (ptr_eqb_neq _ _) H2),
      (proj2 (ptr_eqb_neq _ _) H3). }
  assert (Hxh : ~ In x (Ls h)).
  { intros Hxh. apply (Hother h x Hh ltac:(congruence) Hxh Hx). }
  exists x, j, pre, post.
  split; [reflexivity|]. split; [exact Hj|]. split; [exact Hjh|].
  split; [exact HL|]. split; [exact Hu|].
  assert (Hwl' : well_linked NBUF s'
                   (upd_nat (upd_nat Ls j (pre ++ post)) h (x :: Ls h))).
  { split.
    - intros k Hk. unfold bucket_is.
      destruct (Nat.eq_dec k h) as [->|Hkh].
      + rewrite upd_nat_same, NH. cbn [map chain].
        split; [reflexivity|]. split; [discriminate|]. rewrite Nx.
        apply (chain_frame (mem s)); [now apply Hch'|].
        intros q Hq. apply in_map_iff in Hq. destruct Hq as (y & <- & Hy).
        apply No; [discriminate| |].
        * intros Heq. injection Heq as ->. contradiction.
        * intros Heq. symmetry in Heq. apply Hpbj in Heq.
          apply (Hother h y Hh ltac:(congruence) Hy Heq).
      + rewrite upd_nat_other by exact Hkh.
        destruct (Nat.eq_dec k j) as [->|Hkj].
        * rewrite upd_nat_same, map_app.
          apply (chain_unlink (mem s) (mem s') (Bucket j) (Buf x) (map Buf post) pb
                   (map Buf pre) (Bucket j) Cj).
          -- constructor.
             ++ intros Hq. change (Buf x :: map Buf post) with (map Buf (x :: post)) in Hq.
                rewrite <- map_app in Hq.
                apply in_map_iff in Hq. destruct Hq as (y & Ey & _). discriminate.
             ++ change (Buf x :: map Buf post) with (map Buf (x :: post)).
                rewrite <- map_app. now apply NoDup_map_Buf.
          -- exact Hpb.
          -- exact Npb.
          -- exact Np.
          -- intros q Hq Hwhere. apply No; [| |exact Hq].
             ++ destruct Hwhere as [->|[Hq'|Hq']]; [congruence| |];
                  apply in_map_iff in Hq'; destruct Hq' as (y & <- & _); discriminate.
             ++ destruct Hwhere as [->|[Hq'|Hq']]; [discriminate| |];
                  apply in_map_iff in Hq'; destruct Hq' as (y & <- & Hy);
                  intros Heq; injection Heq as ->; apply Hxout; apply in_or_app;
                  [now left|now right].
        * rewrite upd_nat_other by exact Hkj.
          rewrite No; [|congruence|discriminate|].
          2:{ intros Heq. destruct Hpb as [->|Hpb]; [congruence|].
              apply in_map_iff in Hpb. destruct Hpb as (y & Ey & _).
              rewrite <- Heq in Ey. discriminate. }
          apply (chain_frame (mem s)); [now apply Hch'|].
          intros q Hq. apply in_map_iff in Hq. destruct Hq as (y & <- & Hy).
          apply No; [discriminate| |].
          -- intros Heq. injection Heq as ->. apply (Hother k x Hk Hkj Hy Hx).
          -- intros Heq. symmetry in Heq. apply Hpbj in Heq.
             apply (Hother k y Hk Hkj Hy Heq).
    - set (L1 := upd_nat Ls j (pre ++ post)).
      assert (E1 : Ls h = L1 h) by (unfold L1; now rewrite upd_nat_other).
      rewrite E1.
      rewrite (flat_map_upd_cons L1 h x NBUCKET 0) by lia.
      rewrite <- HP.
      rewrite <- (flat_map_upd_cons L1 j x NBUCKET 0) by lia.
      apply flat_map_pointwise. intros k. unfold L1.
      destruct (Nat.eq_dec k j) as [->|Hkj].
      + rewrite !upd_nat_same, HL. apply Permutation_middle.
      + now rewrite !upd_nat_other. }
  split; [exact Hwl'|].
  assert (Pb : prev (mem s' (Buf x)) = Bucket 0).
  { apply (bget_steal_prev _ _ _ _ _ _ _ _ _ _ E0); rewrite ?M0.
    - discriminate.
    - intros Heq. apply Hpbx. rewrite <- Ppb.
      assert (Hxn : is_node NBUF (Buf x) = true).
      { cbn [is_node]. apply Nat.ltb_lt. apply (well_linked_In NBUF s Ls x Hwl).
        now exists j. }
      destruct (Hdl _ Hxn) as (_ & _ & H3 & _). rewrite Heq in H3.
      now rewrite H3.
    - pose proof (Hch' h Hh) as Chh. destruct (Ls h) as [|y l] eqn:EL.
      + cbn [map chain] in Chh. rewrite Chh. discriminate.
      + cbn [map chain] in Chh. destruct Chh as (-> & _). intros Heq.
        injection Heq as ->. apply Hxh. now left. }
  split; [exact Pb|].
  intros Hh0 Hdl'.
  assert (Hn : is_node NBUF (Bucket h) = true) by (cbn [is_node]; now apply Nat.ltb_lt).
  destruct (Hdl' _ Hn) as (_ & _ & H3 & _). rewrite NH, Pb in H3.
  injection H3 as H3. congruence.
Qed.

End WithLayout.

(** ** bget: where it looks, and the locks *)

Section WithLayout.

Variable NBUF : nat.

(** X22.  bget takes the first buffer that fits.  With every buffer in one
    bucket list and no bucket lock held, the buffer bget returns is the
    first one in the list of the home bucket [h] that carries the block
    or, when none does, the first one with refcnt 0 in the lists of [h],
    [h+1], ..., [h+12] (mod NBUCKET), taken in this order. *)
Theorem bget_takes_first_fit fuel self d blk s Ls b s' :
  well_linked NBUF s Ls -> quiescent s -> (NBUF < fuel)%nat ->
  bget fuel self d blk s = Done b s' ->
  exists x, b = Buf x /\ (x < NBUF)%nat /\
    (find (fun i => is_block d blk (mem s (Buf i))) (Ls (dhash d blk)) = Some x \/
     (find (fun i => is_block d blk (mem s (Buf i))) (Ls (dhash d blk)) = None /\
      find (fun i => is_unused (mem s (Buf i)))
        (flat_map (fun i => Ls ((dhash d blk + i) mod NBUCKET)%nat)
           (seq 0 NBUCKET)) = Some x)).
Proof.
  intros Hwl Hq Hfuel E.
  pose proof (bget_outcome NBUF fuel self d blk s Ls Hwl Hq Hfuel) as O. cbv zeta in O.
  assert (Hh : (dhash d blk < NBUCKET)%nat) by apply HASH_bound.
  destruct (find (fun x => is_block d blk (mem s (Buf x))) (Ls (dhash d blk)))
    as [x|] eqn:F1.
  - destruct (locked (lock (mem s (Buf x)))); [congruence|].
    destruct O as [s1 O]. exists x. split; [congruence|]. split; [|now left].
    apply find_some in F1. apply (well_linked_In NBUF s Ls x Hwl).
    exists (dhash d blk). tauto.
  - destruct (find (fun x => is_unused (mem s (Buf x))) _) as [x|] eqn:F2;
      [|congruence].
    destruct (locked (lock (mem s (Buf x)))); [congruence|].
    destruct O as [s1 O]. exists x. split; [congruence|]. split; [|now right].
    apply find_some in F2. destruct F2 as [Hin _].
    apply probe_all_buckets in Hin; [|exact Hh].
    now apply (well_linked_In NBUF s Ls x Hwl).
Qed.

End WithLayout.

Lemma bget_steal_locks fuel self d blk h : forall n i s b s',
  bget_steal n i fuel self d blk h s = Done b s' ->
  bucket_lock s' h = false /\
  forall j, j <> h -> bucket_lock s' j = bucket_lock s j.
Proof.
  induction n as [|n IH]; intros i s b s'; cbn [bget_steal]; [discriminate|].
  set (old := ((h + i) mod NBUCKET)%nat).
  rewrite bind_acquire. destruct (bucket_lock s old) eqn:Hl; [discriminate|].
  name_state s0 H0. rewrite bind_find_in_bucket.
  destruct (walk fuel (mem s0) (Bucket old) (next (mem s0 (Bucket old))) is_unused)
    as [[b1|]|] eqn:W; [| |discriminate].
  - pose proof (bget_take_run self d blk h old b1 s0) as T.
    destruct (locked (lock (mem s0 b1))); [congruence|].
    destruct T as (s9 & E9 & _ & _ & _ & _ & _ & P6 & _).
    rewrite E9. intros E. injection E as <- <-.
    rewrite P6, H0. cbn [bucket_lock]. split; [now rewrite upd_nat_same|].
    intros j Hj. rewrite (upd_nat_other _ h) by exact Hj.
    destruct (Nat.eq_dec j old) as [->|Hne].
    + rewrite upd_nat_same. exact (eq_sym Hl).
    + now rewrite !upd_nat_other.
  - exec. name_state s1 H1. intros E.
    destruct (IH (S i) s1 b s' E) as [P1 P2]. split; [exact P1|].
    intros j Hj. rewrite (P2 j Hj). rewrite H1, H0. cbn [bucket_lock].
    now apply lock_restored.
Qed.

Lemma bget_locks fuel self d blk s b s' :
  bget fuel self d blk s = Done b s' ->
  forall j, bucket_lock s' j = bucket_lock s j.
Proof.
  unfold bget. set (h := dhash d blk). run.
  destruct (bucket_lock s h) eqn:Hl; [discriminate|]. cbn [mem bucket_lock blocks io].
  destruct (walk fuel (mem s) (Bucket h) (next (mem s (Bucket h))) (is_block d blk))
    as [[b1|]|] eqn:W1; [| |discriminate]; cbn [mem bucket_lock blocks io].
  - match goal with |- context [if ?c then _ else _] => destruct c eqn:Hlk end;
      [discriminate|].
    intros E. injection E as <- <-. cbn [bucket_lock]. intros j.
    now apply lock_restored.
  - destruct (walk fuel (mem s) (Bucket h) (next (mem s (Bucket h))) is_unused)
      as [[b1|]|] eqn:W2; [| |discriminate]; cbn [mem bucket_lock blocks io].
    + match goal with |- context [if ?c then _ else _] => destruct c eqn:Hlk end;
        [discriminate|].
      intros E. injection E as <- <-. cbn [bucket_lock]. intros j.
      now apply lock_restored.
    + intros E. destruct (bget_steal_locks _ _ _ _ _ _ _ _ _ _ E) as [P1 P2].
      intros j. destruct (Nat.eq_dec j h) as [->|Hne]; [congruence|].
      rewrite (P2 j Hne). cbn [bucket_lock]. now rewrite upd_nat_other.
Qed.

(** X23.  Every call that returns has released the bucket locks it took: after
    bread, brelse, bwrite, bpin or bunpin each bucket lock is as the call
    found it, so a state with no bucket lock held is followed by one. *)
Theorem calls_leave_bucket_locks_as_found fuel self d blk b s s' :
  bread fuel self d blk s = Done b s' \/
  brelse self b s = Done tt s' \/ bwrite self b s = Done tt s' \/
  bpin b s = Done tt s' \/ bunpin b s = Done tt s' ->
  (forall j, bucket_lock s' j = bucket_lock s j) /\
  (quiescent s -> quiescent s').
Proof.
  intros H.
  assert (L : forall j, bucket_lock s' j = bucket_lock s j).
  { destruct H as [E|[E|[E|[E|E]]]].
    - destruct (bread_cases _ _ _ _ _ _ _ E) as (s1 & G & C).
      pose proof (bget_locks _ _ _ _ _ _ _ G) as L1.
      destruct C as [[_ ->]|(_ & _ & _ & L2 & _)]; [exact L1|].
      intros j. rewrite L2. apply L1.
    - destruct (brelse_inv _ _ _ _ E) as [Hh Hl].
      destruct (brelse_done self b s Hh Hl) as (s1 & E1 & _ & _ & L1 & _).
      assert (s1 = s') by congruence. now subst s1.
    - destruct (bwrite_done self b s (bwrite_inv _ _ _ _ E)) as (s1 & E1 & _ & L1 & _).
      assert (s1 = s') by congruence. subst s1. intros j. now rewrite L1.
    - destruct (bpin_done b s (bpin_inv _ _ _ E)) as (s1 & E1 & _ & _ & L1 & _).
      assert (s1 = s') by congruence. now subst s1.
    - destruct (bunpin_done b s (bunpin_inv _ _ _ E)) as (s1 & E1 & _ & _ & L1 & _).
      assert (s1 = s') by congruence. now subst s1. }
  split; [exact L|]. intros Hq j Hj. rewrite L. now apply Hq.
Qed.

(** ** Deciding the shape of the lists *)

Lemma chainb_ok m head l : forall p, chainb m head p l = true -> chain m head p l.
Proof.
  induction l as [|x l IH]; intros p; cbn [chainb chain].
  - apply ptr_eqb_eq.
  - rewrite !andb_true_iff, negb_true_iff. intros [[H1 H2] H3].
    split; [now apply ptr_eqb_eq|]. split; [now apply ptr_eqb_neq|now apply IH].
Qed.

Lemma listsb_ok s Ls :
  listsb s Ls = true -> forall j, (j < NBUCKET)%nat -> bucket_is s j (Ls j).
Proof.
  unfold listsb. rewrite forallb_forall. intros H j Hj.
  apply chainb_ok. apply H. apply in_seq. lia.
Qed.

Lemma doubly_linkedb_ok n s : doubly_linkedb n s = true -> doubly_linked n s.
Proof.
  unfold doubly_linkedb. rewrite forallb_forall. intros H p Hp.
  assert (Hin : In p (map Bucket (seq 0 NBUCKET) ++ map Buf (seq 0 n))).
  { apply in_or_app. destruct p as [|i|j]; cbn [is_node] in Hp; [discriminate| |].
    - right. apply in_map. apply in_seq. apply Nat.ltb_lt in Hp. lia.
    - left. apply in_map. apply in_seq. apply Nat.ltb_lt in Hp. lia. }
  specialize (H p Hin). unfold node_okb in H.
  rewrite !andb_true_iff, !ptr_eqb_eq in H. tauto.
Qed.

Lemma flat_map_nil {A C} (l : list A) : flat_map (fun _ => @nil C) l = [].
Proof. induction l as [|a l IH]; cbn; [reflexivity|exact IH]. Qed.

(** The lists that binit builds share out the buffers. *)
Lemma bucket_of_partition base size n :
  Permutation (flat_map (bucket_of base size n) (seq 0 NBUCKET)) (seq 0 n).
Proof.
  induction n as [|k IH].
  - cbn [seq]. rewrite (flat_map_ext _ (fun _ => []));
      [now rewrite flat_map_nil|reflexivity].
  - set (j := HASH (buf_addr base size k)).
    rewrite (flat_map_ext _ (upd_nat (bucket_of base size k) j
                               (k :: bucket_of base size k j))).
    + rewrite (flat_map_upd_cons _ j k NBUCKET 0)
        by (pose proof (HASH_bound (buf_addr base size k)); unfold j; lia).
      rewrite seq_S. cbn [Nat.add]. rewrite IH. apply Permutation_cons_append.
    + intros i. rewrite bucket_of_S. fold j.
      destruct (Nat.eqb_spec j i) as [->|Hne].
      * now rewrite upd_nat_same.
      * rewrite upd_nat_other by congruence. reflexivity.
Qed.

(** *** The statements at work on the kernel of the lab *)

Lemma run_answers (o : outcome state ptr) b :
  answers o b = true -> o = Done b (state_of o).
Proof.
  destruct o as [r s| | |]; cbn; intros H; try discriminate.
  apply ptr_eqb_eq in H. now subst.
Qed.

Lemma run_finishes (o : outcome state unit) :
  finishes o = true -> o = Done tt (state_of o).
Proof. destruct o as [[] s| | |]; cbn; intros H; [reflexivity|discriminate..]. Qed.

Local Abbreviation lab_lists := (bucket_of lab_bcache_buf lab_sizeof_buf lab_NBUF).
Local Abbreviation read1 := (state_of (bread 64 1 1 1 fresh)).

Lemma fresh_lists : well_linked lab_NBUF fresh lab_lists.
Proof.
  split; [apply listsb_ok; vm_compute; reflexivity|apply bucket_of_partition].
Qed.

Lemma crowded_lists : well_linked lab_NBUF crowded lab_lists.
Proof.
  split; [apply listsb_ok; vm_compute; reflexivity|apply bucket_of_partition].
Qed.

Lemma bpin_bunpin_restores_witness :
  exists s1 s2,
    bpin (Buf 27) fresh = Done tt s1 /\ bunpin (Buf 27) s1 = Done tt s2 /\
    mem s1 (Buf 27) =
      set_refcnt ((refcnt (mem fresh (Buf 27)) + 1) mod 2 ^ 32) (mem fresh (Buf 27)) /\
    (forall q, q <> Buf 27 -> mem s1 q = mem fresh q) /\
    (forall q, mem s2 q = mem fresh q) /\
    (forall j, bucket_lock s2 j = bucket_lock fresh j) /\
    io s2 = io fresh /\ blocks s2 = blocks fresh.
Proof.
  apply (bpin_bunpin_restores (Buf 27) fresh).
  - vm_compute. reflexivity.
  - assert (E : refcnt (mem fresh (Buf 27)) = 0) by (vm_compute; reflexivity).
    rewrite E. lia.
Defined.

Lemma bget_recycles_only_unused_witness :
  io (state_of (bget 64 1 1 40 crowded)) = io crowded /\
  blocks (state_of (bget 64 1 1 40 crowded)) = blocks crowded /\
  (forall q, q <> Buf 21 ->
     same_contents (mem crowded q) (mem (state_of (bget 64 1 1 40 crowded)) q)) /\
  lock (mem (state_of (bget 64 1 1 40 crowded)) (Buf 21)) =
    {| locked := true; pid := 1 |} /\
  data (mem (state_of (bget 64 1 1 40 crowded)) (Buf 21)) =
    data (mem crowded (Buf 21)) /\
  dev (mem (state_of (bget 64 1 1 40 crowded)) (Buf 21)) = 1 /\
  blockno (mem (state_of (bget 64 1 1 40 crowded)) (Buf 21)) = 40 /\
  ((dev (mem crowded (Buf 21)) = 1 /\ blockno (mem crowded (Buf 21)) = 40 /\
    valid (mem (state_of (bget 64 1 1 40 crowded)) (Buf 21)) =
      valid (mem crowded (Buf 21)) /\
    refcnt (mem (state_of (bget 64 1 1 40 crowded)) (Buf 21)) =
      (refcnt (mem crowded (Buf 21)) + 1) mod 2 ^ 32 /\
    same_links crowded (state_of (bget 64 1 1 40 crowded))) \/
   (refcnt (mem crowded (Buf 21)) = 0 /\
    valid (mem (state_of (bget 64 1 1 40 crowded)) (Buf 21)) = 0 /\
    refcnt (mem (state_of (bget 64 1 1 40 crowded)) (Buf 21)) = 1)).
Proof.
  apply (bget_recycles_only_unused 64 1 1 40 crowded (Buf 21)
           (state_of (bget 64 1 1 40 crowded))).
  apply run_answers. vm_compute. reflexivity.
Defined.

Lemma bread_returns_block_contents_witness :
  holds 1 (mem read1 (Buf 27)) /\ dev (mem read1 (Buf 27)) = 1 /\
  blockno (mem read1 (Buf 27)) = 1 /\
  valid (mem read1 (Buf 27)) <> 0 /\ blocks read1 = blocks fresh /\
  (forall q, q <> Buf 27 -> same_contents (mem fresh q) (mem read1 q)) /\
  ((io read1 = io fresh /\ data (mem read1 (Buf 27)) = data (mem fresh (Buf 27)) /\
    dev (mem fresh (Buf 27)) = 1 /\ blockno (mem fresh (Buf 27)) = 1 /\
    valid (mem fresh (Buf 27)) <> 0) \/
   (io read1 = {| op_write := false; op_dev := 1; op_blockno := 1 |} :: io fresh /\
    data (mem read1 (Buf 27)) = blocks fresh 1 1 /\ valid (mem read1 (Buf 27)) = 1)).
Proof.
  apply (bread_returns_block_contents 64 1 1 1 fresh (Buf 27) read1).
  apply run_answers. vm_compute. reflexivity.
Defined.


Lemma bread_of_held_block_waits_witness :
  bread 64 2 1 1 read1 = Blocked.
Proof.
  apply (bread_of_held_block_waits 64 1 2 1 1 fresh (Buf 27) read1).
  - apply run_answers. vm_compute. reflexivity.
  - intros j. discriminate.
Defined.

Lemma bread_bwrite_leaves_disk_witness :
  exists s2, bwrite 1 (Buf 27) read1 = Done tt s2 /\
    mem s2 = mem read1 /\
    (forall d' n', blocks s2 d' n' = blocks fresh d' n') /\
    io s2 = {| op_write := true; op_dev := 1; op_blockno := 1 |} :: io read1.
Proof.
  apply (bread_bwrite_leaves_disk 64 1 1 1 fresh (Buf 27) read1).
  - apply run_answers. vm_compute. reflexivity.
  - intros Hv. exfalso. apply Hv. vm_compute. reflexivity.
Defined.

Lemma binit_puts_buffer_in_bucket_of_its_address_witness :
  exists s, binit lab_NBUF lab_bcache_buf lab_sizeof_buf (boot blank_disk) = Done tt s /\
    (forall j, (j < NBUCKET)%nat -> bucket_is s j (lab_lists j)) /\
    quiescent s /\
    (forall i, (i < lab_NBUF)%nat ->
       pristine (mem s (Buf i)) /\ locked (lock (mem s (Buf i))) = false) /\
    io s = io (boot blank_disk) /\ blocks s = blocks (boot blank_disk).
Proof.
  apply (binit_puts_buffer_in_bucket_of_its_address lab_NBUF lab_bcache_buf
           lab_sizeof_buf (boot blank_disk)).
  intros i. cbn. repeat split.
Defined.

Lemma brelse_bwrite_bpin_bunpin_keep_lists_witness :
  same_links read1 (state_of (brelse 1 (Buf 27) read1)) /\
  (forall n Ls, well_linked n read1 Ls ->
                well_linked n (state_of (brelse 1 (Buf 27) read1)) Ls) /\
  (forall n, doubly_linked n read1 ->
             doubly_linked n (state_of (brelse 1 (Buf 27) read1))).
Proof.
  apply (brelse_bwrite_bpin_bunpin_keep_lists 1 (Buf 27) read1
           (state_of (brelse 1 (Buf 27) read1))).
  left. apply run_finishes. vm_compute. reflexivity.
Defined.

Lemma bread_without_steal_keeps_lists_witness :
  (exists i, Buf 27 = Buf i /\ In i (lab_lists (dhash 1 1))) /\
  same_links fresh read1 /\ well_linked lab_NBUF read1 lab_lists /\
  (doubly_linked lab_NBUF fresh -> doubly_linked lab_NBUF read1).
Proof.
  apply (bread_without_steal_keeps_lists lab_NBUF 64 1 1 1 fresh lab_lists
           (Buf 27) read1).
  - exact fresh_lists.
  - unfold lab_NBUF. lia.
  - exists 27%nat. split.
    + vm_compute. now left.
    + right. vm_compute. reflexivity.
  - apply run_answers. vm_compute. reflexivity.
Defined.

Lemma steal_moves_buffer_to_home_bucket_witness :
  exists x j pre post,
    Buf 21 = Buf x /\ (j < NBUCKET)%nat /\ j <> dhash 1 40 /\
    lab_lists j = pre ++ x :: post /\ refcnt (mem crowded (Buf x)) = 0 /\
    well_linked lab_NBUF (state_of (bget 64 1 1 40 crowded))
      (upd_nat (upd_nat lab_lists j (pre ++ post)) (dhash 1 40)
         (x :: lab_lists (dhash 1 40))) /\
    prev (mem (state_of (bget 64 1 1 40 crowded)) (Buf 21)) = Bucket 0 /\
    (dhash 1 40 <> 0%nat ->
     ~ doubly_linked lab_NBUF (state_of (bget 64 1 1 40 crowded))).
Proof.
  apply (steal_moves_buffer_to_home_bucket lab_NBUF 64 1 1 40 crowded lab_lists
           (Buf 21) (state_of (bget 64 1 1 40 crowded))).
  - exact crowded_lists.
  - apply doubly_linkedb_ok. vm_compute. reflexivity.
  - unfold lab_NBUF. lia.
  - intros i Hi. vm_compute in Hi.
    destruct Hi as [<-|[<-|[<-|[]]]]; split; vm_compute; (reflexivity || discriminate).
  - apply run_answers. vm_compute. reflexivity.
Defined.

Lemma bget_takes_first_fit_witness :
  exists x, Buf 21 = Buf x /\ (x < lab_NBUF)%nat /\
    (find (fun i => is_block 1 40 (mem crowded (Buf i))) (lab_lists (dhash 1 40))
       = Some x \/
     (find (fun i => is_block 1 40 (mem crowded (Buf i))) (lab_lists (dhash 1 40))
        = None /\
      find (fun i => is_unused (mem crowded (Buf i)))
        (flat_map (fun i => lab_lists ((dhash 1 40 + i) mod NBUCKET)%nat)
           (seq 0 NBUCKET)) = Some x)).
Proof.
  apply (bget_takes_first_fit lab_NBUF 64 1 1 40 crowded lab_lists (Buf 21)
           (state_of (bget 64 1 1 40 crowded))).
  - exact crowded_lists.
  - intros j Hj. unfold NBUCKET in Hj.
    do 13 (destruct j as [|j]; [vm_compute; reflexivity|]). lia.
  - unfold lab_NBUF. lia.
  - apply run_answers. vm_compute. reflexivity.
Defined.

Lemma calls_leave_bucket_locks_as_found_witness :
  (forall j, bucket_lock read1 j = bucket_lock fresh j) /\
  (quiescent fresh -> quiescent read1).
Proof.
  apply (calls_leave_bucket_locks_as_found 64 1 1 1 (Buf 27) fresh read1).
  left. apply run_answers. vm_compute. reflexivity.
Defined.

End BioMore.
